(** * XLOS Pro: the window and desktop manager of [XLOS_Pro.py]

    A shallow embedding of the window manager ([Window]), the desktop
    ([Desktop]) and one iteration of the main event loop, followed by the
    properties of the specification that concern them.

    Conventions of the embedding.
    - Python integers are [Z].  [pygame.Rect] is a record of four integers;
      [Rect.copy] is the identity on values, and the one place where the
      source shares a [Rect] object between two attributes
      ([win.rect = win._pre_max_rect]) is modelled by [PreAlias].  A [Rect]
      holds C [int]s: the one place where the source builds a [Rect] from
      integers it does not control, [Window.__init__], converts them as
      pygame does ([Rect.c_int]).
    - [Window] objects live in a heap, a list indexed by the sequence number
      [Window.z]; [Window._seq] is the length of that list.  The z-order
      [Desktop.windows] and the task-bar buttons hold references (indices)
      into it, so that a reference to a closed window keeps its meaning.
    - A method that can raise returns a [result]; [return] in the middle of
      [Desktop.handle_event] is a [flow].
    - Attributes created outside [__init__] ([start_btn], [task_buttons],
      [menu_items], [power_btn], [power_rect], [_btns]) are [option]s:
      [None] until the first [draw] that assigns them.
    - What the source reads from its environment while it handles one event
      ([pygame.mouse.get_pos()], [pygame.key.get_mods() & KMOD_ALT],
      [time.time()]) is the record [Env].  [time.time()] is a binary64
      float, in seconds, and the arithmetic on it is that of the floats.
    - A hosted application is known to the window manager only through the
      calls it receives: an [App] is its class and the log of those calls.
      Application handlers are taken to return normally and never touch the
      desktop (none of the nine classes of the source does).  A constructor
      and a [draw] method run inside [spawn_window] and [Window.draw]: where
      one of them can raise ([Finder.__init__] reading [memory.json],
      [XLDriftApp.draw] allocating its surface), the embedding raises.
    - The file [memory.json] is the field [memory_json] of the state; it is
      rewritten by the Finder application and from outside the program,
      which is a step of its own ([StepFile]).
    - [pygame.Surface] raises for a negative size; a surface of a
      non-negative size is taken to be allocated. *)

From Stdlib Require Import ZArith Lia Floats.
From stdpp Require Import base option list strings gmap.
Local Open Scope Z_scope.
#[local] Set Warnings "-inexact-float".

(** ** Configuration constants *)

Definition W : Z := 1280.
Definition H : Z := 720.
Definition TITLEBAR_H : Z := 32.
Definition TASKBAR_H : Z := 44.
Definition RESIZE_GRIP : Z := 12.
Definition MIN_W : Z := 220.
Definition MIN_H : Z := 140.
Definition ICON_SIZE : Z := 64.

(** pygame key codes used by the desktop. *)
Definition K_ESCAPE : Z := 27.
Definition K_TAB : Z := 9.

(** ** Exceptions, results and early returns *)

Inductive Exn :=
| KeyError (key : string)
| ValueError
| AttributeError (attr : string)
| SystemExit
| TypeError
| OSError
| UnicodeDecodeError             (* a subclass of ValueError *)
| JSONDecodeError                (* json.JSONDecodeError, a subclass of ValueError *)
| PygameError                    (* pygame.error *)
| DanglingRef.  (* a heap index naming no object: not a Python behaviour;
                   the z-order of a desktop the program reaches holds none
                   ([well_formed] and [boot_inv] below) *)

Inductive result (A : Type) :=
| Ok (a : A)
| Raise (e : Exn).
Arguments Ok {A} a.
Arguments Raise {A} e.

#[global] Instance result_bind : MBind result :=
  fun A B f m => match m with Ok a => f a | Raise e => Raise e end.
#[global] Instance result_ret : MRet result := fun A a => Ok a.

(** A stage of an event handler either falls through to the next stage,
    returns from the handler, or raises. *)
Inductive flow (A : Type) :=
| Next (a : A)
| Return (a : A)
| Throw (e : Exn).
Arguments Next {A} a.
Arguments Return {A} a.
Arguments Throw {A} e.

Definition and_then {A} (m : flow A) (k : A -> flow A) : flow A :=
  match m with
  | Next a => k a
  | Return a => Return a
  | Throw e => Throw e
  end.

Definition finish {A} (m : flow A) : result A :=
  match m with
  | Next a => Ok a
  | Return a => Ok a
  | Throw e => Raise e
  end.

(** [returning r] ends the handler with the state of [r]. *)
Definition returning {A} (r : result A) : flow A :=
  match r with
  | Ok a => Return a
  | Raise e => Throw e
  end.

Definition continuing {A} (r : result A) : flow A :=
  match r with
  | Ok a => Next a
  | Raise e => Throw e
  end.

(** ** pygame.Rect *)

Definition Pos : Type := Z * Z.

Module Rect.
Record t := mk { x : Z; y : Z; w : Z; h : Z }.

Definition right (r : t) : Z := x r + w r.
Definition bottom (r : t) : Z := y r + h r.

Definition collidepoint (r : t) (p : Pos) : bool :=
  (x r <=? fst p) && (fst p <? x r + w r) &&
  (y r <=? snd p) && (snd p <? y r + h r).

(** How pygame reads a Python integer into a field of a [Rect]
    ([pg_IntFromObj]: [PyLong_AsLong], then a cast to [int]): an integer
    that fits a C [long] (64 bits) is cut to its 32 low bits, read as a
    signed number; any other is refused. *)
Definition c_int (v : Z) : option Z :=
  if (- 2 ^ 63 <=? v) && (v <? 2 ^ 63)
  then Some ((v + 2 ^ 31) mod 2 ^ 32 - 2 ^ 31)
  else None.

(** [pygame.Rect((x, y, w, h))]: [TypeError] (Argument must be rect style
    object) when a component is refused. *)
Definition from_tuple (r : Z * Z * Z * Z) : option t :=
  let '(vx, vy, vw, vh) := r in
  match c_int vx, c_int vy, c_int vw, c_int vh with
  | Some x', Some y', Some w', Some h' => Some (mk x' y' w' h')
  | _, _, _, _ => None
  end.

Definition set_x (v : Z) (r : t) : t := mk v (y r) (w r) (h r).
Definition set_y (v : Z) (r : t) : t := mk (x r) v (w r) (h r).
Definition set_w (v : Z) (r : t) : t := mk (x r) (y r) v (h r).
Definition set_h (v : Z) (r : t) : t := mk (x r) (y r) (w r) v.
End Rect.

(** ** The raw event stream *)

Inductive Event :=
| MOUSEBUTTONDOWN (button : Z) (pos : Pos)
| MOUSEBUTTONUP (button : Z) (pos : Pos)
| MOUSEMOTION (pos : Pos)
| KEYDOWN (key : Z)
| KEYUP (key : Z)
| QUIT
| VIDEORESIZE (w h : Z)
| OTHEREVENT (type : Z).

Record Env := mkEnv {
  mouse : Pos;        (* pygame.mouse.get_pos() *)
  alt_held : bool;    (* pygame.key.get_mods() & KMOD_ALT *)
  now : float         (* time.time(), in seconds *)
}.
Arguments mkEnv mouse alt_held now%_float.

(** ** Applications and the registry *)

Inductive AppClass :=
| NotesApp | SketchApp | SettingsApp | Calculator | SnakeApp
| TTTApp | Finder | XLDriftApp | ChatApp.

(** The class attribute [name]. *)
Definition class_name (c : AppClass) : string :=
  match c with
  | NotesApp => "Notes"
  | SketchApp => "Sketch"
  | SettingsApp => "Settings"
  | Calculator => "Calculator"
  | SnakeApp => "Snake"
  | TTTApp => "TicTacToe"
  | Finder => "Finder"
  | XLDriftApp => "XL DRIFT"
  | ChatApp => "ChatApp"
  end.

Definition APP_MAP : list (string * AppClass) :=
  [ ("Notes", NotesApp); ("Sketch", SketchApp); ("Settings", SettingsApp);
    ("Calculator", Calculator); ("Snake", SnakeApp); ("TicTacToe", TTTApp);
    ("Finder", Finder); ("XL DRIFT", XLDriftApp); ("ChatApp", ChatApp) ].

(** [APP_MAP[app_name]]: the class, or [KeyError]. *)
Fixpoint assoc {A} (k : string) (m : list (string * A)) : option A :=
  match m with
  | [] => None
  | (k', v) :: m' => if String.eqb k k' then Some v else assoc k m'
  end.

Definition APP_MAP_getitem (app_name : string) : result AppClass :=
  match assoc app_name APP_MAP with
  | Some c => Ok c
  | None => Raise (KeyError app_name)
  end.

(** What [Finder.load_notes] (lines 604-614) finds when it looks for
    [memory.json]. *)
Inductive MemoryJson :=
| Missing        (* os.path.exists is false: no note *)
| Notes          (* a JSON object whose list values hold strings *)
| Unreadable     (* open raises OSError *)
| Undecodable    (* the bytes are not text: UnicodeDecodeError *)
| Malformed      (* json.load raises JSONDecodeError *)
| NotAnObject    (* a JSON value without [items]: AttributeError *)
| BadList.       (* a list value that [join] refuses: TypeError *)

Module App.
Record t := mk {
  class : AppClass;
  log : list (Event * Rect.t)   (* the calls handle_event(e, rect) received *)
}.

(** A fresh instance, no call received. *)
Definition make (c : AppClass) : t := mk c [].

(** [Finder.load_notes()] *)
Definition load_notes (f : MemoryJson) : option Exn :=
  match f with
  | Missing | Notes => None
  | Unreadable => Some OSError
  | Undecodable => Some UnicodeDecodeError
  | Malformed => Some JSONDecodeError
  | NotAnObject => Some (AttributeError "items")
  | BadList => Some TypeError
  end.

(** [APP_MAP[app_name]()]: of the nine constructors only [Finder.__init__]
    can raise, from [load_notes]; [NotesApp.__init__] reads its file under
    [try]. *)
Definition new (c : AppClass) (f : MemoryJson) : result t :=
  match c with
  | Finder =>
      match load_notes f with
      | Some x => Raise x
      | None => Ok (make c)
      end
  | _ => Ok (make c)
  end.

(** Whether [draw(surf, rect)] raises: [XLDriftApp.draw] begins with
    [pygame.Surface((rect.w, rect.h))] (line 744), which raises for a
    negative size. *)
Definition draw_raises (a : t) (rect : Rect.t) : bool :=
  match class a with
  | XLDriftApp => (Rect.w rect <? 0) || (Rect.h rect <? 0)
  | _ => false
  end.

Definition name (a : t) : string := class_name (class a).

Definition handle_event (e : Event) (rect : Rect.t) (a : t) : t :=
  mk (class a) (log a ++ [(e, rect)]).
End App.

(** ** Window *)

(** What the attribute [_pre_max_rect] refers to: a [Rect] of its own, or
    the very object that [rect] refers to (after un-maximizing). *)
Inductive PreMax :=
| PreOwn (r : Rect.t)
| PreAlias.

Module Window.
Record t := mk {
  app : App.t;
  title : string;
  rect : Rect.t;
  minimized : bool;
  maximized : bool;
  dragging : bool;
  resizing : bool;
  drag_offset : Pos;
  _pre_max_rect : PreMax;
  z : nat;
  _btns : option (list (string * Rect.t))
}.

Definition set_app (v : App.t) (s : t) : t :=
  mk v (title s) (rect s) (minimized s) (maximized s) (dragging s)
     (resizing s) (drag_offset s) (_pre_max_rect s) (z s) (_btns s).
Definition set_rect (v : Rect.t) (s : t) : t :=
  mk (app s) (title s) v (minimized s) (maximized s) (dragging s)
     (resizing s) (drag_offset s) (_pre_max_rect s) (z s) (_btns s).
Definition set_minimized (v : bool) (s : t) : t :=
  mk (app s) (title s) (rect s) v (maximized s) (dragging s)
     (resizing s) (drag_offset s) (_pre_max_rect s) (z s) (_btns s).
Definition set_maximized (v : bool) (s : t) : t :=
  mk (app s) (title s) (rect s) (minimized s) v (dragging s)
     (resizing s) (drag_offset s) (_pre_max_rect s) (z s) (_btns s).
Definition set_dragging (v : bool) (s : t) : t :=
  mk (app s) (title s) (rect s) (minimized s) (maximized s) v
     (resizing s) (drag_offset s) (_pre_max_rect s) (z s) (_btns s).
Definition set_resizing (v : bool) (s : t) : t :=
  mk (app s) (title s) (rect s) (minimized s) (maximized s) (dragging s)
     v (drag_offset s) (_pre_max_rect s) (z s) (_btns s).
Definition set_drag_offset (v : Pos) (s : t) : t :=
  mk (app s) (title s) (rect s) (minimized s) (maximized s) (dragging s)
     (resizing s) v (_pre_max_rect s) (z s) (_btns s).
Definition set_pre_max_rect (v : PreMax) (s : t) : t :=
  mk (app s) (title s) (rect s) (minimized s) (maximized s) (dragging s)
     (resizing s) (drag_offset s) v (z s) (_btns s).
Definition set_btns (v : option (list (string * Rect.t))) (s : t) : t :=
  mk (app s) (title s) (rect s) (minimized s) (maximized s) (dragging s)
     (resizing s) (drag_offset s) (_pre_max_rect s) (z s) v.

(** The object that [__init__] leaves, with frame [r] and number [seq]. *)
Definition make (a : App.t) (ttl : string) (r : Rect.t) (seq : nat) : t :=
  mk a ttl r false false false false (0, 0) (PreOwn r) seq None.

(** [Window(app, title, rect)] when [Window._seq] is [seq]:
    [self.rect = pygame.Rect(rect)] comes before [Window._seq += 1]. *)
Definition new (a : App.t) (ttl : string) (r : Z * Z * Z * Z) (seq : nat)
  : result t :=
  match Rect.from_tuple r with
  | Some r' => Ok (make a ttl r' seq)
  | None => Raise TypeError
  end.

(** Reading [self._pre_max_rect]. *)
Definition pre_max_rect (s : t) : Rect.t :=
  match _pre_max_rect s with
  | PreOwn r => r
  | PreAlias => rect s
  end.

Definition titlebar_rect (s : t) : Rect.t :=
  Rect.mk (Rect.x (rect s)) (Rect.y (rect s)) (Rect.w (rect s)) TITLEBAR_H.

Definition content_rect (s : t) : Rect.t :=
  Rect.mk (Rect.x (rect s)) (Rect.y (rect s) + TITLEBAR_H)
          (Rect.w (rect s)) (Rect.h (rect s) - TITLEBAR_H).

Definition grip_rect (s : t) : Rect.t :=
  Rect.mk (Rect.right (rect s) - RESIZE_GRIP)
          (Rect.bottom (rect s) - RESIZE_GRIP) RESIZE_GRIP RESIZE_GRIP.

(** The loop of [_hit_title_buttons] over a given button list. *)
Fixpoint hit_buttons (btns : list (string * Rect.t)) (pos : Pos)
  : option string :=
  match btns with
  | [] => None
  | (label, r) :: rest =>
      if Rect.collidepoint r pos then Some label else hit_buttons rest pos
  end.

(** [_hit_title_buttons]: [self._btns] exists only once [draw] has run. *)
Definition _hit_title_buttons (pos : Pos) (s : t) : result (option string) :=
  match _btns s with
  | None => Raise (AttributeError "_btns")
  | Some btns => Ok (hit_buttons btns pos)
  end.

(** The last two lines of [handle_event]. *)
Definition forward_to_app (e : Event) (s : t) : t :=
  if negb (minimized s)
  then set_app (App.handle_event e (content_rect s) (app s)) s
  else s.

(** The [if self.dragging] block of the MOUSEMOTION branch. *)
Definition drag_to (screen : Z * Z) (pos : Pos) (s : t) : t :=
  let nx := fst pos - fst (drag_offset s) in
  let ny := snd pos - snd (drag_offset s) in
  let '(sw, sh) := screen in
  let nx := Z.max (- Rect.w (rect s) + 60) (Z.min nx (sw - 60)) in
  let ny := Z.max 0 (Z.min ny (sh - TASKBAR_H - TITLEBAR_H)) in
  set_rect (Rect.set_y ny (Rect.set_x nx (rect s))) s.

(** The [if self.resizing] block of the MOUSEMOTION branch. *)
Definition resize_to (screen : Z * Z) (pos : Pos) (s : t) : t :=
  let nx := Z.max MIN_W (fst pos - Rect.x (rect s)) in
  let ny := Z.max MIN_H (snd pos - Rect.y (rect s)) in
  let '(sw, sh) := screen in
  let nx := Z.min nx (sw - Rect.x (rect s) - 10) in
  let ny := Z.min ny (sh - TASKBAR_H - Rect.y (rect s) - 10) in
  set_rect (Rect.set_h ny (Rect.set_w nx (rect s))) s.

(** [handle_event] (lines 158-190): the new state of the window and the
    value returned (a title-button label, or [None]). *)
Definition handle_event (screen : Z * Z) (e : Event) (s : t)
  : result (t * option string) :=
  if minimized s then Ok (s, None)
  else
    match e with
    | MOUSEBUTTONDOWN 1 pos =>
        if Rect.collidepoint (titlebar_rect s) pos then
          btn ← _hit_title_buttons pos s;
          match btn with
          | Some (String c label) => Ok (s, Some (String c label))
          | _ =>
              let s := set_dragging true s in
              let s := set_drag_offset (fst pos - Rect.x (rect s),
                                        snd pos - Rect.y (rect s)) s in
              Ok (forward_to_app e s, None)
          end
        else if Rect.collidepoint (grip_rect s) pos then
          Ok (forward_to_app e (set_resizing true s), None)
        else Ok (forward_to_app e s, None)
    | MOUSEBUTTONUP 1 _ =>
        Ok (forward_to_app e (set_resizing false (set_dragging false s)), None)
    | MOUSEMOTION pos =>
        let s := if dragging s then drag_to screen pos s else s in
        let s := if resizing s then resize_to screen pos s else s in
        Ok (forward_to_app e s, None)
    | _ => Ok (forward_to_app e s, None)
    end.

(** The window that a call of [draw] leaves when it returns: the title
    buttons are laid out from the current title bar, lines 205-213 (nothing
    when minimized). *)
Definition drawn (s : t) : t :=
  if minimized s then s
  else
    let t := titlebar_rect s in
    let bx := Rect.right t - 28 in
    set_btns (Some [ ("x", Rect.mk bx (Rect.y t + 6) 22 18);
                     ("□", Rect.mk (bx - 26) (Rect.y t + 6) 22 18);
                     ("–", Rect.mk (bx - 52) (Rect.y t + 6) 22 18) ]) s.

(** [draw] (lines 192-220).  The shadow comes first:
    [pygame.Surface((shad.w, shad.h))] on the frame inflated by 12 raises
    [pygame.error] for a negative side; the application is drawn last, in
    the content rectangle.  A call that returns leaves [drawn]. *)
Definition draw (s : t) : result t :=
  if minimized s then Ok s
  else if (Rect.w (rect s) + 12 <? 0) || (Rect.h (rect s) + 12 <? 0)
  then Raise PygameError
  else if App.draw_raises (app s) (content_rect s) then Raise PygameError
  else Ok (drawn s).
End Window.


(** ** Desktop icons *)

(** A desktop icon is a dict; the keys added after creation are read with
    defaults ([last_click]: 0, [dragging]: absent, [off]: (0,0)).
    [last_click] holds a time of [time.time()], or the integer 0, which
    compares and subtracts as the float 0. *)
Module Icon.
Record t := mk {
  name : string;
  rect : Rect.t;
  last_click : float;
  dragging : bool;
  off : Pos
}.
Arguments mk name rect last_click%_float dragging off.
End Icon.

(** ** Desktop *)

Module Desktop.
Record t := mk {
  icons : list Icon.t;
  windows : list nat;                         (* z-order, topmost last *)
  start_open : bool;
  menu_rect : Rect.t;
  power_open : bool;
  sleeping : bool;
  start_btn : option Rect.t;                  (* set by draw_taskbar *)
  task_buttons : option (list (Rect.t * nat));(* set by draw_taskbar *)
  menu_items : option (list (Rect.t * string));(* set by draw_start_menu *)
  power_btn : option Rect.t;                  (* set by draw_start_menu *)
  power_rect : option Rect.t;                 (* set by draw_power_dialog *)
  _drag_icon : option nat
}.

(** The whole mutable state of the program: the display surface size, the
    [Window] objects ever created, the desktop singleton, the [running]
    flag of the main loop, the record of the calls of
    [Window.handle_event] made so far (on which object, in order), which the
    source does not keep and which only serves to state routing properties,
    and the file [memory.json] as the next [Finder()] will find it. *)
Record world := mkWorld {
  screen : Z * Z;
  heap : list Window.t;
  dt : t;
  running : bool;
  dispatched : list nat;
  memory_json : MemoryJson
}.

Definition set_dt (v : t) (s : world) : world :=
  mkWorld (screen s) (heap s) v (running s) (dispatched s) (memory_json s).
Definition set_heap (v : list Window.t) (s : world) : world :=
  mkWorld (screen s) v (dt s) (running s) (dispatched s) (memory_json s).
Definition set_screen (v : Z * Z) (s : world) : world :=
  mkWorld v (heap s) (dt s) (running s) (dispatched s) (memory_json s).
Definition set_running (v : bool) (s : world) : world :=
  mkWorld (screen s) (heap s) (dt s) v (dispatched s) (memory_json s).
Definition set_dispatched (v : list nat) (s : world) : world :=
  mkWorld (screen s) (heap s) (dt s) (running s) v (memory_json s).
Definition set_memory_json (v : MemoryJson) (s : world) : world :=
  mkWorld (screen s) (heap s) (dt s) (running s) (dispatched s) v.

Definition set_icons (v : list Icon.t) (s : world) : world :=
  let d := dt s in
  set_dt (mk v (windows d) (start_open d) (menu_rect d) (power_open d)
             (sleeping d) (start_btn d) (task_buttons d) (menu_items d)
             (power_btn d) (power_rect d) (_drag_icon d)) s.
Definition set_windows (v : list nat) (s : world) : world :=
  let d := dt s in
  set_dt (mk (icons d) v (start_open d) (menu_rect d) (power_open d)
             (sleeping d) (start_btn d) (task_buttons d) (menu_items d)
             (power_btn d) (power_rect d) (_drag_icon d)) s.
Definition set_start_open (v : bool) (s : world) : world :=
  let d := dt s in
  set_dt (mk (icons d) (windows d) v (menu_rect d) (power_open d)
             (sleeping d) (start_btn d) (task_buttons d) (menu_items d)
             (power_btn d) (power_rect d) (_drag_icon d)) s.
Definition set_menu_rect (v : Rect.t) (s : world) : world :=
  let d := dt s in
  set_dt (mk (icons d) (windows d) (start_open d) v (power_open d)
             (sleeping d) (start_btn d) (task_buttons d) (menu_items d)
             (power_btn d) (power_rect d) (_drag_icon d)) s.
Definition set_power_open (v : bool) (s : world) : world :=
  let d := dt s in
  set_dt (mk (icons d) (windows d) (start_open d) (menu_rect d) v
             (sleeping d) (start_btn d) (task_buttons d) (menu_items d)
             (power_btn d) (power_rect d) (_drag_icon d)) s.
Definition set_sleeping (v : bool) (s : world) : world :=
  let d := dt s in
  set_dt (mk (icons d) (windows d) (start_open d) (menu_rect d) (power_open d)
             v (start_btn d) (task_buttons d) (menu_items d)
             (power_btn d) (power_rect d) (_drag_icon d)) s.
Definition set_start_btn (v : option Rect.t) (s : world) : world :=
  let d := dt s in
  set_dt (mk (icons d) (windows d) (start_open d) (menu_rect d) (power_open d)
             (sleeping d) v (task_buttons d) (menu_items d)
             (power_btn d) (power_rect d) (_drag_icon d)) s.
Definition set_task_buttons (v : option (list (Rect.t * nat))) (s : world)
  : world :=
  let d := dt s in
  set_dt (mk (icons d) (windows d) (start_open d) (menu_rect d) (power_open d)
             (sleeping d) (start_btn d) v (menu_items d)
             (power_btn d) (power_rect d) (_drag_icon d)) s.
Definition set_menu_items (v : option (list (Rect.t * string))) (s : world)
  : world :=
  let d := dt s in
  set_dt (mk (icons d) (windows d) (start_open d) (menu_rect d) (power_open d)
             (sleeping d) (start_btn d) (task_buttons d) v
             (power_btn d) (power_rect d) (_drag_icon d)) s.
Definition set_power_btn (v : option Rect.t) (s : world) : world :=
  let d := dt s in
  set_dt (mk (icons d) (windows d) (start_open d) (menu_rect d) (power_open d)
             (sleeping d) (start_btn d) (task_buttons d) (menu_items d)
             v (power_rect d) (_drag_icon d)) s.
Definition set_power_rect (v : option Rect.t) (s : world) : world :=
  let d := dt s in
  set_dt (mk (icons d) (windows d) (start_open d) (menu_rect d) (power_open d)
             (sleeping d) (start_btn d) (task_buttons d) (menu_items d)
             (power_btn d) v (_drag_icon d)) s.
Definition set_drag_icon (v : option nat) (s : world) : world :=
  let d := dt s in
  set_dt (mk (icons d) (windows d) (start_open d) (menu_rect d) (power_open d)
             (sleeping d) (start_btn d) (task_buttons d) (menu_items d)
             (power_btn d) (power_rect d) v) s.

(** *** Access to the window objects *)

(** Apply a field update to the object [win] refers to. *)
Definition update_win (win : nat) (f : Window.t -> Window.t) (s : world)
  : world :=
  match heap s !! win with
  | Some o => set_heap (<[win := f o]> (heap s)) s
  | None => s
  end.

(** [win.handle_event(e)]: run the method on the object and note the call. *)
Definition call_handle_event (win : nat) (e : Event) (s : world)
  : result world :=
  match heap s !! win with
  | None => Raise DanglingRef
  | Some o =>
      '(o', _) ← Window.handle_event (screen s) e o;
      Ok (set_dispatched (dispatched s ++ [win])
            (set_heap (<[win := o']> (heap s)) s))
  end.

(** *** list methods on references *)

(** [l.remove(win)]: drops the first occurrence, [ValueError] if none. *)
Fixpoint list_remove (win : nat) (l : list nat) : option (list nat) :=
  match l with
  | [] => None
  | v :: l' =>
      if Nat.eqb v win then Some l'
      else match list_remove win l' with
           | Some r => Some (v :: r)
           | None => None
           end
  end.

(** [win in l] *)
Definition list_contains (win : nat) (l : list nat) : bool :=
  existsb (Nat.eqb win) l.

(** *** spawn_window, focus, close (lines 867-883) *)

Definition focus (win : nat) (s : world) : result world :=
  match last (windows (dt s)) with
  | None => Ok s                                   (* empty list is falsy *)
  | Some top =>
      if Nat.eqb top win then Ok s
      else match list_remove win (windows (dt s)) with
           | None => Raise ValueError
           | Some l => Ok (set_windows (l ++ [win]) s)
           end
  end.

Definition close (win : nat) (s : world) : world :=
  if list_contains win (windows (dt s))
  then match list_remove win (windows (dt s)) with
       | Some l => set_windows l s
       | None => s
       end
  else s.

(** [spawn_window(app_name, size)]; the default size is (520, 360).  The
    new object gets the next sequence number, which is its heap index. *)
Definition spawn_window (app_name : string) (size : Z * Z) (s : world)
  : result world :=
  let n := Z.of_nat (length (windows (dt s))) in
  let x := 180 + n * 16 in
  let y := 120 + n * 12 in
  let rect := (x, y, Z.max MIN_W (fst size), Z.max MIN_H (snd size)) in
  cls ← APP_MAP_getitem app_name;
  app_inst ← App.new cls (memory_json s);
  let seq := length (heap s) in
  w ← Window.new app_inst (App.name app_inst) rect seq;
  let s := set_heap (heap s ++ [w]) s in
  let s := set_windows (windows (dt s) ++ [seq]) s in
  focus seq s.

Definition default_size : Z * Z := (520, 360).

(** *** Desktop.__init__ (lines 850-865) *)

Fixpoint make_icons (i : nat) (names : list string) : list Icon.t :=
  match names with
  | [] => []
  | name :: rest =>
      let x := 24 + (Z.of_nat i mod 2) * (ICON_SIZE + 24) in
      let y := 24 + (Z.of_nat i / 2) * (ICON_SIZE + 24) in
      Icon.mk name (Rect.mk x y ICON_SIZE ICON_SIZE) 0 false (0, 0)
        :: make_icons (S i) rest
  end.

Definition icon_names : list string :=
  ["Notes"; "Sketch"; "Settings"; "Calculator"; "Snake"; "TicTacToe";
   "Finder"; "XL DRIFT"; "ChatApp"].

(** The state just before the last line of [__init__], on a fresh program
    (no window created yet, display of size (W, H)).  The file [memory.json]
    is not read before the first [Finder()]; it starts as missing, and a
    [StepFile] gives it any other content. *)
Definition blank : world :=
  mkWorld (W, H) []
    (mk (make_icons 0 icon_names) [] false
        (Rect.mk 8 (H - 340 - TASKBAR_H) 260 340) false false
        None None None None None None)
    true [] Missing.

Definition __init__ : result world := spawn_window "Notes" (540, 420) blank.

(** *** Hit testing over the z-order *)

(** The condition [not win.minimized and win.rect.collidepoint(mouse)]. *)
Definition hit (m : Pos) (s : world) (win : nat) : bool :=
  match heap s !! win with
  | Some o => negb (Window.minimized o) && Rect.collidepoint (Window.rect o) m
  | None => false
  end.

(** First window satisfying it in [reversed(self.windows)]. *)
Definition top_hit (m : Pos) (s : world) : option nat :=
  find (hit m s) (reverse (windows (dt s))).

(** *** The stages of Desktop.handle_event on a left-button press
    (lines 971-1026) *)

Definition click_start_button (m : Pos) (s : world) : flow world :=
  match start_btn (dt s) with
  | Some r =>
      if Rect.collidepoint r m
      then Return (set_start_open (negb (start_open (dt s))) s)
      else Next s
  | None => Next s
  end.

Definition click_start_menu (m : Pos) (s : world) : flow world :=
  if start_open (dt s) then
    match find (fun it => Rect.collidepoint (fst it) m)
               (default [] (menu_items (dt s))) with
    | Some (_, name) =>
        match spawn_window name default_size s with
        | Ok s' => Return (set_start_open false s')
        | Raise e => Throw e
        end
    | None =>
        if match power_btn (dt s) with
           | Some pb => Rect.collidepoint pb m
           | None => false
           end
        then Return (set_start_open false (set_power_open true s))
        else if negb (Rect.collidepoint (menu_rect (dt s)) m) then
          match start_btn (dt s) with
          | None => Throw (AttributeError "start_btn")
          | Some sb =>
              if negb (Rect.collidepoint sb m)
              then Next (set_start_open false s)
              else Next s
          end
        else Next s
    end
  else Next s.

Fixpoint find_icon (m : Pos) (i : nat) (l : list Icon.t)
  : option (nat * Icon.t) :=
  match l with
  | [] => None
  | ico :: rest =>
      if Rect.collidepoint (Icon.rect ico) m then Some (i, ico)
      else find_icon m (S i) rest
  end.

Definition click_icons (env : Env) (s : world) : flow world :=
  let m := mouse env in
  match find_icon m 0 (icons (dt s)) with
  | None => Next s
  | Some (i, ico) =>
      if negb (PrimFloat.eqb (Icon.last_click ico) 0%float)
         && PrimFloat.ltb (PrimFloat.sub (now env) (Icon.last_click ico))
                          0.35%float
      then
        match spawn_window (Icon.name ico) default_size s with
        | Raise e => Throw e
        | Ok s' =>
            Return (set_icons
                      (<[i := Icon.mk (Icon.name ico) (Icon.rect ico) 0
                                (Icon.dragging ico) (Icon.off ico)]>
                         (icons (dt s'))) s')
        end
      else
        let off := (fst m - Rect.x (Icon.rect ico),
                    snd m - Rect.y (Icon.rect ico)) in
        Return (set_drag_icon (Some i)
                  (set_icons
                     (<[i := Icon.mk (Icon.name ico) (Icon.rect ico) (now env)
                               true off]> (icons (dt s))) s))
  end.

Definition click_task_buttons (m : Pos) (s : world) : flow world :=
  match find (fun b => Rect.collidepoint (fst b) m)
             (default [] (task_buttons (dt s))) with
  | None => Next s
  | Some (_, win) =>
      match heap s !! win with
      | None => Throw DanglingRef
      | Some o =>
          if Window.minimized o
          then returning (focus win (update_win win (Window.set_minimized false) s))
          else if bool_decide (last (windows (dt s)) = Some win)
          then Return (update_win win (Window.set_minimized true) s)
          else returning (focus win s)
      end
  end.

(** The branch of the title button [□] (lines 1017-1022 of the source). *)
Definition toggle_maximize (screen : Z * Z) (o : Window.t) : Window.t :=
  if negb (Window.maximized o) then
    let o := Window.set_pre_max_rect (PreOwn (Window.rect o)) o in
    let '(sw, sh) := screen in
    Window.set_maximized true
      (Window.set_rect (Rect.mk 8 8 (sw - 16) (sh - TASKBAR_H - 16)) o)
  else
    Window.set_maximized false
      (Window.set_pre_max_rect PreAlias
         (Window.set_rect (Window.pre_max_rect o) o)).

Definition is_action (action : option string) (label : string) : bool :=
  match action with
  | Some a => String.eqb a label
  | None => false
  end.

Definition click_windows (m : Pos) (s : world) : flow world :=
  match top_hit m s with
  | None => Next s
  | Some win =>
      match heap s !! win with
      | None => Throw DanglingRef
      | Some o =>
          if Rect.collidepoint (Window.titlebar_rect o) m then
            match Window._hit_title_buttons m o with
            | Raise e => Throw e
            | Ok action =>
                if is_action action "x" then Return (close win s)
                else if is_action action "–"
                then Return (update_win win (Window.set_minimized true) s)
                else if is_action action "□"
                then returning
                       (focus win
                          (update_win win (toggle_maximize (screen s)) s))
                else continuing (focus win s)
            end
          else continuing (focus win s)
      end
  end.

(** Everything [handle_event] does under
    [if e.type == MOUSEBUTTONDOWN and e.button == 1]. *)
Definition route_click (env : Env) (e : Event) (s : world) : flow world :=
  match e with
  | MOUSEBUTTONDOWN 1 _ =>
      let m := mouse env in
      and_then (and_then (and_then (and_then
        (click_start_button m s)
        (click_start_menu m))
        (click_icons env))
        (click_task_buttons m))
        (click_windows m)
  | _ => Next s
  end.

(** *** The power dialog (lines 1027-1046) *)

Definition power_cmds : list string :=
  ["shutdown"; "restart"; "sleep"; "cancel"].

Definition power_action_rect (pr : Rect.t) (i : nat) : Rect.t :=
  Rect.mk (Rect.x pr + 24 + Z.of_nat i * (92 + 12)) (Rect.y pr + 64) 92 40.

(** [for w in self.windows: w.minimized = True] *)
Definition minimize_all (s : world) : world :=
  foldl (fun s win => update_win win (Window.set_minimized true) s)
        s (windows (dt s)).

Fixpoint power_loop (pr : Rect.t) (pos : Pos) (i : nat) (cmds : list string)
  (s : world) : flow world :=
  match cmds with
  | [] => Next s
  | cmd :: rest =>
      if Rect.collidepoint (power_action_rect pr i) pos then
        let s := set_power_open false s in
        if String.eqb cmd "shutdown" then Throw SystemExit
        else if String.eqb cmd "restart"
        then returning (spawn_window "Notes" (540, 420) (set_windows [] s))
        else if String.eqb cmd "sleep"
        then Return (set_sleeping true (minimize_all s))
        else if String.eqb cmd "cancel" then Return s
        else power_loop pr pos (S i) rest s
      else power_loop pr pos (S i) rest s
  end.

Definition power_dialog (e : Event) (s : world) : flow world :=
  if power_open (dt s) then
    match e with
    | MOUSEBUTTONDOWN 1 pos =>
        match power_rect (dt s) with
        | None => Throw (AttributeError "power_rect")
        | Some pr => power_loop pr pos 0 power_cmds s
        end
    | _ => Next s
    end
  else Next s.

(** *** Forwarding and global keys (lines 1047-1058) *)

Definition forward_focused (env : Env) (e : Event) (s : world) : flow world :=
  match top_hit (mouse env) s with
  | Some win => continuing (call_handle_event win e s)
  | None => Next s
  end.

Definition global_keys (env : Env) (e : Event) (s : world) : flow world :=
  match e with
  | KEYDOWN key =>
      let s := if (key =? K_ESCAPE) && start_open (dt s)
               then set_start_open false s else s in
      let s := if (key =? K_TAB) && alt_held env
               then match windows (dt s) with
                    | [] => s
                    | w :: rest => set_windows (rest ++ [w]) s
                    end
               else s in
      Next s
  | _ => Next s
  end.

Definition handle_event (env : Env) (e : Event) (s : world) : result world :=
  if sleeping (dt s) then
    match e with
    | MOUSEBUTTONDOWN _ _ | KEYDOWN _ => Ok (set_sleeping false s)
    | _ => Ok s
    end
  else
    finish (and_then (and_then (and_then
      (route_click env e s)
      (power_dialog e))
      (forward_focused env e))
      (global_keys env e)).

(** *** Desktop.draw (lines 906-963) *)

(** The state that [for win in self.windows: win.draw(surf)] leaves when
    every call returns. *)
Definition drawn_windows (s : world) : world :=
  foldl (fun s win => update_win win Window.drawn s) s (windows (dt s)).

(** [for win in self.windows: win.draw(surf)] *)
Fixpoint draw_windows (wins : list nat) (s : world) : result world :=
  match wins with
  | [] => Ok s
  | win :: rest =>
      match heap s !! win with
      | None => Raise DanglingRef
      | Some o =>
          o' ← Window.draw o;
          draw_windows rest (set_heap (<[win := o']> (heap s)) s)
      end
  end.

Fixpoint layout_task_buttons (x y : Z) (wins : list nat)
  : list (Rect.t * nat) :=
  match wins with
  | [] => []
  | win :: rest =>
      (Rect.mk x y 160 (TASKBAR_H - 8), win)
        :: layout_task_buttons (x + 160 + 6) y rest
  end.

Definition draw_taskbar (s : world) : world :=
  let '(w, h) := screen s in
  let sb := Rect.mk 8 (h - TASKBAR_H + 6) 120 (TASKBAR_H - 12) in
  let s := set_start_btn (Some sb) s in
  set_task_buttons
    (Some (layout_task_buttons (Rect.right sb + 8) (h - TASKBAR_H + 6)
             (windows (dt s)))) s.

Fixpoint layout_menu_items (x y w : Z) (names : list string)
  : list (Rect.t * string) :=
  match names with
  | [] => []
  | name :: rest =>
      (Rect.mk x y w 36, name) :: layout_menu_items x (y + 44) w rest
  end.

Definition draw_start_menu (s : world) : world :=
  if start_open (dt s) then
    let '(w, h) := screen s in
    let mr := menu_rect (dt s) in
    (* menu_rect.bottomleft = (10, h-TASKBAR_H-6) *)
    let mr := Rect.mk 10 (h - TASKBAR_H - 6 - Rect.h mr) (Rect.w mr) (Rect.h mr) in
    let s := set_menu_rect mr s in
    let s := set_menu_items
               (Some (layout_menu_items (Rect.x mr + 12) (Rect.y mr + 58)
                        (Rect.w mr - 24) (map fst APP_MAP))) s in
    set_power_btn
      (Some (Rect.mk (Rect.x mr + 12) (Rect.bottom mr - 64) (Rect.w mr - 24) 44))
      s
  else s.

Definition draw_power_dialog (s : world) : world :=
  if power_open (dt s) then
    (* Rect(0,0,420,180) with center = (W//2, H//2) *)
    set_power_rect (Some (Rect.mk (W / 2 - 420 / 2) (H / 2 - 180 / 2) 420 180)) s
  else s.

(** The state that [draw] leaves when it returns. *)
Definition drawn (s : world) : world :=
  if sleeping (dt s) then s
  else draw_power_dialog (draw_start_menu (draw_taskbar (drawn_windows s))).

(** [draw] (lines 953-963): the task bar, the start menu and the power
    dialog are laid out after every window was drawn. *)
Definition draw (s : world) : result world :=
  if sleeping (dt s) then Ok s
  else
    s1 ← draw_windows (windows (dt s)) s;
    Ok (draw_power_dialog (draw_start_menu (draw_taskbar s1))).
End Desktop.

(** ** The main loop (lines 1103-1129) *)

Definition icon_release (ico : Icon.t) : Icon.t :=
  Icon.mk (Icon.name ico) (Icon.rect ico) (Icon.last_click ico) false
          (Icon.off ico).

Definition icon_move (pos : Pos) (ico : Icon.t) : Icon.t :=
  if Icon.dragging ico then
    Icon.mk (Icon.name ico)
      (Rect.set_y (snd pos - snd (Icon.off ico))
         (Rect.set_x (fst pos - fst (Icon.off ico)) (Icon.rect ico)))
      (Icon.last_click ico) (Icon.dragging ico) (Icon.off ico)
  else ico.

(** The icon bookkeeping that follows [desktop.handle_event(ev)]. *)
Definition icon_drag (ev : Event) (s : Desktop.world) : Desktop.world :=
  match ev with
  | MOUSEBUTTONUP 1 _ =>
      Desktop.set_icons (map icon_release (Desktop.icons (Desktop.dt s))) s
  | MOUSEMOTION pos =>
      Desktop.set_icons (map (icon_move pos) (Desktop.icons (Desktop.dt s))) s
  | _ => s
  end.

(** [for w in desktop.windows: w.handle_event(ev)] *)
Fixpoint forward_all (ev : Event) (wins : list nat) (s : Desktop.world)
  : result Desktop.world :=
  match wins with
  | [] => Ok s
  | win :: rest =>
      s' ← Desktop.call_handle_event win ev s;
      forward_all ev rest s'
  end.

(** The body of [for ev in pygame.event.get()]. *)
Definition main_loop_event (env : Env) (ev : Event) (s : Desktop.world)
  : result Desktop.world :=
  s1 ← match ev with
       | QUIT => Ok (Desktop.set_running false s)
       | VIDEORESIZE w h => Ok (Desktop.set_screen (w, h) s)
       | _ =>
           s' ← Desktop.handle_event env ev s;
           Ok (icon_drag ev s')
       end;
  forward_all ev (Desktop.windows (Desktop.dt s1)) s1.

(** One step of the running program: an event taken from the queue, or the
    drawing that ends an iteration of [while running]; or, between two of
    these, [memory.json] rewritten (by the Finder application, whose
    handlers are not embedded, or from outside the program). *)
Inductive Step :=
| StepEvent (env : Env) (ev : Event)
| StepDraw
| StepFile (f : MemoryJson).

Definition step (st : Step) (s : Desktop.world) : result Desktop.world :=
  match st with
  | StepEvent env ev => main_loop_event env ev s
  | StepDraw => Desktop.draw s
  | StepFile f => Ok (Desktop.set_memory_json f s)
  end.

Fixpoint steps (sts : list Step) (s : Desktop.world) : result Desktop.world :=
  match sts with
  | [] => Ok s
  | st :: rest => s' ← step st s; steps rest s'
  end.

(** The program after [desktop = Desktop()]. *)
Definition boot (sts : list Step) : result Desktop.world :=
  s ← Desktop.__init__; steps sts s.


(** ** Notions used by the properties *)

(** The state after [desktop = Desktop()]: one Notes window. *)
Definition initial : Desktop.world :=
  Eval vm_compute in
    match Desktop.__init__ with
    | Ok s => s
    | Raise _ => Desktop.blank
    end.

(** *** Sequences of spawn_window, focus and close *)

Inductive Call :=
| CallSpawn (app_name : string) (size : Z * Z)
| CallFocus (win : nat)
| CallClose (win : nat).

Definition call (c : Call) (s : Desktop.world) : result Desktop.world :=
  match c with
  | CallSpawn app_name size => Desktop.spawn_window app_name size s
  | CallFocus win => Desktop.focus win s
  | CallClose win => Ok (Desktop.close win s)
  end.

Fixpoint calls (cs : list Call) (s : Desktop.world) : result Desktop.world :=
  match cs with
  | [] => Ok s
  | c :: rest => s' ← call c s; calls rest s'
  end.

(** What an observer of the calls knows, without looking at the desktop:
    how many windows were created (the next window's identity), which of
    them are open (created and not closed since), and when each was last
    focused ([spawn_window] focuses the window it creates; focusing a
    window that is not open focuses nothing). *)
Record Ledger := mkLedger {
  created : nat;
  opened : gset nat;
  focused_at : nat -> nat;
  clock : nat
}.

Definition stamp (win t : nat) (f : nat -> nat) : nat -> nat :=
  fun i => if Nat.eqb i win then t else f i.

Definition note (g : Ledger) (c : Call) : Ledger :=
  match c with
  | CallSpawn _ _ =>
      mkLedger (S (created g)) ({[created g]} ∪ opened g)
               (stamp (created g) (clock g) (focused_at g)) (S (clock g))
  | CallFocus win =>
      mkLedger (created g) (opened g)
               (if bool_decide (win ∈ opened g)
                then stamp win (clock g) (focused_at g)
                else focused_at g)
               (S (clock g))
  | CallClose win =>
      mkLedger (created g) (opened g ∖ {[win]}) (focused_at g) (S (clock g))
  end.

(** After [Desktop()]: window 0 is open and was focused at time 0. *)
Definition ledger0 : Ledger := mkLedger 1 {[0%nat]} (fun _ => 0%nat) 1.

Definition ledger (cs : list Call) : Ledger := foldl note ledger0 cs.

(** The windows of [l] appear in the order in which they were last focused. *)
Fixpoint ascending (f : nat -> nat) (l : list nat) : Prop :=
  match l with
  | [] => True
  | a :: l' => (forall b, b ∈ l' -> (f a < f b)%nat) /\ ascending f l'
  end.

(** The relation between a desktop and a ledger that the three methods
    maintain. *)
Record tallies (s : Desktop.world) (g : Ledger) : Prop := mkTallies {
  tally_nodup : NoDup (Desktop.windows (Desktop.dt s));
  tally_open : forall i, i ∈ Desktop.windows (Desktop.dt s) <-> i ∈ opened g;
  tally_created : created g = length (Desktop.heap s);
  tally_bound : forall i, i ∈ opened g -> (i < created g)%nat;
  tally_order : ascending (focused_at g) (Desktop.windows (Desktop.dt s));
  tally_clock : forall i, i ∈ opened g -> (focused_at g i < clock g)%nat
}.

(** *** Concrete desktops used as examples *)

Definition run_or {A} (r : result A) (d : A) : A :=
  match r with
  | Ok a => a
  | Raise _ => d
  end.

(** Spawn a sketch pad, click back to the notes, close the sketch pad, spawn
    a game. *)
Definition demo_calls : list Call :=
  [CallSpawn "Sketch" Desktop.default_size; CallFocus 0; CallClose 1;
   CallSpawn "Snake" Desktop.default_size].

Definition demo_world : Desktop.world :=
  Eval vm_compute in run_or (calls demo_calls initial) initial.

(** A z-order list that names the same window twice (no run of the program
    produces one). *)
Definition doubled_world : Desktop.world := Desktop.set_windows [0; 0]%nat initial.

(** *** Scripts of user input *)

(** The time [ms] milliseconds after the epoch, as [time.time()] gives it. *)
Definition seconds (ms : Z) : float :=
  PrimFloat.div (PrimFloat.of_uint63 (Uint63.of_Z ms)) 1000%float.

(** The pointer is where the event says it is, no modifier key is held;
    the time is given in milliseconds. *)
Definition at_time (t : Z) (ev : Event) : Step :=
  let p := match ev with
           | MOUSEBUTTONDOWN _ p | MOUSEBUTTONUP _ p | MOUSEMOTION p => p
           | _ => (0, 0)
           end in
  StepEvent (mkEnv p false (seconds t)) ev.

Definition press (t : Z) (p : Pos) : Step := at_time t (MOUSEBUTTONDOWN 1 p).
Definition release (t : Z) (p : Pos) : Step := at_time t (MOUSEBUTTONUP 1 p).
Definition move (t : Z) (p : Pos) : Step := at_time t (MOUSEMOTION p).

(** The frame the geometry claim promises after a drag or a resize on a
    display of size [scr]. *)
Definition frame_as_claimed (scr : Z * Z) (r : Rect.t) : Prop :=
  MIN_W <= Rect.w r /\ MIN_H <= Rect.h r /\
  (* not entirely off-screen *)
  (Rect.x r < fst scr /\ 0 < Rect.right r /\
   Rect.y r < snd scr /\ 0 < Rect.bottom r) /\
  (* vertically clear of the task bar *)
  Rect.bottom r <= snd scr - TASKBAR_H.

(** The user shrinks the notes window to its minimum size by the grip,
    drags it by the title bar to x = 1055, and takes the grip again. *)
Definition shrink_and_push : list Step :=
  [ StepDraw;
    press 1000 (710, 530); move 1100 (0, 0); release 1200 (0, 0); StepDraw;
    press 2000 (190, 130); move 2100 (1065, 130); release 2200 (1065, 130);
    StepDraw;
    press 3000 (1265, 250) ].

Definition pushed_world : Desktop.world :=
  Eval vm_compute in run_or (boot shrink_and_push) initial.

Definition pushed_window : Window.t :=
  Eval vm_compute in default (Window.make (App.make NotesApp) "" (Rect.mk 0 0 0 0) 0)
                       (Desktop.heap pushed_world !! 0%nat).

(** The user takes the title bar of the notes window. *)
Definition grab_title : list Step := [ StepDraw; press 1000 (200, 130) ].

Definition grabbed_window : Window.t :=
  Eval vm_compute in default (Window.make (App.make NotesApp) "" (Rect.mk 0 0 0 0) 0)
                       (Desktop.heap (run_or (boot grab_title) initial) !! 0%nat).

(** *** Title-bar buttons *)



(** The notes window of the initial desktop, once drawn. *)
Definition drawn_window : Window.t :=
  Eval vm_compute in Window.drawn
    (default (Window.make (App.make NotesApp) "" (Rect.mk 0 0 0 0) 0)
             (Desktop.heap initial !! 0%nat)).

(** *** Well-formed desktops *)

(** The z-order names each window once, and only windows that exist. *)
Definition well_formed (s : Desktop.world) : Prop :=
  NoDup (Desktop.windows (Desktop.dt s)) /\
  forall win, win ∈ Desktop.windows (Desktop.dt s) ->
              (win < length (Desktop.heap s))%nat.

Definition all_minimized (s : Desktop.world) : Prop :=
  forall win o, win ∈ Desktop.windows (Desktop.dt s) ->
                Desktop.heap s !! win = Some o -> Window.minimized o = true.

(** A sleeping desktop shows no window. *)
Definition asleep_ok (s : Desktop.world) : Prop :=
  Desktop.sleeping (Desktop.dt s) = true -> all_minimized s.

(** [s'] comes from [s] by operations that call no window handler, do not
    touch the display, the [running] flag or the sleep mode, never delete a
    window object and keep the desktop well formed. *)
Record quiet (s s' : Desktop.world) : Prop := mkQuiet {
  quiet_screen : Desktop.screen s' = Desktop.screen s;
  quiet_running : Desktop.running s' = Desktop.running s;
  quiet_dispatched : Desktop.dispatched s' = Desktop.dispatched s;
  quiet_sleeping :
    Desktop.sleeping (Desktop.dt s') = Desktop.sleeping (Desktop.dt s);
  quiet_heap : (length (Desktop.heap s) <= length (Desktop.heap s'))%nat;
  quiet_wf : well_formed s -> well_formed s'
}.

(** The windows whose handler [Desktop.handle_event] calls on an event,
    lines 1047-1051: none while the desktop sleeps (line 967 returns) or
    when the click routing or the power dialog returns; otherwise the first
    window of [reversed(self.windows)] that is not minimized and contains
    the pointer, if there is one. *)
Definition forwarded (env : Env) (ev : Event) (s : Desktop.world) : list nat :=
  if Desktop.sleeping (Desktop.dt s) then []
  else
    match and_then (Desktop.route_click env ev s) (Desktop.power_dialog ev) with
    | Next _ =>
        match Desktop.top_hit (mouse env) s with
        | Some win => [win]
        | None => []
        end
    | _ => []
    end.

(** The state in which a stage of a handler leaves the desktop, when it
    falls through or returns. *)
Definition outcome (m : flow Desktop.world) (s' : Desktop.world) : Prop :=
  m = Next s' \/ m = Return s'.

(** [s'] comes from [s] by calls of window handlers: the desktop object is
    untouched, and each window object is still there, minimized or not as
    before. *)
Record handled (s s' : Desktop.world) : Prop := mkHandled {
  handled_dt : Desktop.dt s' = Desktop.dt s;
  handled_screen : Desktop.screen s' = Desktop.screen s;
  handled_running : Desktop.running s' = Desktop.running s;
  handled_length : length (Desktop.heap s') = length (Desktop.heap s);
  handled_minimized :
    forall win o', Desktop.heap s' !! win = Some o' ->
      exists o, Desktop.heap s !! win = Some o /\
                Window.minimized o' = Window.minimized o
}.

(** What one event does to the desktop, leaving the window handlers called
    by the main loop aside. *)
Definition before_forwarding (env : Env) (ev : Event) (s : Desktop.world)
  : result Desktop.world :=
  match ev with
  | QUIT => Ok (Desktop.set_running false s)
  | VIDEORESIZE w h => Ok (Desktop.set_screen (w, h) s)
  | _ => s' ← Desktop.handle_event env ev s; Ok (icon_drag ev s')
  end.

(** *** More scripts *)

(** The user drags the notes window over the start button. *)
Definition cover_start_button : list Step :=
  [ StepDraw; press 1000 (200, 130); move 1100 (20, 310);
    release 1200 (20, 310); StepDraw ].

Definition covered_world : Desktop.world :=
  Eval vm_compute in run_or (boot cover_start_button) initial.

(** A double click on the first icon opens a second notes window, which
    overlaps the first. *)
Definition open_second : list Step :=
  [ StepDraw; press 1000 (30, 30); release 1050 (30, 30);
    press 1100 (30, 30); release 1150 (30, 30); StepDraw ].

Definition two_world : Desktop.world :=
  Eval vm_compute in run_or (boot open_second) initial.

(** Two presses of the left button with no release in between (the second
    on the Sleep button of the power dialog) leave an icon mid-drag on a
    sleeping desktop. *)
Definition doze_mid_drag : list Step :=
  [ StepDraw; press 1000 (50, 690); release 1050 (50, 690); StepDraw;
    press 2000 (100, 646); release 2050 (100, 646); StepDraw;
    press 3000 (30, 30); press 4000 (700, 350) ].

Definition dozing_world : Desktop.world :=
  Eval vm_compute in run_or (boot doze_mid_drag) initial.

(** The same without the stray press: the desktop goes to sleep from the
    power dialog. *)
Definition doze : list Step :=
  [ StepDraw; press 1000 (50, 690); release 1050 (50, 690); StepDraw;
    press 2000 (100, 646); release 2050 (100, 646); StepDraw;
    press 4000 (700, 350); release 4050 (700, 350) ].

Definition asleep_world : Desktop.world :=
  Eval vm_compute in run_or (boot doze) initial.

(** Two windows, the lower one pulled to the right under the place of the
    Cancel button, then the power dialog opened from the start menu. *)
Definition dialog_over_windows : list Step :=
  open_second ++
  [ press 2000 (185, 125); move 2100 (385, 125); release 2200 (385, 125);
    StepDraw;
    press 3000 (300, 300); release 3050 (300, 300); StepDraw;
    press 4000 (50, 690); release 4050 (50, 690); StepDraw;
    press 5000 (100, 646); release 5050 (100, 646); StepDraw ].

Definition dialog_world : Desktop.world :=
  Eval vm_compute in run_or (boot dialog_over_windows) initial.

(** The first icon dropped where the power dialog shows Shutdown, then the
    power dialog opened. *)
Definition dialog_over_icon : list Step :=
  [ StepDraw; press 1000 (30, 30); move 1100 (470, 350);
    release 1200 (470, 350); StepDraw;
    press 4000 (50, 690); release 4050 (50, 690); StepDraw;
    press 5000 (100, 646); release 5050 (100, 646); StepDraw ].

Definition icon_dialog_world : Desktop.world :=
  Eval vm_compute in run_or (boot dialog_over_icon) initial.

(** The power dialog opened on the initial desktop. *)
Definition open_dialog : list Step :=
  [ StepDraw; press 1000 (50, 690); release 1050 (50, 690); StepDraw;
    press 2000 (100, 646); release 2050 (100, 646); StepDraw ].

Definition plain_dialog_world : Desktop.world :=
  Eval vm_compute in run_or (boot open_dialog) initial.


(** ** Further notions: the rest of the window manager *)

(** The z-order with one window taken out. *)
Definition without (win : nat) (l : list nat) : list nat :=
  filter (fun i => i ≠ win) l.

(** The first window of the list moved to the end. *)
Definition cycle (l : list nat) : list nat :=
  match l with
  | [] => []
  | w :: rest => rest ++ [w]
  end.

(** The same event handled once for each environment of the list. *)
Fixpoint handle_events (envs : list Env) (e : Event) (s : Desktop.world)
  : result Desktop.world :=
  match envs with
  | [] => Ok s
  | env :: rest => s' ← Desktop.handle_event env e s; handle_events rest e s'
  end.

(** *** What lies under the pointer *)

Definition on_start_button (m : Pos) (s : Desktop.world) : bool :=
  match Desktop.start_btn (Desktop.dt s) with
  | Some r => Rect.collidepoint r m
  | None => false
  end.

Definition on_icon (m : Pos) (s : Desktop.world) : bool :=
  match Desktop.find_icon m 0 (Desktop.icons (Desktop.dt s)) with
  | Some _ => true
  | None => false
  end.

Definition on_task_button (m : Pos) (s : Desktop.world) : bool :=
  match find (fun b => Rect.collidepoint (fst b) m)
             (default [] (Desktop.task_buttons (Desktop.dt s))) with
  | Some _ => true
  | None => false
  end.

(** A left-button press with the pointer at [m] gets as far as the windows:
    the desktop is awake, the start menu is closed, and neither the start
    button, nor an icon, nor a task-bar button is under the pointer. *)
Definition reaches_windows (m : Pos) (s : Desktop.world) : Prop :=
  Desktop.sleeping (Desktop.dt s) = false /\
  Desktop.start_open (Desktop.dt s) = false /\
  on_start_button m s = false /\
  on_icon m s = false /\
  on_task_button m s = false.

(** The title buttons of the window are those [draw] would lay out now. *)
Definition buttons_fresh (o : Window.t) : Prop :=
  Window._btns o = Window._btns (Window.drawn o).

(** [win.draw(surf)] can create its surfaces: the window is minimized
    (nothing is drawn), or the frame inflated by 12 has no negative side
    (line 196) and the application is not XL Drift with a content rectangle
    of negative width or height (line 744). *)
Definition paintable (o : Window.t) : bool :=
  Window.minimized o ||
  (0 <=? Rect.w (Window.rect o) + 12) && (0 <=? Rect.h (Window.rect o) + 12)
  && negb (App.draw_raises (Window.app o) (Window.content_rect o)).

(** The initial desktop after its first frame. *)
Definition drawn_world : Desktop.world :=
  Eval vm_compute in run_or (boot [StepDraw]) initial.

(** The initial desktop after a frame, a press on the start button and the
    next frame's events: the start menu is open. *)
Definition menu_open_world : Desktop.world :=
  Eval vm_compute in run_or (boot [StepDraw; press 0 (20, H - 30)]) initial.

(** Two windows drawn, then the upper one closed by its title button [x]:
    until the next frame the task bar still holds a button for it. *)
Definition stale_world : Desktop.world :=
  Eval vm_compute in run_or (boot (open_second ++ [press 2000 (690, 140)])) initial.

(** *** What a run can raise *)






(** ** The applications (lines 24-38 and 229-828)

    The window manager above only records which events an application
    receives.  The classes below are embedded on their own, with the state
    they share made explicit: the one [input_manager] of the program, the
    notes file, the [SETTINGS] dictionary. *)

(** Python [str]: a sequence of characters. *)
Definition str : Type := list Ascii.ascii.

(** An event with its [unicode] attribute (read on KEYDOWN events only). *)
Record Typed := mkTyped { typed_event : Event; typed_unicode : str }.

(** What a handler reads from the machine: [pygame.key.get_mods() & KMOD_CTRL],
    [time.time()] in milliseconds, and whether writing the notes file
    succeeds. *)
Record Host := mkHost { mods_ctrl : bool; time_ms : Z; can_write : bool }.

(** pygame key codes used by the applications. *)
Definition K_BACKSPACE : Z := 8.
Definition K_RETURN : Z := 13.
Definition K_r : Z := 114.
Definition K_s : Z := 115.
Definition K_t : Z := 116.
Definition K_RIGHT : Z := 1073741903.
Definition K_LEFT : Z := 1073741904.
Definition K_DOWN : Z := 1073741905.
Definition K_UP : Z := 1073741906.

(** Python slices [l[:i]] and [l[i:]]: a negative index counts from the
    end, an index out of range is clipped. *)
Definition slice_index (n : nat) (i : Z) : nat :=
  Z.to_nat (if i <? 0 then Z.max 0 (Z.of_nat n + i) else Z.min i (Z.of_nat n)).

Definition slice_to {A} (i : Z) (l : list A) : list A :=
  take (slice_index (length l) i) l.

Definition slice_from {A} (i : Z) (l : list A) : list A :=
  drop (slice_index (length l) i) l.

Definition len {A} (l : list A) : Z := Z.of_nat (length l).

(** *** InputManager (lines 24-38) *)

Module InputManager.
(** [self.keys_held] *)
Definition t : Type := gset Z.

Definition new : t := ∅.

(** [handle_event]: the new set of held keys and the string returned. *)
Definition handle_event (e : Typed) (keys_held : t) : t * str :=
  match typed_event e with
  | KEYDOWN key =>
      if bool_decide (key ∉ keys_held)
      then ({[key]} ∪ keys_held, typed_unicode e)
      else (keys_held, [])
  | KEYUP key =>
      if bool_decide (key ∈ keys_held)
      then (keys_held ∖ {[key]}, [])
      else (keys_held, [])
  | _ => (keys_held, [])
  end.

(** The strings returned for a sequence of events, and the final set. *)
Fixpoint run (es : list Typed) (keys_held : t) : t * list str :=
  match es with
  | [] => (keys_held, [])
  | e :: rest =>
      let '(k1, out) := handle_event e keys_held in
      let '(k2, outs) := run rest k1 in
      (k2, out :: outs)
  end.
End InputManager.

(** *** NotesApp (lines 235-279) *)

Module NotesApp.
Record t := mk { text : str; cursor : Z; last_save : Z }.

(** The application with the two things it shares with the rest of the
    program: the input manager and the notes file ([None]: no file). *)
Record world := mkWorld {
  app : t;
  input_manager : InputManager.t;
  notes_file : option str
}.

(** [read_notes()]: the empty string when the file cannot be read. *)
Definition read_notes (file : option str) : str := default [] file.

(** [save_notes(text)]: a failure is swallowed. *)
Definition save_notes (h : Host) (txt : str) (file : option str) : option str :=
  if can_write h then Some txt else file.

Definition new (h : Host) (file : option str) : t :=
  let txt := read_notes file in
  mk txt (len txt) (time_ms h).

(** The character ["\n"] (code 10). *)
Definition newline : Ascii.ascii :=
  Ascii.Ascii false true false true false false false false.

Definition handle_event (h : Host) (e : Typed) (w : world) : world :=
  let '(im, char) := InputManager.handle_event e (input_manager w) in
  let a := app w in
  let file := notes_file w in
  let '(a, file) :=
    match typed_event e with
    | KEYDOWN key =>
        if (key =? K_s) && mods_ctrl h then
          (mk (text a) (cursor a) (time_ms h), save_notes h (text a) file)
        else if key =? K_BACKSPACE then
          if 0 <? cursor a then
            (mk (slice_to (cursor a - 1) (text a) ++ slice_from (cursor a) (text a))
                (cursor a - 1) (last_save a), file)
          else (a, file)
        else if key =? K_RETURN then
          (mk (slice_to (cursor a) (text a) ++ [newline] ++ slice_from (cursor a) (text a))
              (cursor a + 1) (last_save a), file)
        else if key =? K_LEFT then
          (mk (text a) (Z.max 0 (cursor a - 1)) (last_save a), file)
        else if key =? K_RIGHT then
          (mk (text a) (Z.min (len (text a)) (cursor a + 1)) (last_save a), file)
        else
          match char with
          | [] => (a, file)
          | _ :: _ =>
              (mk (slice_to (cursor a) (text a) ++ char ++ slice_from (cursor a) (text a))
                  (cursor a + 1) (last_save a), file)
          end
    | _ => (a, file)
    end in
  (* autosave *)
  if 3000 <? time_ms h - last_save a
  then mkWorld (mk (text a) (cursor a) (time_ms h)) im (save_notes h (text a) file)
  else mkWorld a im file.

(** A session: the application is created, then handles the events. *)
Definition run (es : list (Host * Typed)) (w : world) : world :=
  foldl (fun w he => handle_event (fst he) (snd he) w) w es.
End NotesApp.

(** *** SettingsApp (lines 320-344) *)

Definition WALLPAPERS_len : Z := 5.

(** The dictionary [SETTINGS]. *)
Module SETTINGS.
Record t := mk { theme : string; wallpaper_index : Z }.

Definition initial : t := mk "Dark" 0.
End SETTINGS.

Module SettingsApp.
Record t := mk { theme : string; wall : Z }.

Definition new (g : SETTINGS.t) : t :=
  mk (SETTINGS.theme g) (SETTINGS.wallpaper_index g).

Definition handle_event (e : Event) (a : t) (g : SETTINGS.t) : t * SETTINGS.t :=
  match e with
  | KEYDOWN key =>
      if key =? K_t then
        (mk (if String.eqb (theme a) "Dark" then "Light" else "Dark") (wall a), g)
      else if key =? K_LEFT then
        (mk (theme a) ((wall a - 1) mod WALLPAPERS_len), g)
      else if key =? K_RIGHT then
        (mk (theme a) ((wall a + 1) mod WALLPAPERS_len), g)
      else if key =? K_RETURN then
        (a, SETTINGS.mk (theme a) (wall a))
      else (a, g)
  | _ => (a, g)
  end.

Definition run (es : list Event) (a : t) (g : SETTINGS.t) : t * SETTINGS.t :=
  foldl (fun ag e => handle_event e (fst ag) (snd ag)) (a, g) es.
End SettingsApp.

(** Exceptions the applications can raise. *)
Inductive AppExn :=
| ZeroDivisionError
| IndexError.

(** *** TTTApp (lines 513-573) *)

Module TTTApp.
Inductive Mark := X | O.

Definition Mark_eqb (p q : Mark) : bool :=
  match p, q with
  | X, X | O, O => true
  | _, _ => false
  end.

(** [self.stats] *)
Record Stats := mkStats { stat_X : Z; stat_O : Z; stat_Draw : Z }.

(** A cell of [self.board] holds [""] ([None] here), ["X"] or ["O"]. *)
Record t := mk { board : list (option Mark); turn : Mark; stats : Stats }.

Definition empty_board : list (option Mark) := replicate 9 None.

Definition new : t := mk empty_board X (mkStats 0 0 0).

Definition wins : list (nat * nat * nat) :=
  [(0, 1, 2); (3, 4, 5); (6, 7, 8); (0, 3, 6); (1, 4, 7); (2, 5, 8);
   (0, 4, 8); (2, 4, 6)]%nat.

(** [self.board[i] == p] *)
Definition holds (b : list (option Mark)) (p : Mark) (i : nat) : bool :=
  match b !! i with
  | Some (Some q) => Mark_eqb q p
  | _ => false
  end.

Definition _check (p : Mark) (b : list (option Mark)) : bool :=
  existsb (fun '(i, j, k) => holds b p i && holds b p j && holds b p k) wins.

(** [all(self.board)] *)
Definition full (b : list (option Mark)) : bool :=
  forallb (fun c => match c with Some _ => true | None => false end) b.

Definition _reset (a : t) : t := mk empty_board X (stats a).

Definition bump (p : Mark) (s : Stats) : Stats :=
  match p with
  | X => mkStats (stat_X s + 1) (stat_O s) (stat_Draw s)
  | O => mkStats (stat_X s) (stat_O s + 1) (stat_Draw s)
  end.

Definition bump_draw (s : Stats) : Stats :=
  mkStats (stat_X s) (stat_O s) (stat_Draw s + 1).

Definition other (p : Mark) : Mark := match p with X => O | O => X end.

(** The cell of the grid under [pos], when there is one
    (lines 521-528). *)
Definition cell_at (rect : Rect.t) (pos : Pos) : AppExn + option nat :=
  let size := Z.min (Rect.w rect) (Rect.h rect) - 36 in
  let cell := size / 3 in
  let ox := Rect.x rect + (Rect.w rect - size) / 2 in
  let oy := Rect.y rect + (Rect.h rect - size) / 2 in
  if cell =? 0 then inl ZeroDivisionError
  else
    let gx := (fst pos - ox) / cell in
    let gy := (snd pos - oy) / cell in
    if (0 <=? gx) && (gx <? 3) && (0 <=? gy) && (gy <? 3)
    then inr (Some (Z.to_nat (gy * 3 + gx)))
    else inr None.

(** The body of [if self.board[idx] == ""]. *)
Definition place (idx : nat) (a : t) : t :=
  let b := <[idx := Some (turn a)]> (board a) in
  if _check (turn a) b then _reset (mk b (turn a) (bump (turn a) (stats a)))
  else if full b then _reset (mk b (turn a) (bump_draw (stats a)))
  else mk b (other (turn a)) (stats a).

Definition click (rect : Rect.t) (pos : Pos) (a : t) : AppExn + t :=
  match cell_at rect pos with
  | inl x => inl x
  | inr None => inr a
  | inr (Some idx) =>
      match board a !! idx with
      | None => inl IndexError
      | Some None => inr (place idx a)
      | Some (Some _) => inr a
      end
  end.

Definition handle_event (e : Event) (rect : Rect.t) (a : t) : AppExn + t :=
  match e with
  | MOUSEBUTTONDOWN 1 pos =>
      if Rect.collidepoint rect pos then click rect pos a else inr a
  | KEYDOWN key => if key =? K_r then inr (_reset a) else inr a
  | _ => inr a
  end.

Fixpoint run (es : list (Event * Rect.t)) (a : t) : AppExn + t :=
  match es with
  | [] => inr a
  | (e, rect) :: rest =>
      match handle_event e rect a with
      | inl x => inl x
      | inr a' => run rest a'
      end
  end.

(** The number of cells holding [p]. *)
Fixpoint count (p : Mark) (b : list (option Mark)) : nat :=
  match b with
  | [] => 0
  | Some q :: rest => (if Mark_eqb q p then 1 else 0) + count p rest
  | None :: rest => count p rest
  end.
End TTTApp.

(** *** SnakeApp (lines 460-510) *)

Module SnakeApp.
Record t := mk {
  cell : Z;
  snake : list (Z * Z);
  dir : Z * Z;
  food : Z * Z;
  last : Z;
  speed : Z;          (* 0.12 s, in milliseconds *)
  alive : bool;
  score : Z
}.

Definition reset (h : Host) (a : t) : t :=
  mk (cell a) [(5, 5); (4, 5); (3, 5)] (1, 0) (10, 8) (time_ms h) 120 true 0.

Definition new (h : Host) : t :=
  reset h (mk 18 [] (0, 0) (0, 0) 0 0 false 0).

Definition pair_eqb (p q : Z * Z) : bool :=
  (fst p =? fst q) && (snd p =? snd q).

Definition set_dir (d : Z * Z) (a : t) : t :=
  mk (cell a) (snake a) d (food a) (last a) (speed a) (alive a) (score a).

Definition handle_event (h : Host) (e : Event) (a : t) : t :=
  match e with
  | KEYDOWN key =>
      let a := if (key =? K_UP) && negb (pair_eqb (dir a) (0, 1))
               then set_dir (0, -1) a else a in
      let a := if (key =? K_DOWN) && negb (pair_eqb (dir a) (0, -1))
               then set_dir (0, 1) a else a in
      let a := if (key =? K_LEFT) && negb (pair_eqb (dir a) (1, 0))
               then set_dir (-1, 0) a else a in
      let a := if (key =? K_RIGHT) && negb (pair_eqb (dir a) (-1, 0))
               then set_dir (1, 0) a else a in
      if key =? K_r then reset h a else a
  | _ => a
  end.

(** [head in self.snake] *)
Definition contains (p : Z * Z) (l : list (Z * Z)) : bool :=
  existsb (pair_eqb p) l.

(** [[(x,y) for x in range(cols) for y in range(rows) if (x,y) not in snake]] *)
Definition free_cells (cols rows : Z) (body : list (Z * Z)) : list (Z * Z) :=
  filter (fun p => contains p body = false)
    (flat_map (fun x => map (fun y => (x, y)) (seqZ 0 rows)) (seqZ 0 cols)).

(** [update(rect)]; [choice] stands for [random.choice]. *)
Definition update (h : Host) (choice : list (Z * Z) -> Z * Z) (rect : Rect.t)
  (a : t) : AppExn + t :=
  if negb (alive a) then inr a
  else if time_ms h - last a <? speed a then inr a
  else
    let cols := Z.max 3 (Rect.w rect / cell a) in
    let rows := Z.max 3 (Rect.h rect / cell a) in
    match snake a with
    | [] => inl IndexError
    | first :: _ =>
        let head := (fst first + fst (dir a), snd first + snd (dir a)) in
        if (fst head <? 0) || (snd head <? 0) || (cols <=? fst head)
           || (rows <=? snd head) || contains head (snake a)
        then inr (mk (cell a) (snake a) (dir a) (food a) (time_ms h) (speed a)
                     false (score a))
        else
          let body := head :: snake a in
          if pair_eqb head (food a) then
            let free := free_cells cols rows body in
            let f := match free with [] => (0, 0) | _ :: _ => choice free end in
            inr (mk (cell a) body (dir a) f (time_ms h) (speed a) true
                    (score a + 1))
          else
            inr (mk (cell a) (removelast body) (dir a) (food a) (time_ms h)
                    (speed a) true (score a))
    end.

(** [draw] changes the game through [self.update(rect.inflate(-6,-6))]. *)
Definition draw (h : Host) (choice : list (Z * Z) -> Z * Z) (rect : Rect.t)
  (a : t) : AppExn + t :=
  update h choice
    (Rect.mk (Rect.x rect + 3) (Rect.y rect + 3) (Rect.w rect - 6) (Rect.h rect - 6))
    a.

(** What happens to the game: a key event, or a frame drawn in [rect]. *)
Inductive Action :=
| Handle (h : Host) (e : Event)
| Draw (h : Host) (choice : list (Z * Z) -> Z * Z) (rect : Rect.t).

Definition act (x : Action) (a : t) : AppExn + t :=
  match x with
  | Handle h e => inr (handle_event h e a)
  | Draw h choice rect => draw h choice rect a
  end.

Fixpoint run (xs : list Action) (a : t) : AppExn + t :=
  match xs with
  | [] => inr a
  | x :: rest =>
      match act x a with
      | inl e => inl e
      | inr a' => run rest a'
      end
  end.

Definition unit_dir (d : Z * Z) : Prop :=
  d = (1, 0) \/ d = (-1, 0) \/ d = (0, 1) \/ d = (0, -1).
End SnakeApp.

(** *** ChatApp (lines 789-828) *)

Module ChatApp.
Record t := mk { messages : list (string * str); input_text : str }.

Definition new : t := mk [] [].

Section strip.
(** [str.strip] *)
Variable strip : str -> str.
Variable fake_response : str.

Definition handle_event (e : Typed) (a : t) : t :=
  match typed_event e with
  | KEYDOWN key =>
      if key =? K_BACKSPACE then mk (messages a) (slice_to (-1) (input_text a))
      else if key =? K_RETURN then
        match strip (input_text a) with
        | [] => a
        | _ :: _ =>
            mk (messages a ++ [("You"%string, strip (input_text a))]
                  ++ [("Bot"%string, fake_response)]) []
        end
      else mk (messages a) (input_text a ++ typed_unicode e)
  | _ => a
  end.

Definition run (es : list Typed) (a : t) : t :=
  foldl (fun a e => handle_event e a) a es.
End strip.
End ChatApp.

(** The cursor of the notes lies in the text. *)
Definition cursor_in_text (a : NotesApp.t) : Prop :=
  0 <= NotesApp.cursor a <= len (NotesApp.text a).

(** The keys that [NotesApp.handle_event] treats as commands. *)
Definition notes_command (h : Host) (key : Z) : bool :=
  ((key =? K_s) && mods_ctrl h) || (key =? K_BACKSPACE) || (key =? K_RETURN)
  || (key =? K_LEFT) || (key =? K_RIGHT).

(** A theme that [THEMES] knows and a wallpaper index that [WALLPAPERS]
    has. *)
Definition settings_ok (th : string) (i : Z) : Prop :=
  (th = "Dark"%string \/ th = "Light"%string) /\ 0 <= i < WALLPAPERS_len.

(** The game between two events: nine cells, no completed line, a free
    cell left, and the marks of the two players in step with the turn. *)
Record ttt_at_rest (a : TTTApp.t) : Prop := mkAtRest {
  rest_cells : length (TTTApp.board a) = 9%nat;
  rest_X : TTTApp._check TTTApp.X (TTTApp.board a) = false;
  rest_O : TTTApp._check TTTApp.O (TTTApp.board a) = false;
  rest_free : TTTApp.full (TTTApp.board a) = false;
  rest_turn :
    match TTTApp.turn a with
    | TTTApp.X => TTTApp.count TTTApp.X (TTTApp.board a)
                  = TTTApp.count TTTApp.O (TTTApp.board a)
    | TTTApp.O => TTTApp.count TTTApp.X (TTTApp.board a)
                  = S (TTTApp.count TTTApp.O (TTTApp.board a))
    end
}.

(** The snake has a head, crosses itself nowhere, is three cells longer
    than the score, and moves along an axis. *)
Record snake_ok (a : SnakeApp.t) : Prop := mkSnakeOk {
  snake_head : SnakeApp.snake a ≠ [];
  snake_nodup : NoDup (SnakeApp.snake a);
  snake_length : len (SnakeApp.snake a) = SnakeApp.score a + 3;
  snake_dir : SnakeApp.unit_dir (SnakeApp.dir a);
  snake_cell : SnakeApp.cell a = 18
}.


(** ** Basic facts about the embedding *)

Lemma init_initial : Desktop.__init__ = Ok initial.
Proof. reflexivity. Qed.

Section list_methods.
Implicit Types (l : list nat) (win : nat).

Lemma list_remove_None win l :
  Desktop.list_remove win l = None <-> win ∉ l.
Proof.
  induction l as [|v l IH]; simpl.
  - split; [intros _; apply not_elem_of_nil | done].
  - destruct (Nat.eqb_spec v win) as [->|Hne].
    + split; [done | intros Hn; exfalso; apply Hn; left].
    + destruct (Desktop.list_remove win l) eqn:E.
      * split; [done | intros Hn]. exfalso.
        assert (win ∉ l) as Hl by (intros ?; apply Hn; by right).
        apply IH in Hl. discriminate.
      * split; [intros _ | done].
        rewrite not_elem_of_cons. split; [congruence | by apply IH].
Qed.

Lemma list_remove_Some win l l' :
  Desktop.list_remove win l = Some l' ->
  exists l1 l2, l = l1 ++ win :: l2 ∧ l' = l1 ++ l2 ∧ win ∉ l1.
Proof.
  revert l'. induction l as [|v l IH]; simpl; intros l' Hr; [done|].
  destruct (Nat.eqb_spec v win) as [->|Hne].
  - exists [], l. inversion Hr; subst. split_and!; [done | done | apply not_elem_of_nil].
  - destruct (Desktop.list_remove win l) as [r|] eqn:E; [|done].
    destruct (IH r eq_refl) as (l1 & l2 & -> & -> & Hn).
    inversion Hr; subst. exists (v :: l1), l2.
    split_and!; [done | done |]. rewrite not_elem_of_cons. split; [congruence | done].
Qed.

Lemma list_contains_spec win l :
  Desktop.list_contains win l = true <-> win ∈ l.
Proof.
  unfold Desktop.list_contains. rewrite existsb_exists. split.
  - intros (x & Hin & Heq). apply Nat.eqb_eq in Heq. subst.
    by apply list_elem_of_In.
  - intros Hin. exists win. split; [by apply list_elem_of_In | apply Nat.eqb_refl].
Qed.

Lemma list_remove_elem win l :
  win ∈ l -> exists l', Desktop.list_remove win l = Some l'.
Proof.
  intros Hin. destruct (Desktop.list_remove win l) eqn:E; [eauto|].
  by apply list_remove_None in E.
Qed.
End list_methods.

Lemma close_absent (win : nat) (s : Desktop.world) :
  win ∉ Desktop.windows (Desktop.dt s) -> Desktop.close win s = s.
Proof.
  intros Hn. unfold Desktop.close.
  destruct (Desktop.list_contains win _) eqn:E; [|done].
  apply list_contains_spec in E. done.
Qed.

Lemma close_present (win : nat) (s : Desktop.world) :
  win ∈ Desktop.windows (Desktop.dt s) ->
  exists l1 l2, Desktop.windows (Desktop.dt s) = l1 ++ win :: l2 ∧ (win ∉ l1) ∧
    Desktop.close win s = Desktop.set_windows (l1 ++ l2) s.
Proof.
  intros Hin. unfold Desktop.close.
  destruct (Desktop.list_contains win _) eqn:E.
  - destruct (list_remove_elem _ _ Hin) as [l' Hl']. rewrite Hl'.
    destruct (list_remove_Some _ _ _ Hl') as (l1 & l2 & H1 & -> & H3). eauto.
  - exfalso. apply list_contains_spec in Hin. congruence.
Qed.

(** ** Focus order *)

Section ascending.
Implicit Types (f g : nat → nat) (l : list nat).

Lemma ascending_app f l1 l2 :
  ascending f (l1 ++ l2) ↔
  ascending f l1 ∧ ascending f l2 ∧
  (∀ a b, a ∈ l1 → b ∈ l2 → (f a < f b)%nat).
Proof.
  induction l1 as [|x l1 IH]; simpl.
  - split; [intros Ha; split_and!; [done | done |] | tauto].
    intros a b Hin. by apply not_elem_of_nil in Hin.
  - rewrite IH. split.
    + intros (Hx & H1 & H2 & H12). split_and!; [ | done | done | ].
      * intros b Hb. apply Hx. apply elem_of_app. by left.
      * intros a b [->|Ha]%elem_of_cons Hb; [|by apply H12].
        apply Hx. apply elem_of_app. by right.
    + intros ((Hx & H1) & H2 & H12). split_and!; [ | done | done | ].
      * intros b [Hb|Hb]%elem_of_app; [by apply Hx|].
        apply H12; [left | done].
      * intros a b Ha Hb. apply H12; [by right | done].
Qed.

Lemma ascending_ext f g l :
  (∀ i, i ∈ l → f i = g i) → ascending f l → ascending g l.
Proof.
  induction l as [|x l IH]; simpl; [done|].
  intros Hfg [Hx Hl]. split.
  - intros b Hb. rewrite <- !Hfg; [by apply Hx | by right | left].
  - apply IH; [|done]. intros i Hi. apply Hfg. by right.
Qed.

Lemma ascending_last f l top :
  ascending f l → last l = Some top →
  ∀ i, i ∈ l → (f i ≤ f top)%nat.
Proof.
  intros Ha [l' ->]%last_Some i Hi.
  apply ascending_app in Ha as (_ & _ & H12).
  apply elem_of_app in Hi as [Hi|Hi].
  - apply Nat.lt_le_incl, H12; [done | left].
  - apply list_elem_of_singleton in Hi. by subst.
Qed.
End ascending.

Lemma stamp_eq win t f : stamp win t f win = t.
Proof. unfold stamp. by rewrite Nat.eqb_refl. Qed.

Lemma stamp_ne win t f i : i ≠ win → stamp win t f i = f i.
Proof. unfold stamp. intros Hne. by destruct (Nat.eqb_spec i win). Qed.

(** ** spawn_window, focus and close *)

Lemma focus_empty win s :
  Desktop.windows (Desktop.dt s) = [] → Desktop.focus win s = Ok s.
Proof. intros Hl. unfold Desktop.focus. by rewrite Hl. Qed.

Lemma focus_top win s :
  last (Desktop.windows (Desktop.dt s)) = Some win → Desktop.focus win s = Ok s.
Proof. intros Hl. unfold Desktop.focus. by rewrite Hl, Nat.eqb_refl. Qed.

Lemma focus_below win top s :
  last (Desktop.windows (Desktop.dt s)) = Some top → top ≠ win →
  win ∈ Desktop.windows (Desktop.dt s) →
  ∃ l1 l2, Desktop.windows (Desktop.dt s) = l1 ++ win :: l2 ∧ (win ∉ l1) ∧
    Desktop.focus win s = Ok (Desktop.set_windows (l1 ++ l2 ++ [win]) s).
Proof.
  intros Hl Hne Hin. unfold Desktop.focus. rewrite Hl.
  destruct (Nat.eqb_spec top win) as [?|_]; [done|].
  destruct (list_remove_elem _ _ Hin) as [l' Hl']. rewrite Hl'.
  destruct (list_remove_Some _ _ _ Hl') as (l1 & l2 & H1 & -> & H3).
  exists l1, l2. by rewrite <- app_assoc.
Qed.

Lemma focus_absent win top s :
  last (Desktop.windows (Desktop.dt s)) = Some top → top ≠ win →
  win ∉ Desktop.windows (Desktop.dt s) →
  Desktop.focus win s = Raise ValueError.
Proof.
  intros Hl Hne Hin. unfold Desktop.focus. rewrite Hl.
  destruct (Nat.eqb_spec top win) as [?|_]; [done|].
  apply list_remove_None in Hin. by rewrite Hin.
Qed.

(** The state that [spawn_window] leaves with the new window [o]. *)
Lemma spawn_window_known app_name size cls a o s :
  assoc app_name APP_MAP = Some cls →
  App.new cls (Desktop.memory_json s) = Ok a →
  Window.new a (App.name a)
    (180 + Z.of_nat (length (Desktop.windows (Desktop.dt s))) * 16,
     120 + Z.of_nat (length (Desktop.windows (Desktop.dt s))) * 12,
     Z.max MIN_W (fst size), Z.max MIN_H (snd size))
    (length (Desktop.heap s)) = Ok o →
  Desktop.spawn_window app_name size s =
    Ok (Desktop.set_windows
          (Desktop.windows (Desktop.dt s) ++ [length (Desktop.heap s)])
          (Desktop.set_heap (Desktop.heap s ++ [o]) s)).
Proof.
  intros Hc Ha Ho. unfold Desktop.spawn_window, APP_MAP_getitem.
  rewrite Hc. simpl. rewrite Ha. simpl. rewrite Ho. simpl.
  rewrite focus_top; [done|]. simpl. apply last_snoc.
Qed.

Lemma spawn_window_unknown app_name size s :
  assoc app_name APP_MAP = None →
  Desktop.spawn_window app_name size s = Raise (KeyError app_name).
Proof.
  intros Hc. unfold Desktop.spawn_window, APP_MAP_getitem. by rewrite Hc.
Qed.

Lemma app_new_inv cls f a : App.new cls f = Ok a → a = App.make cls.
Proof. unfold App.new. repeat case_match; congruence. Qed.

Lemma window_new_inv a ttl r seq o :
  Window.new a ttl r seq = Ok o →
  ∃ r', Rect.from_tuple r = Some r' ∧ o = Window.make a ttl r' seq.
Proof. unfold Window.new. case_match; intros [= <-]; eauto. Qed.

(** A call of [spawn_window] that returns found the class in the registry,
    built an instance and a window, and appended the window. *)
Lemma spawn_window_inv app_name size s s' :
  Desktop.spawn_window app_name size s = Ok s' →
  ∃ cls r,
    assoc app_name APP_MAP = Some cls ∧
    App.new cls (Desktop.memory_json s) = Ok (App.make cls) ∧
    Rect.from_tuple
      (180 + Z.of_nat (length (Desktop.windows (Desktop.dt s))) * 16,
       120 + Z.of_nat (length (Desktop.windows (Desktop.dt s))) * 12,
       Z.max MIN_W (fst size), Z.max MIN_H (snd size)) = Some r ∧
    s' = Desktop.set_windows
           (Desktop.windows (Desktop.dt s) ++ [length (Desktop.heap s)])
           (Desktop.set_heap
              (Desktop.heap s ++
                 [Window.make (App.make cls) (class_name cls) r
                    (length (Desktop.heap s))]) s).
Proof.
  destruct (assoc app_name APP_MAP) as [cls|] eqn:E;
    [|by rewrite (spawn_window_unknown _ _ _ E)].
  destruct (App.new cls (Desktop.memory_json s)) as [a|x] eqn:Ea.
  2:{ unfold Desktop.spawn_window, APP_MAP_getitem. rewrite E. simpl.
      by rewrite Ea. }
  pose proof (app_new_inv _ _ _ Ea) as ->.
  destruct (Window.new (App.make cls) (App.name (App.make cls))
              (180 + Z.of_nat (length (Desktop.windows (Desktop.dt s))) * 16,
               120 + Z.of_nat (length (Desktop.windows (Desktop.dt s))) * 12,
               Z.max MIN_W (fst size), Z.max MIN_H (snd size))
              (length (Desktop.heap s))) as [o|x] eqn:Eo.
  2:{ unfold Desktop.spawn_window, APP_MAP_getitem. rewrite E. simpl.
      rewrite Ea. simpl. by rewrite Eo. }
  rewrite (spawn_window_known _ _ _ _ _ _ E Ea Eo). intros [= <-].
  destruct (window_new_inv _ _ _ _ _ Eo) as (r & Hr & ->).
  exists cls, r. done.
Qed.

(** ** The ledger is maintained by the three methods *)

Lemma tallies_initial : tallies initial ledger0.
Proof.
  split; simpl.
  - apply NoDup_singleton.
  - intros i. rewrite list_elem_of_singleton. set_solver.
  - done.
  - intros i Hi. assert (i = 0%nat) by set_solver. lia.
  - split; [|done]. intros b Hb. by apply not_elem_of_nil in Hb.
  - intros i Hi. lia.
Qed.

Lemma tallies_spawn app_name size s s' g :
  tallies s g → Desktop.spawn_window app_name size s = Ok s' →
  tallies s' (note g (CallSpawn app_name size)).
Proof.
  intros [Hnd Hop Hcr Hbd Hor Hck] Hs.
  destruct (spawn_window_inv _ _ _ _ Hs) as (cls & r & Hcls & _ & _ & ->). clear Hs.
  assert (created g ∉ opened g) as Hfresh.
  { intros Hin. apply Hbd in Hin. lia. }
  split; simpl.
  - apply NoDup_app. split_and!; [done | | apply NoDup_singleton].
    intros x Hx Hx'. apply list_elem_of_singleton in Hx'. subst x.
    apply Hop in Hx. rewrite <- Hcr in Hx. done.
  - intros i.
    rewrite elem_of_app, list_elem_of_singleton, Hop, <- Hcr, elem_of_union,
      elem_of_singleton.
    tauto.
  - rewrite length_app. simpl. lia.
  - intros i [Hi|Hi]%elem_of_union; [|apply Hbd in Hi; lia].
    apply elem_of_singleton in Hi. lia.
  - apply ascending_app. split_and!.
    + eapply ascending_ext; [|exact Hor]. intros i Hi. simpl.
      rewrite stamp_ne; [done|]. intros ->. by apply Hop in Hi.
    + simpl. split; [|done]. intros b Hb. by apply not_elem_of_nil in Hb.
    + intros a b Ha Hb. apply list_elem_of_singleton in Hb. subst b.
      rewrite <- Hcr, stamp_eq. rewrite stamp_ne.
      * apply Hck. by apply Hop.
      * intros ->. by apply Hop in Ha.
  - intros i [Hi|Hi]%elem_of_union.
    + apply elem_of_singleton in Hi. subst i. rewrite stamp_eq. lia.
    + rewrite stamp_ne; [|intros ->; done]. apply Hck in Hi. lia.
Qed.

Lemma tallies_focus win s s' g :
  tallies s g → Desktop.focus win s = Ok s' →
  tallies s' (note g (CallFocus win)).
Proof.
  intros [Hnd Hop Hcr Hbd Hor Hck] Hs.
  destruct (last (Desktop.windows (Desktop.dt s))) as [top|] eqn:Hl.
  2:{ (* no window at all *)
    apply last_None in Hl. rewrite (focus_empty _ _ Hl) in Hs.
    inversion Hs; subst s'; clear Hs.
    assert (win ∉ opened g) as Hn.
    { intros Hin. apply Hop in Hin. rewrite Hl in Hin. by apply not_elem_of_nil in Hin. }
    split; simpl; try done.
    - rewrite bool_decide_eq_false_2 by done. done.
    - rewrite bool_decide_eq_false_2 by done. intros i Hi. apply Hck in Hi. lia. }
  destruct (decide (top = win)) as [->|Hne].
  { (* already on top *)
    rewrite (focus_top _ _ Hl) in Hs. inversion Hs; subst s'; clear Hs.
    assert (win ∈ opened g) as Hin by (apply Hop; by apply last_Some_elem_of).
    split; simpl; try done.
    - rewrite bool_decide_eq_true_2 by done.
      apply last_Some in Hl as [l' Hl]. rewrite Hl in *.
      apply NoDup_app in Hnd as (_ & Hdisj & _).
      apply ascending_app in Hor as (H1 & H2 & H12).
      apply ascending_app. split_and!.
      + eapply ascending_ext; [|exact H1]. intros i Hi.
        rewrite stamp_ne; [done|]. intros ->. apply (Hdisj _ Hi). left.
      + simpl. split; [|done]. intros b Hb. by apply not_elem_of_nil in Hb.
      + intros a b Ha Hb. apply list_elem_of_singleton in Hb. subst b.
        rewrite stamp_eq, stamp_ne.
        * apply Hck, Hop. apply elem_of_app. by left.
        * intros ->. apply (Hdisj _ Ha). left.
    - rewrite bool_decide_eq_true_2 by done. intros i Hi.
      destruct (decide (i = win)) as [->|Hd].
      + rewrite stamp_eq. lia.
      + rewrite stamp_ne by done. apply Hck in Hi. lia. }
  destruct (decide (win ∈ Desktop.windows (Desktop.dt s))) as [Hin|Hin].
  2:{ by rewrite (focus_absent _ _ _ Hl Hne Hin) in Hs. }
  destruct (focus_below _ _ _ Hl Hne Hin) as (l1 & l2 & Hw & Hn1 & Hf).
  rewrite Hf in Hs. inversion Hs; subst s'; clear Hs Hf.
  assert (win ∈ opened g) as Hino by (by apply Hop).
  rewrite Hw in *.
  apply NoDup_app in Hnd as (Hnd1 & Hdisj & Hnd2).
  apply NoDup_cons in Hnd2 as [Hn2 Hnd2].
  apply ascending_app in Hor as (H1 & [Hw2 H2] & H12).
  split; simpl.
  - apply NoDup_app. split_and!; [done | |].
    + intros x Hx [Hx'|Hx']%elem_of_app.
      * apply (Hdisj _ Hx). by right.
      * apply list_elem_of_singleton in Hx'. subst x. done.
    + apply NoDup_app. split_and!; [done | | apply NoDup_singleton].
      intros x Hx Hx'. apply list_elem_of_singleton in Hx'. by subst x.
  - intros i. rewrite <- Hop.
    rewrite !elem_of_app, !elem_of_cons, elem_of_nil. tauto.
  - done.
  - done.
  - rewrite bool_decide_eq_true_2 by done.
    assert (∀ i, i ∈ l1 ++ l2 → stamp win (clock g) (focused_at g) i = focused_at g i) as Hst.
    { intros i Hi. apply stamp_ne. intros ->.
      apply elem_of_app in Hi as [Hi|Hi]; done. }
    rewrite app_assoc. apply ascending_app. split_and!.
    + eapply ascending_ext; [intros i Hi; symmetry; by apply Hst|].
      apply ascending_app. split_and!; [done | done |].
      intros a b Ha Hb. apply H12; [done | by right].
    + simpl. split; [|done]. intros b Hb. by apply not_elem_of_nil in Hb.
    + intros a b Ha Hb. apply list_elem_of_singleton in Hb. subst b.
      rewrite stamp_eq, Hst by done. apply Hck, Hop.
      rewrite !elem_of_app, elem_of_cons. apply elem_of_app in Ha. tauto.
  - rewrite bool_decide_eq_true_2 by done. intros i Hi.
    destruct (decide (i = win)) as [->|Hd].
    + rewrite stamp_eq. lia.
    + rewrite stamp_ne by done. apply Hck in Hi. lia.
Qed.

Lemma tallies_close win s g :
  tallies s g → tallies (Desktop.close win s) (note g (CallClose win)).
Proof.
  intros [Hnd Hop Hcr Hbd Hor Hck].
  assert (∀ i, i ∈ opened g ∖ {[win]} → (i < created g)%nat) as Hbd'.
  { intros i [Hi _]%elem_of_difference. by apply Hbd. }
  assert (∀ i, i ∈ opened g ∖ {[win]} → (focused_at g i < S (clock g))%nat) as Hck'.
  { intros i [Hi _]%elem_of_difference. apply Hck in Hi. lia. }
  destruct (decide (win ∈ Desktop.windows (Desktop.dt s))) as [Hin|Hin].
  - destruct (close_present _ _ Hin) as (l1 & l2 & Hw & Hn1 & ->).
    rewrite Hw in *.
    apply NoDup_app in Hnd as (Hnd1 & Hdisj & Hnd2).
    apply NoDup_cons in Hnd2 as [Hn2 Hnd2].
    apply ascending_app in Hor as (H1 & [Hw2 H2] & H12).
    split; simpl; [ | | done | done | | done].
    + apply NoDup_app. split_and!; [done | | done].
      intros x Hx Hx'. apply (Hdisj _ Hx). by right.
    + intros i. rewrite elem_of_difference, <- Hop, elem_of_singleton.
      rewrite !elem_of_app, elem_of_cons. split.
      * intros [Hi|Hi]; (split; [tauto | intros ->; done]).
      * intros [[Hi|[Hi|Hi]] Hd]; tauto.
    + apply ascending_app. split_and!; [done | done |].
      intros a b Ha Hb. apply H12; [done | by right].
  - rewrite (close_absent _ _ Hin). split; simpl; [done | | done | done | done | done].
    intros i. rewrite Hop, elem_of_difference, elem_of_singleton. split; [|tauto].
    intros Hi. split; [done|]. intros ->. by apply Hop in Hi.
Qed.

Lemma tallies_calls cs s s' g :
  tallies s g → calls cs s = Ok s' → tallies s' (foldl note g cs).
Proof.
  revert s g. induction cs as [|c cs IH]; simpl; intros s g Ht Hc.
  - by inversion Hc; subst.
  - destruct (call c s) as [s1|e] eqn:E; simpl in Hc; [|done].
    apply (IH s1); [|done].
    destruct c as [app_name size|win|win]; simpl in E.
    + by eapply tallies_spawn.
    + by eapply tallies_focus.
    + inversion E; subst. by apply tallies_close.
Qed.

(** The only calls that raise: spawning an application that is not
    registered, or whose constructor raises, or with a frame that is no
    [Rect], and focusing a window that is not in a non-empty z-order.  All
    raise before anything is changed. *)
Lemma call_raises c s x :
  call c s = Raise x →
  (∃ app_name size, c = CallSpawn app_name size ∧
     (assoc app_name APP_MAP = None ∧ x = KeyError app_name ∨
      ∃ cls, assoc app_name APP_MAP = Some cls ∧
             (App.new cls (Desktop.memory_json s) = Raise x ∨ x = TypeError))) ∨
  (∃ win, c = CallFocus win ∧ (win ∉ Desktop.windows (Desktop.dt s)) ∧
     Desktop.windows (Desktop.dt s) ≠ [] ∧ x = ValueError).
Proof.
  destruct c as [app_name size|win|win]; simpl; [| |done].
  - intros Hs. left. exists app_name, size. split; [done|]. revert Hs.
    destruct (assoc app_name APP_MAP) as [cls|] eqn:E.
    + intros Hs. right. exists cls. split; [done|]. revert Hs.
      unfold Desktop.spawn_window, APP_MAP_getitem. rewrite E. simpl.
      destruct (App.new cls _) as [a|y]; simpl; [|intros [= <-]; by left].
      unfold Window.new. destruct (Rect.from_tuple _); simpl.
      * rewrite focus_top; [done|]. simpl. apply last_snoc.
      * intros [= <-]. by right.
    + rewrite (spawn_window_unknown _ _ _ E). intros [= <-]. left. eauto.
  - unfold Desktop.focus.
    destruct (last _) as [top|] eqn:Hl; [|done].
    destruct (Nat.eqb top win); [done|].
    destruct (Desktop.list_remove win _) eqn:Hr; [done|].
    intros [= <-]. right. exists win. split_and!; [done | | | done].
    + by apply list_remove_None.
    + intros Hn. by rewrite Hn in Hl.
Qed.

(** C1 (z-order invariant).  After any sequence of [spawn_window], [focus]
    and [close] calls issued on the initial desktop (none of which raised),
    [Desktop.windows] has no duplicate, holds exactly the windows that are
    open according to the calls (created and not closed since), and its last
    element is the open window that was focused most recently. *)
Theorem zorder_invariant (cs : list Call) (s : Desktop.world) :
  calls cs initial = Ok s →
  NoDup (Desktop.windows (Desktop.dt s)) ∧
  (∀ i, i ∈ Desktop.windows (Desktop.dt s) ↔ i ∈ opened (ledger cs)) ∧
  (∀ top, last (Desktop.windows (Desktop.dt s)) = Some top →
     ∀ i, i ∈ opened (ledger cs) →
       (focused_at (ledger cs) i ≤ focused_at (ledger cs) top)%nat).
Proof.
  intros Hc.
  destruct (tallies_calls _ _ _ _ tallies_initial Hc) as [Hnd Hop _ _ Hor _].
  split_and!; [done | done |].
  intros top Hl i Hi. eapply ascending_last; [done | done |]. by apply Hop.
Qed.

Lemma zorder_invariant_witness :
  calls demo_calls initial = Ok demo_world ∧
  NoDup (Desktop.windows (Desktop.dt demo_world)) ∧
  (∀ i, i ∈ Desktop.windows (Desktop.dt demo_world) ↔ i ∈ opened (ledger demo_calls)) ∧
  (∀ top, last (Desktop.windows (Desktop.dt demo_world)) = Some top →
     ∀ i, i ∈ opened (ledger demo_calls) →
       (focused_at (ledger demo_calls) i ≤ focused_at (ledger demo_calls) top)%nat).
Proof.
  split; [reflexivity|].
  apply (zorder_invariant demo_calls demo_world). reflexivity.
Defined.

Example demo_world_zorder : Desktop.windows (Desktop.dt demo_world) = [0; 2]%nat.
Proof. reflexivity. Qed.

(** ** Closing *)

(** C10.  Closing a window that is not in the z-order changes nothing at
    all; and on a z-order without duplicates (which is the case of every
    z-order the three methods produce, see C1) closing the same window a
    second time changes nothing more. *)
Theorem close_idempotent (win : nat) (s : Desktop.world) :
  (win ∉ Desktop.windows (Desktop.dt s) → Desktop.close win s = s) ∧
  (NoDup (Desktop.windows (Desktop.dt s)) →
   Desktop.close win (Desktop.close win s) = Desktop.close win s).
Proof.
  split; [apply close_absent|]. intros Hnd.
  destruct (decide (win ∈ Desktop.windows (Desktop.dt s))) as [Hin|Hin].
  - destruct (close_present _ _ Hin) as (l1 & l2 & Hw & Hn1 & ->).
    apply close_absent. simpl. rewrite Hw in Hnd.
    apply NoDup_app in Hnd as (_ & _ & [Hn2 _]%NoDup_cons).
    rewrite elem_of_app. tauto.
  - rewrite (close_absent _ _ Hin). by apply close_absent.
Qed.

Lemma close_idempotent_witness :
  ((7%nat ∉ Desktop.windows (Desktop.dt demo_world)) ∧
   Desktop.close 7 demo_world = demo_world) ∧
  (NoDup (Desktop.windows (Desktop.dt demo_world)) ∧
   Desktop.close 2 (Desktop.close 2 demo_world) = Desktop.close 2 demo_world).
Proof.
  pose proof (close_idempotent 7 demo_world) as [H7 _].
  pose proof (close_idempotent 2 demo_world) as [_ H2].
  assert (7%nat ∉ Desktop.windows (Desktop.dt demo_world)) as Hn.
  { apply (bool_decide_unpack _). vm_compute. exact I. }
  assert (NoDup (Desktop.windows (Desktop.dt demo_world))) as Hd.
  { apply (bool_decide_unpack _). vm_compute. exact I. }
  exact (conj (conj Hn (H7 Hn)) (conj Hd (H2 Hd))).
Defined.

(** [list.remove] drops one occurrence only: with a duplicate in the list
    the second [close] would still find the window. *)
Example close_twice_on_duplicates :
  Desktop.close 0 (Desktop.close 0 doubled_world) ≠ Desktop.close 0 doubled_world.
Proof. discriminate. Qed.

(** ** Maximize *)

Lemma toggle_maximize_normal scr o :
  Window.maximized o = false →
  Desktop.toggle_maximize scr o =
    Window.set_maximized true
      (Window.set_rect (Rect.mk 8 8 (fst scr - 16) (snd scr - TASKBAR_H - 16))
         (Window.set_pre_max_rect (PreOwn (Window.rect o)) o)).
Proof.
  intros Hm. unfold Desktop.toggle_maximize. rewrite Hm. by destruct scr.
Qed.

(** C5 (maximize round trip).  On a window that is not maximized, the
    maximize toggle applied twice brings back exactly the frame the window
    had, and the window is again not maximized; no other attribute of the
    window changes on the way (the display may even be resized between the
    two toggles). *)
Theorem maximize_round_trip (scr1 scr2 : Z * Z) (o : Window.t) :
  Window.maximized o = false →
  let o2 := Desktop.toggle_maximize scr2 (Desktop.toggle_maximize scr1 o) in
  Window.rect o2 = Window.rect o ∧
  Window.maximized o2 = false ∧
  Window.minimized o2 = Window.minimized o ∧
  Window.app o2 = Window.app o ∧
  Window.dragging o2 = Window.dragging o ∧
  Window.resizing o2 = Window.resizing o ∧
  Window._btns o2 = Window._btns o.
Proof.
  intros Hm. rewrite (toggle_maximize_normal scr1 o Hm). by destruct o.
Qed.

Lemma maximize_round_trip_witness :
  ∃ o, Desktop.heap initial !! 0%nat = Some o ∧
       Window.maximized o = false ∧
       Window.rect (Desktop.toggle_maximize (W, H) (Desktop.toggle_maximize (W, H) o))
         = Rect.mk 180 120 540 420.
Proof.
  eexists. split; [reflexivity|]. split; [reflexivity|].
  refine (proj1 (maximize_round_trip (W, H) (W, H) _ _)). reflexivity.
Defined.

(** ** The registry *)

Lemma assoc_None {A} (k : string) (m : list (string * A)) :
  assoc k m = None ↔ k ∉ map fst m.
Proof.
  induction m as [|[k' v] m IH]; simpl.
  - split; [intros _; apply not_elem_of_nil | done].
  - rewrite not_elem_of_cons. destruct (String.eqb_spec k k') as [->|Hne].
    + split; [done | tauto].
    + rewrite IH. tauto.
Qed.

(** C8 as stated fails on the code for a name of the registry: the
    constructor runs inside [spawn_window], and [Finder.__init__] loads
    [memory.json] without a [try].  With a file that is not JSON,
    [spawn_window("Finder")] raises and creates no window; a double click on
    the Finder icon ends the program that way. *)
Lemma spawn_window_registry_counterexample :
  "Finder"%string ∈ map fst APP_MAP ∧
  Desktop.spawn_window "Finder" Desktop.default_size
    (Desktop.set_memory_json Malformed initial) = Raise JSONDecodeError ∧
  boot [StepFile Malformed; StepDraw; press 1000 (30, 300);
        release 1050 (30, 300); press 1100 (30, 300)] = Raise JSONDecodeError.
Proof.
  split; [|split; vm_compute; reflexivity].
  apply (bool_decide_unpack _). vm_compute. exact I.
Qed.

(** C8, as the code has it.  [spawn_window] raises [KeyError] for every
    name that is not a key of the registry.  For a key it calls the
    constructor of the registered class, which raises only for [Finder]
    and a [memory.json] that [load_notes] cannot load, and then builds the
    window, which raises [TypeError] only for a frame that [pygame.Rect]
    refuses; an exception leaves no trace on the desktop.  Otherwise the
    fresh instance is hosted by a new window, which becomes the last
    element of the z-order. *)
Theorem spawn_window_registry (app_name : string) (size : Z * Z)
  (s : Desktop.world) :
  (app_name ∉ map fst APP_MAP →
   Desktop.spawn_window app_name size s = Raise (KeyError app_name)) ∧
  (app_name ∈ map fst APP_MAP →
   ∃ cls,
     assoc app_name APP_MAP = Some cls ∧
     match App.new cls (Desktop.memory_json s) with
     | Raise x =>
         cls = Finder ∧ App.load_notes (Desktop.memory_json s) = Some x ∧
         Desktop.spawn_window app_name size s = Raise x
     | Ok a =>
         a = App.make cls ∧
         (cls = Finder → App.load_notes (Desktop.memory_json s) = None) ∧
         match Rect.from_tuple
                 (180 + Z.of_nat (length (Desktop.windows (Desktop.dt s))) * 16,
                  120 + Z.of_nat (length (Desktop.windows (Desktop.dt s))) * 12,
                  Z.max MIN_W (fst size), Z.max MIN_H (snd size)) with
         | None => Desktop.spawn_window app_name size s = Raise TypeError
         | Some r =>
             ∃ o s',
               Desktop.spawn_window app_name size s = Ok s' ∧
               Desktop.heap s' = Desktop.heap s ++ [o] ∧
               Desktop.windows (Desktop.dt s') =
                 Desktop.windows (Desktop.dt s) ++ [length (Desktop.heap s)] ∧
               Window.app o = a ∧
               Window.rect o = r ∧
               Window.z o = length (Desktop.heap s) ∧
               Window.minimized o = false
         end
     end).
Proof.
  split.
  - intros Hn. apply spawn_window_unknown. by apply assoc_None.
  - intros Hin. destruct (assoc app_name APP_MAP) as [cls|] eqn:E;
      [|by apply assoc_None in E].
    exists cls. split; [done|].
    destruct (App.new cls (Desktop.memory_json s)) as [a|x] eqn:Ea.
    + split; [by eapply app_new_inv|]. split.
      { intros ->. revert Ea. unfold App.new. by destruct (App.load_notes _). }
      destruct (Rect.from_tuple _) as [r|] eqn:Er.
      * eexists _, _. split.
        { eapply spawn_window_known; [done | done |].
          unfold Window.new. by rewrite Er. }
        by simpl.
      * unfold Desktop.spawn_window, APP_MAP_getitem. rewrite E. simpl.
        rewrite Ea. simpl. unfold Window.new. by rewrite Er.
    + assert (Desktop.spawn_window app_name size s = Raise x) as Hs.
      { unfold Desktop.spawn_window, APP_MAP_getitem. rewrite E. simpl.
        by rewrite Ea. }
      split_and!; [| |done]; revert Ea; unfold App.new;
        destruct cls; try done; destruct (App.load_notes _); try done.
      by intros [= ->].
Qed.

Lemma spawn_window_registry_witness :
  (("Paint"%string ∉ map fst APP_MAP) ∧
   Desktop.spawn_window "Paint" Desktop.default_size initial
     = Raise (KeyError "Paint")) ∧
  ("Snake"%string ∈ map fst APP_MAP ∧
   ∃ o s',
     Desktop.spawn_window "Snake" Desktop.default_size initial = Ok s' ∧
     Desktop.heap s' = Desktop.heap initial ++ [o] ∧
     Desktop.windows (Desktop.dt s') =
       Desktop.windows (Desktop.dt initial) ++ [length (Desktop.heap initial)] ∧
     Window.app o = App.make SnakeApp ∧
     Window.rect o = Rect.mk 196 132 520 360 ∧
     Window.z o = length (Desktop.heap initial) ∧
     Window.minimized o = false).
Proof.
  pose proof (spawn_window_registry "Paint" Desktop.default_size initial) as [Hp _].
  pose proof (spawn_window_registry "Snake" Desktop.default_size initial) as [_ Hs].
  assert ("Paint"%string ∉ map fst APP_MAP) as Hn.
  { apply (bool_decide_unpack _). vm_compute. exact I. }
  assert ("Snake"%string ∈ map fst APP_MAP) as Hi.
  { apply (bool_decide_unpack _). vm_compute. exact I. }
  split; [exact (conj Hn (Hp Hn))|]. split; [exact Hi|].
  destruct (Hs Hi) as (cls & Hc & Hrest).
  assert (cls = SnakeApp) as -> by (vm_compute in Hc; congruence).
  exact (proj2 (proj2 Hrest)).
Defined.

(** ** Geometry of drag and resize *)

Example pushed_world_reached : boot shrink_and_push = Ok pushed_world.
Proof. vm_compute. reflexivity. Qed.

Example pushed_window_reached :
  Desktop.heap pushed_world !! 0%nat = Some pushed_window ∧
  Window.rect pushed_window = Rect.mk 1055 120 220 140 ∧
  Window.resizing pushed_window = true ∧
  Window.dragging pushed_window = false.
Proof. vm_compute. done. Qed.

Example grabbed_window_reached :
  (s ← boot grab_title; Ok (Desktop.heap s !! 0%nat)) = Ok (Some grabbed_window) ∧
  Window.rect grabbed_window = Rect.mk 180 120 540 420 ∧
  Window.dragging grabbed_window = true ∧
  Window.resizing grabbed_window = false.
Proof. vm_compute. done. Qed.

(** C2 as stated fails on the code in two ways.  Resizing a window whose
    origin is closer than MIN_W + 10 to the right edge of the display makes
    it narrower than MIN_W (here 215 instead of 220): the bound of the
    display is applied after the minimum.  Dragging keeps the title bar
    above the task bar, not the frame: the notes window pulled down ends
    with its lower part under the task bar. *)
Lemma geometry_clamp_counterexample :
  (∃ o', Window.handle_event (W, H) (MOUSEMOTION (1270, 255)) pushed_window
           = Ok (o', None) ∧
         Rect.w (Window.rect o') = 215 ∧
         ¬ frame_as_claimed (W, H) (Window.rect o')) ∧
  (∃ o', Window.handle_event (W, H) (MOUSEMOTION (200, 700)) grabbed_window
           = Ok (o', None) ∧
         Window.rect o' = Rect.mk 180 644 540 420 ∧
         ¬ frame_as_claimed (W, H) (Window.rect o')).
Proof.
  split; eexists; (split; [vm_compute; reflexivity|]); (split; [reflexivity|]).
  - intros (Hw & _). vm_compute in Hw. by apply Hw.
  - intros (_ & _ & _ & Hb). vm_compute in Hb. by apply Hb.
Qed.

Lemma handle_event_motion scr pos o :
  Window.minimized o = false →
  Window.handle_event scr (MOUSEMOTION pos) o =
    Ok (Window.forward_to_app (MOUSEMOTION pos)
          (let o1 := if Window.dragging o then Window.drag_to scr pos o else o in
           if Window.resizing o1 then Window.resize_to scr pos o1 else o1),
        None).
Proof. intros Hm. unfold Window.handle_event. by rewrite Hm. Qed.

Lemma forward_to_app_rect e o :
  Window.rect (Window.forward_to_app e o) = Window.rect o.
Proof. unfold Window.forward_to_app. by destruct (negb _). Qed.

(** C2, as the code has it.  A pointer motion to [(px, py)], wherever that
    is, leaves a non-minimized window with frame [(x, y, w, h)] and drag
    offset [(ox, oy)] with a frame [(x', y', w', h')] such that:
    - when the window is being dragged,
      [x' = max (60 - w) (min (px - ox) (sw - 60))] and
      [y' = max 0 (min (py - oy) (sh - TASKBAR_H - TITLEBAR_H))].  Hence
      [60 <= x' + w], with [w] the width before the motion, and the right
      edge of the new frame is at least 60 when the window is not also
      being resized; [x' <= sw - 60] if and only if [120 <= w + sw];
      [0 <= y']; and the title bar ends above the task bar,
      [y' + TITLEBAR_H <= sh - TASKBAR_H], if and only if the display has
      room for both, [TASKBAR_H + TITLEBAR_H <= sh].  The lower part of the
      frame may lie under the task bar;
    - when the window is not being dragged, the origin is unchanged;
    - when the window is being resized,
      [w' = min (max MIN_W (px - x')) (sw - x' - 10)] and
      [h' = min (max MIN_H (py - y')) (sh - TASKBAR_H - y' - 10)], from the
      origin after the drag step.  Hence the right edge is at most
      [sw - 10] and the bottom edge at most [sh - TASKBAR_H - 10], clear of
      the task bar, and [MIN_W <= w'] ([MIN_H <= h']) if and only if the
      origin leaves that much room, [x' + MIN_W <= sw - 10]
      ([y' + MIN_H <= sh - TASKBAR_H - 10]);
    - when the window is not being resized, the size is unchanged. *)
Theorem geometry_clamp (sw sh : Z) (pos : Pos) (o o' : Window.t)
  (ret : option string) :
  Window.minimized o = false →
  Window.handle_event (sw, sh) (MOUSEMOTION pos) o = Ok (o', ret) →
  let r := Window.rect o in
  let r' := Window.rect o' in
  (Window.dragging o = true →
     Rect.x r' =
       Z.max (60 - Rect.w r)
         (Z.min (fst pos - fst (Window.drag_offset o)) (sw - 60)) ∧
     Rect.y r' =
       Z.max 0 (Z.min (snd pos - snd (Window.drag_offset o))
                  (sh - TASKBAR_H - TITLEBAR_H)) ∧
     60 <= Rect.x r' + Rect.w r ∧
     (Window.resizing o = false → 60 <= Rect.right r') ∧
     (Rect.x r' <= sw - 60 ↔ 120 <= Rect.w r + sw) ∧
     0 <= Rect.y r' ∧
     (Rect.y r' + TITLEBAR_H <= sh - TASKBAR_H ↔ TASKBAR_H + TITLEBAR_H <= sh)) ∧
  (Window.dragging o = false → Rect.x r' = Rect.x r ∧ Rect.y r' = Rect.y r) ∧
  (Window.resizing o = true →
     Rect.w r' = Z.min (Z.max MIN_W (fst pos - Rect.x r')) (sw - Rect.x r' - 10) ∧
     Rect.h r' =
       Z.min (Z.max MIN_H (snd pos - Rect.y r')) (sh - TASKBAR_H - Rect.y r' - 10) ∧
     Rect.right r' <= sw - 10 ∧
     Rect.bottom r' <= sh - TASKBAR_H - 10 ∧
     (MIN_W <= Rect.w r' ↔ Rect.x r' + MIN_W <= sw - 10) ∧
     (MIN_H <= Rect.h r' ↔ Rect.y r' + MIN_H <= sh - TASKBAR_H - 10)) ∧
  (Window.resizing o = false → Rect.w r' = Rect.w r ∧ Rect.h r' = Rect.h r).
Proof.
  intros Hm He. rewrite (handle_event_motion _ _ _ Hm) in He.
  inversion He; subst o' ret; clear He. simpl.
  rewrite forward_to_app_rect.
  unfold Rect.right, Rect.bottom, TASKBAR_H, TITLEBAR_H, MIN_W, MIN_H.
  destruct (Window.dragging o) eqn:Hd, (Window.resizing o) eqn:Hr; simpl;
    rewrite ?Hr; simpl; split_and!; intros; try done; lia.
Qed.

Lemma geometry_clamp_witness :
  ∃ o',
    Window.minimized grabbed_window = false ∧
    Window.handle_event (W, H) (MOUSEMOTION (-5000, 9000)) grabbed_window
      = Ok (o', None) ∧
    Window.rect o' = Rect.mk (-480) 644 540 420 ∧
    Window.dragging grabbed_window = true ∧
    Window.resizing grabbed_window = false ∧
    60 <= Rect.right (Window.rect o') ∧
    Rect.w (Window.rect o') = Rect.w (Window.rect grabbed_window) ∧
    Rect.h (Window.rect o') = Rect.h (Window.rect grabbed_window).
Proof.
  eexists. split; [reflexivity|]. split; [vm_compute; reflexivity|].
  split; [reflexivity|]. split; [reflexivity|]. split; [reflexivity|].
  pose proof (geometry_clamp W H (-5000, 9000) grabbed_window _ None eq_refl
                ltac:(vm_compute; reflexivity)) as (Hd & _ & _ & Hr).
  split; [|exact (Hr eq_refl)].
  exact (proj1 (proj2 (proj2 (proj2 (Hd eq_refl)))) eq_refl).
Defined.

(** ** Forwarding to the hosted application *)

Lemma forward_to_app_log e o :
  Window.minimized o = false →
  App.log (Window.app (Window.forward_to_app e o)) =
    App.log (Window.app o) ++ [(e, Window.content_rect (Window.forward_to_app e o))].
Proof. intros Hm. unfold Window.forward_to_app. by rewrite Hm. Qed.

Lemma drag_to_minimized scr pos o :
  Window.minimized (Window.drag_to scr pos o) = Window.minimized o.
Proof. by destruct scr. Qed.

Lemma resize_to_minimized scr pos o :
  Window.minimized (Window.resize_to scr pos o) = Window.minimized o.
Proof. by destruct scr. Qed.

Lemma drag_to_resizing scr pos o :
  Window.resizing (Window.drag_to scr pos o) = Window.resizing o.
Proof. by destruct scr. Qed.



Example drawn_window_reached :
  (s ← boot [StepDraw]; Ok (Desktop.heap s !! 0%nat)) = Ok (Some drawn_window).
Proof. reflexivity. Qed.




(** ** Quiet operations *)

Section quiet.
Implicit Types (s : Desktop.world) (l : list nat).

Lemma set_windows_same s :
  Desktop.set_windows (Desktop.windows (Desktop.dt s)) s = s.
Proof. by destruct s as [? ? [] ? ?]. Qed.

Lemma quiet_refl s : quiet s s.
Proof. by split. Qed.

Lemma quiet_trans s1 s2 s3 : quiet s1 s2 → quiet s2 s3 → quiet s1 s3.
Proof.
  intros [] []. split; try congruence; [lia | tauto].
Qed.

Lemma quiet_set_windows_perm s l :
  l ≡ₚ Desktop.windows (Desktop.dt s) → quiet s (Desktop.set_windows l s).
Proof.
  intros Hp. split; simpl; try done. intros [Hnd Hb]. split; simpl.
  - by rewrite Hp.
  - intros win Hin. apply Hb. by rewrite <- Hp.
Qed.

Lemma quiet_set_windows_sub s l :
  sublist l (Desktop.windows (Desktop.dt s)) → quiet s (Desktop.set_windows l s).
Proof.
  intros Hp. split; simpl; try done. intros [Hnd Hb]. split; simpl.
  - by eapply sublist_NoDup.
  - intros win Hin. apply Hb. by eapply elem_of_sublist.
Qed.

Lemma quiet_set_heap s h :
  length h = length (Desktop.heap s) → quiet s (Desktop.set_heap h s).
Proof.
  intros Hl. split; simpl; try done; [lia|].
  intros [Hnd Hb]. split; simpl; [done|]. by rewrite Hl.
Qed.

Lemma quiet_update_win s win f : quiet s (Desktop.update_win win f s).
Proof.
  unfold Desktop.update_win. destruct (_ !! win); [|apply quiet_refl].
  apply quiet_set_heap. apply length_insert.
Qed.

Lemma quiet_focus s s' win : Desktop.focus win s = Ok s' → quiet s s'.
Proof.
  unfold Desktop.focus. intros Hf.
  destruct (last _) as [top|]; [|inversion Hf; apply quiet_refl].
  destruct (Nat.eqb top win); [inversion Hf; apply quiet_refl|].
  destruct (Desktop.list_remove win _) as [l|] eqn:Hr; [|done].
  inversion Hf. apply quiet_set_windows_perm.
  destruct (list_remove_Some _ _ _ Hr) as (l1 & l2 & -> & -> & _).
  rewrite <- app_assoc. apply Permutation_app_head.
  symmetry. apply Permutation_cons_append.
Qed.

Lemma quiet_close s win : quiet s (Desktop.close win s).
Proof.
  unfold Desktop.close. destruct (Desktop.list_contains win _); [|apply quiet_refl].
  destruct (Desktop.list_remove win _) as [l|] eqn:Hr; [|apply quiet_refl].
  apply quiet_set_windows_sub.
  destruct (list_remove_Some _ _ _ Hr) as (l1 & l2 & -> & -> & _).
  apply sublist_app; [done|]. by apply sublist_cons.
Qed.

Lemma quiet_spawn_window s s' app_name size :
  Desktop.spawn_window app_name size s = Ok s' → quiet s s'.
Proof.
  intros Hs. destruct (spawn_window_inv _ _ _ _ Hs) as (cls & r & Hc & _ & _ & ->).
  clear Hs.
  split; simpl; try done.
  - rewrite length_app. lia.
  - intros [Hnd Hb]. split; simpl.
    + apply NoDup_app. split_and!; [done | | apply NoDup_singleton].
      intros x Hx ->%list_elem_of_singleton. apply Hb in Hx. lia.
    + intros win. rewrite length_app, elem_of_app, list_elem_of_singleton. simpl.
      intros [Hin| ->]; [apply Hb in Hin|]; lia.
Qed.

(** Restart: [self.windows.clear()] followed by [spawn_window]. *)
Lemma quiet_respawn s s' app_name size :
  Desktop.spawn_window app_name size (Desktop.set_windows [] s) = Ok s' →
  quiet s s'.
Proof.
  intros Hs. destruct (spawn_window_inv _ _ _ _ Hs) as (cls & r & Hc & _ & _ & ->).
  clear Hs.
  split; simpl; try done.
  - rewrite length_app. lia.
  - intros _. split; simpl; [apply NoDup_singleton|].
    intros win ->%list_elem_of_singleton. rewrite length_app. simpl. lia.
Qed.

Lemma quiet_flags s s' :
  Desktop.screen s' = Desktop.screen s →
  Desktop.running s' = Desktop.running s →
  Desktop.dispatched s' = Desktop.dispatched s →
  Desktop.heap s' = Desktop.heap s →
  Desktop.windows (Desktop.dt s') = Desktop.windows (Desktop.dt s) →
  Desktop.sleeping (Desktop.dt s') = Desktop.sleeping (Desktop.dt s) →
  quiet s s'.
Proof.
  intros H1 H2 H3 H4 H5 H6. split; try done; [by rewrite H4|].
  unfold well_formed. by rewrite H4, H5.
Qed.

Lemma quiet_foldl_update s f l :
  quiet s (foldl (fun s win => Desktop.update_win win f s) s l).
Proof.
  revert s. induction l as [|win l IH]; intros s; simpl; [apply quiet_refl|].
  eapply quiet_trans; [apply quiet_update_win | apply IH].
Qed.
End quiet.

(** ** The stages of Desktop.handle_event, one by one *)

Lemma find_ext_heap {A} (f g : A → bool) (l : list A) :
  (∀ x, f x = g x) → find f l = find g l.
Proof.
  intros Hfg. induction l as [|x l IH]; simpl; [done|]. by rewrite Hfg, IH.
Qed.

Section stages.
Implicit Types (s : Desktop.world) (m : Pos) (env : Env) (e : Event).

Lemma outcome_and_then (f : flow Desktop.world) k s' :
  outcome (and_then f k) s' →
  f = Return s' ∨ ∃ s1, f = Next s1 ∧ outcome (k s1) s'.
Proof.
  unfold outcome. destruct f as [s1|s1|x]; simpl.
  - intros Ho. right. eauto.
  - intros [Ho|Ho]; [done|]. left. done.
  - intros [Ho|Ho]; done.
Qed.

Lemma outcome_returning (r : result Desktop.world) s' :
  outcome (returning r) s' → r = Ok s'.
Proof. unfold outcome. destruct r; simpl; intros [Ho|Ho]; congruence. Qed.

Lemma outcome_continuing (r : result Desktop.world) s' :
  outcome (continuing r) s' → r = Ok s'.
Proof. unfold outcome. destruct r; simpl; intros [Ho|Ho]; congruence. Qed.

Lemma and_then_quiet (f : flow Desktop.world) k s :
  (∀ x, outcome f x → quiet s x) →
  (∀ s1 x, outcome (k s1) x → quiet s1 x) →
  ∀ s', outcome (and_then f k) s' → quiet s s'.
Proof.
  intros Hf Hk s' [Ho|(s1 & Hs1 & Ho)]%outcome_and_then.
  - apply Hf. by right.
  - eapply quiet_trans; [apply Hf; by left | by eapply Hk].
Qed.

Lemma outcome_Next s s' : outcome (Next s) s' → s' = s.
Proof. by intros [[= <-]|[=]]. Qed.

Lemma outcome_Return s s' : outcome (Return s) s' → s' = s.
Proof. by intros [[=]|[= <-]]. Qed.

Lemma outcome_Throw x s' : ¬ outcome (Throw x) s'.
Proof. by intros [[=]|[=]]. Qed.

Ltac settle :=
  let Ho := fresh "Ho" in
  intros Ho;
  first [ apply outcome_Next in Ho; subst
        | apply outcome_Return in Ho; subst
        | apply outcome_returning in Ho
        | apply outcome_continuing in Ho
        | by apply outcome_Throw in Ho ];
  lazymatch goal with
  | |- quiet ?s ?s => apply quiet_refl
  | |- quiet ?s (Desktop.update_win _ _ ?s) => apply quiet_update_win
  | |- quiet ?s (Desktop.close _ ?s) => apply quiet_close
  | H : Desktop.focus _ ?s = Ok ?s' |- quiet ?s ?s' => exact (quiet_focus _ _ _ H)
  | H : Desktop.focus _ (Desktop.update_win ?w ?f ?s) = Ok ?s' |- quiet ?s ?s' =>
      exact (quiet_trans _ _ _ (quiet_update_win s w f) (quiet_focus _ _ _ H))
  | H : Desktop.spawn_window _ _ ?s = Ok ?s' |- quiet ?s ?s' =>
      exact (quiet_spawn_window _ _ _ _ H)
  | H : Desktop.spawn_window _ _ (Desktop.set_windows [] ?s) = Ok ?s' |- quiet ?s ?s' =>
      exact (quiet_respawn _ _ _ _ H)
  | H : Desktop.spawn_window _ _ ?s = Ok ?s1 |- quiet ?s ?s2 =>
      exact (quiet_trans _ _ _ (quiet_spawn_window _ _ _ _ H)
               (quiet_flags s1 s2 eq_refl eq_refl eq_refl eq_refl eq_refl eq_refl))
  | |- quiet _ _ => first [ by apply quiet_flags | idtac ]
  end.

Lemma click_start_button_next m s s' :
  Desktop.click_start_button m s = Next s' → s' = s.
Proof.
  unfold Desktop.click_start_button. repeat case_match; congruence.
Qed.

Lemma click_start_button_quiet m s s' :
  outcome (Desktop.click_start_button m s) s' → quiet s s'.
Proof.
  unfold Desktop.click_start_button. repeat case_match; settle.
Qed.

Lemma click_start_menu_next m s s' :
  Desktop.click_start_menu m s = Next s' →
  s' = s ∨ s' = Desktop.set_start_open false s.
Proof.
  unfold Desktop.click_start_menu. repeat case_match; intros [= <-]; auto.
Qed.

Lemma click_start_menu_quiet m s s' :
  outcome (Desktop.click_start_menu m s) s' → quiet s s'.
Proof.
  unfold Desktop.click_start_menu. repeat case_match; settle.
Qed.

Lemma click_icons_next env s s' :
  Desktop.click_icons env s = Next s' → s' = s.
Proof.
  unfold Desktop.click_icons. repeat case_match; congruence.
Qed.

Lemma click_icons_quiet env s s' :
  outcome (Desktop.click_icons env s) s' → quiet s s'.
Proof.
  unfold Desktop.click_icons. repeat case_match; settle.
Qed.

Lemma click_task_buttons_next m s s' :
  Desktop.click_task_buttons m s = Next s' → s' = s.
Proof.
  unfold Desktop.click_task_buttons.
  repeat case_match; try congruence; destruct (Desktop.focus _ _); done.
Qed.

Lemma click_task_buttons_quiet m s s' :
  outcome (Desktop.click_task_buttons m s) s' → quiet s s'.
Proof.
  unfold Desktop.click_task_buttons. repeat case_match; settle.
Qed.

Lemma click_windows_next m s s' :
  Desktop.click_windows m s = Next s' →
  (Desktop.top_hit m s = None ∧ s' = s) ∨
  (∃ win, Desktop.top_hit m s = Some win ∧ Desktop.focus win s = Ok s').
Proof.
  unfold Desktop.click_windows.
  destruct (Desktop.top_hit m s) as [win|]; [|intros [= <-]; by left].
  intros Hc. right. exists win. split; [done|]. revert Hc.
  repeat case_match; try congruence;
    try (destruct (Desktop.focus _ _); simpl; congruence).
Qed.

Lemma click_windows_quiet m s s' :
  outcome (Desktop.click_windows m s) s' → quiet s s'.
Proof.
  unfold Desktop.click_windows. repeat case_match; settle.
Qed.

Lemma route_click_quiet env e s s' :
  outcome (Desktop.route_click env e s) s' → quiet s s'.
Proof.
  unfold Desktop.route_click.
  destruct e as [button pos|button pos|pos|key|key| |w h|ty]; try settle.
  destruct button as [|[p|p|]|p]; try settle.
  intros Ho. revert s' Ho.
  refine (and_then_quiet _ _ s _ (λ s1 x, click_windows_quiet _ s1 x)).
  refine (and_then_quiet _ _ s _ (λ s1 x, click_task_buttons_quiet _ s1 x)).
  refine (and_then_quiet _ _ s _ (λ s1 x, click_icons_quiet _ s1 x)).
  refine (and_then_quiet _ _ s (λ x, click_start_button_quiet _ s x)
            (λ s1 x, click_start_menu_quiet _ s1 x)).
Qed.

(** The windows stage leaves on top the window it found under the pointer. *)
Lemma top_hit_ext m s s' :
  Desktop.heap s' = Desktop.heap s →
  Desktop.windows (Desktop.dt s') = Desktop.windows (Desktop.dt s) →
  Desktop.top_hit m s' = Desktop.top_hit m s.
Proof.
  intros Hh Hw. unfold Desktop.top_hit. rewrite Hw. apply find_ext_heap.
  intros win. unfold Desktop.hit. by rewrite Hh.
Qed.

Lemma top_hit_elem m s win :
  Desktop.top_hit m s = Some win →
  win ∈ Desktop.windows (Desktop.dt s) ∧ Desktop.hit m s win = true.
Proof.
  unfold Desktop.top_hit. intros [Hin Hh]%find_some. split; [|done].
  apply list_elem_of_In in Hin. by rewrite elem_of_reverse in Hin.
Qed.

Lemma focus_heap win s s' :
  Desktop.focus win s = Ok s' → Desktop.heap s' = Desktop.heap s.
Proof.
  unfold Desktop.focus. repeat case_match; intros [= <-]; done.
Qed.

Lemma top_hit_focus m s s' win :
  Desktop.top_hit m s = Some win → Desktop.focus win s = Ok s' →
  Desktop.top_hit m s' = Some win.
Proof.
  intros Ht Hf. pose proof (focus_heap _ _ _ Hf) as Hh.
  destruct (top_hit_elem _ _ _ Ht) as [Hin Hhit].
  revert Hf. unfold Desktop.focus.
  destruct (last _) as [top|] eqn:Hl; [|by intros [= <-]].
  destruct (Nat.eqb top win); [by intros [= <-]|].
  destruct (Desktop.list_remove win _) as [l|]; [|done].
  intros [= <-]. unfold Desktop.top_hit. simpl.
  rewrite reverse_snoc. simpl.
  assert (Desktop.hit m (Desktop.set_windows (l ++ [win]) s) win = true) as ->; done.
Qed.

Lemma minimize_all_quiet s : quiet s (Desktop.minimize_all s).
Proof. apply quiet_foldl_update. Qed.

Lemma power_dialog_next e s s' :
  Desktop.power_dialog e s = Next s' → s' = s.
Proof.
  unfold Desktop.power_dialog, Desktop.power_cmds. simpl.
  repeat case_match; try congruence;
    try (destruct (Desktop.spawn_window _ _ _); simpl; congruence).
Qed.

Lemma power_dialog_outcome e s s' :
  outcome (Desktop.power_dialog e s) s' →
  quiet s s' ∨
  s' = Desktop.set_sleeping true
         (Desktop.minimize_all (Desktop.set_power_open false s)).
Proof.
  unfold Desktop.power_dialog, Desktop.power_cmds. simpl.
  assert (quiet s (Desktop.set_power_open false s)) as Hq by (by apply quiet_flags).
  repeat case_match; intros Ho;
    first [ by apply outcome_Throw in Ho
          | apply outcome_Next in Ho; subst; left; apply quiet_refl
          | apply outcome_returning in Ho; left;
            exact (quiet_trans _ _ _ Hq (quiet_respawn _ _ _ _ Ho))
          | apply outcome_Return in Ho; subst; first [by left | by right] ].
Qed.

Lemma and_then_Next (f : flow Desktop.world) k s' :
  and_then f k = Next s' → ∃ s1, f = Next s1 ∧ k s1 = Next s'.
Proof. destruct f; simpl; [eauto | done | done]. Qed.

Lemma and_then_Return (f : flow Desktop.world) k s' :
  and_then f k = Return s' →
  f = Return s' ∨ ∃ s1, f = Next s1 ∧ k s1 = Return s'.
Proof. destruct f; simpl; [eauto | auto | done]. Qed.

Lemma route_click_next env pos s s1 :
  Desktop.route_click env (MOUSEBUTTONDOWN 1 pos) s = Next s1 →
  ∃ s0, (s0 = s ∨ s0 = Desktop.set_start_open false s) ∧
        ((Desktop.top_hit (mouse env) s = None ∧ s1 = s0) ∨
         (∃ win, Desktop.top_hit (mouse env) s = Some win ∧
                 Desktop.focus win s0 = Ok s1)).
Proof.
  unfold Desktop.route_click.
  intros (s4 & (s3 & (s2 & (sa & Ha & Hb)%and_then_Next
                     & Hc)%and_then_Next & Hd)%and_then_Next & He)%and_then_Next.
  apply click_start_button_next in Ha. subst sa.
  apply click_start_menu_next in Hb.
  apply click_icons_next in Hc. subst s3.
  apply click_task_buttons_next in Hd. subst s4.
  apply click_windows_next in He.
  exists s2. split; [done|].
  assert (Desktop.top_hit (mouse env) s2 = Desktop.top_hit (mouse env) s) as <-.
  { destruct Hb as [->| ->]; [done|]. by apply top_hit_ext. }
  done.
Qed.

Lemma route_click_other env e s :
  (∀ pos, e ≠ MOUSEBUTTONDOWN 1 pos) → Desktop.route_click env e s = Next s.
Proof.
  intros Hne. destruct e as [button pos|button pos|pos|key|key| |w h|ty]; try done.
  destruct button as [|[p|p|]|p]; try done. by destruct (Hne pos).
Qed.

Lemma route_click_next_top env e s s1 :
  Desktop.route_click env e s = Next s1 →
  Desktop.top_hit (mouse env) s1 = Desktop.top_hit (mouse env) s.
Proof.
  destruct e as [button pos|button pos|pos|key|key| |w h|ty];
    try (by intros [= <-]).
  destruct button as [|[p|p|]|p]; try (by intros [= <-]).
  intros (s0 & Hs0 & Hs1)%route_click_next.
  assert (Desktop.top_hit (mouse env) s0 = Desktop.top_hit (mouse env) s) as E.
  { destruct Hs0 as [->| ->]; [done|]. by apply top_hit_ext. }
  destruct Hs1 as [[Hn ->]|(win & Ht & Hf)]; [done|].
  rewrite Ht. rewrite <- E in Ht. by eapply top_hit_focus.
Qed.

(** *** Window handlers *)

Lemma window_handle_event_minimized scr e o :
  Window.minimized o = true → Window.handle_event scr e o = Ok (o, None).
Proof. intros Hm. unfold Window.handle_event. by rewrite Hm. Qed.

Lemma forward_to_app_minimized e o :
  Window.minimized (Window.forward_to_app e o) = Window.minimized o.
Proof. unfold Window.forward_to_app. by destruct (negb _). Qed.

Lemma window_handle_event_keeps scr e o o' r :
  Window.handle_event scr e o = Ok (o', r) →
  Window.minimized o' = Window.minimized o.
Proof.
  unfold Window.handle_event, Window._hit_title_buttons.
  repeat case_match; simpl; repeat case_match; intros Heq; simplify_eq;
    rewrite ?forward_to_app_minimized, ?resize_to_minimized,
      ?drag_to_minimized; done.
Qed.

Lemma call_handle_event_inv win e s s' :
  Desktop.call_handle_event win e s = Ok s' →
  ∃ o o' r, Desktop.heap s !! win = Some o ∧
    Window.handle_event (Desktop.screen s) e o = Ok (o', r) ∧
    s' = Desktop.set_dispatched (Desktop.dispatched s ++ [win])
           (Desktop.set_heap (<[win := o']> (Desktop.heap s)) s).
Proof.
  unfold Desktop.call_handle_event.
  destruct (Desktop.heap s !! win) as [o|]; [|done].
  destruct (Window.handle_event _ e o) as [[o' r]|x] eqn:E; simpl; [|done].
  intros [= <-]. eauto 6.
Qed.

Lemma handled_refl s : handled s s.
Proof. split; eauto. Qed.

Lemma handled_trans s1 s2 s3 : handled s1 s2 → handled s2 s3 → handled s1 s3.
Proof.
  intros [] []. split; try congruence.
  intros win o3 H3. destruct (handled_minimized1 _ _ H3) as (o2 & H2 & E2).
  destruct (handled_minimized0 _ _ H2) as (o1 & H1 & E1).
  exists o1. split; [done | congruence].
Qed.

Lemma call_handle_event_handled win e s s' :
  Desktop.call_handle_event win e s = Ok s' →
  handled s s' ∧ Desktop.dispatched s' = Desktop.dispatched s ++ [win].
Proof.
  intros (o & o' & r & Ho & He & ->)%call_handle_event_inv.
  split; [|done]. split; simpl; try done; [apply length_insert|].
  intros i x Hx. destruct (decide (i = win)) as [->|Hne].
  - rewrite list_lookup_insert_eq in Hx by (by eapply lookup_lt_Some).
    inversion Hx; subst x. exists o. split; [done|].
    by eapply window_handle_event_keeps.
  - rewrite list_lookup_insert_ne in Hx by done. eauto.
Qed.

Lemma forward_all_handled e l s s' :
  forward_all e l s = Ok s' →
  handled s s' ∧ Desktop.dispatched s' = Desktop.dispatched s ++ l.
Proof.
  revert s. induction l as [|win l IH]; simpl; intros s.
  - intros [= <-]. split; [apply handled_refl | by rewrite app_nil_r].
  - destruct (Desktop.call_handle_event win e s) as [s1|x] eqn:E; simpl; [|done].
    intros Hf. apply call_handle_event_handled in E as [H1 D1].
    apply IH in Hf as [H2 D2]. split; [by eapply handled_trans|].
    by rewrite D2, D1, <- app_assoc.
Qed.

Lemma handled_well_formed s s' : handled s s' → well_formed s → well_formed s'.
Proof.
  intros [Hd _ _ Hl _]. unfold well_formed. by rewrite Hd, Hl.
Qed.

Lemma handled_asleep_ok s s' : handled s s' → asleep_ok s → asleep_ok s'.
Proof.
  intros [Hd _ _ _ Hm] Ha. unfold asleep_ok, all_minimized in *. rewrite Hd.
  intros Hs win o' Hin Ho'. destruct (Hm _ _ Ho') as (o & Ho & ->). eauto.
Qed.

Lemma forward_focused_next env e s s' :
  outcome (Desktop.forward_focused env e s) s' →
  s' = s ∨ ∃ win, Desktop.top_hit (mouse env) s = Some win ∧
                  Desktop.call_handle_event win e s = Ok s'.
Proof.
  unfold Desktop.forward_focused.
  destruct (Desktop.top_hit (mouse env) s) as [win|].
  - intros Ho%outcome_continuing. right. eauto.
  - intros Ho%outcome_Next. by left.
Qed.

Lemma global_keys_quiet env e s s' :
  outcome (Desktop.global_keys env e s) s' → quiet s s'.
Proof.
  unfold Desktop.global_keys.
  destruct e as [button pos|button pos|pos|key|key| |w h|ty];
    intros ->%outcome_Next; try apply quiet_refl.
  eapply quiet_trans; [|eapply quiet_trans].
  - apply quiet_refl.
  - instantiate (1 := if (key =? K_ESCAPE) && Desktop.start_open (Desktop.dt s)
                      then Desktop.set_start_open false s else s).
    destruct (_ && _); [by apply quiet_flags | apply quiet_refl].
  - destruct ((key =? K_TAB) && alt_held env); [|apply quiet_refl].
    destruct (Desktop.windows _) as [|w rest] eqn:Hw; [apply quiet_refl|].
    apply quiet_set_windows_perm. rewrite Hw. symmetry. apply Permutation_cons_append.
Qed.

(** *** The handler as a whole *)

Lemma finish_Ok (f : flow Desktop.world) s' : finish f = Ok s' ↔ outcome f s'.
Proof.
  unfold outcome. destruct f; simpl; split; intros Hx.
  - left. congruence.
  - destruct Hx; congruence.
  - right. congruence.
  - destruct Hx; congruence.
  - done.
  - destruct Hx; congruence.
Qed.

Lemma forward_focused_not_return env e s s' :
  Desktop.forward_focused env e s ≠ Return s'.
Proof.
  unfold Desktop.forward_focused. destruct (Desktop.top_hit _ _); [|done].
  by destruct (Desktop.call_handle_event _ _ _).
Qed.

Lemma global_keys_not_return env e s s' :
  Desktop.global_keys env e s ≠ Return s'.
Proof. unfold Desktop.global_keys. by destruct e. Qed.

(** The three ways through [handle_event] on a desktop that is awake: an
    early stage of the click routing returns; the power dialog acts; or the
    event goes on to the window under the pointer and the global keys. *)
Lemma handle_event_awake env e s s' :
  Desktop.sleeping (Desktop.dt s) = false →
  Desktop.handle_event env e s = Ok s' →
  Desktop.route_click env e s = Return s' ∨
  (∃ s1, Desktop.route_click env e s = Next s1 ∧
         Desktop.power_dialog e s1 = Return s') ∨
  (∃ s1 s3, Desktop.route_click env e s = Next s1 ∧
            Desktop.power_dialog e s1 = Next s1 ∧
            Desktop.forward_focused env e s1 = Next s3 ∧
            Desktop.global_keys env e s3 = Next s').
Proof.
  intros Hs. unfold Desktop.handle_event. rewrite Hs.
  intros [Ho|Ho]%finish_Ok.
  - apply and_then_Next in Ho as (s3 & H3 & Ho).
    apply and_then_Next in H3 as (s2 & H2 & H3).
    apply and_then_Next in H2 as (s1 & H1 & H2).
    pose proof (power_dialog_next _ _ _ H2) as ->.
    right; right. eauto 8.
  - apply and_then_Return in Ho as [Ho|(s3 & _ & Ho)];
      [|by apply global_keys_not_return in Ho].
    apply and_then_Return in Ho as [Ho|(s2 & _ & Ho)];
      [|by apply forward_focused_not_return in Ho].
    apply and_then_Return in Ho as [Ho|(s1 & H1 & Ho)]; [by left|].
    right; left. eauto.
Qed.

Lemma handle_event_asleep env e s :
  Desktop.sleeping (Desktop.dt s) = true →
  Desktop.handle_event env e s =
    Ok (match e with
        | MOUSEBUTTONDOWN _ _ | KEYDOWN _ => Desktop.set_sleeping false s
        | _ => s
        end).
Proof. intros Hs. unfold Desktop.handle_event. rewrite Hs. by destruct e. Qed.

(** C9, the part played by [Desktop.handle_event]: it calls the handler of at
    most one window, the topmost one that is not minimized and lies under
    the pointer. *)
Lemma handle_event_dispatched env e s s' :
  Desktop.handle_event env e s = Ok s' →
  Desktop.dispatched s' = Desktop.dispatched s ∨
  ∃ win, Desktop.top_hit (mouse env) s = Some win ∧
         Desktop.dispatched s' = Desktop.dispatched s ++ [win].
Proof.
  destruct (Desktop.sleeping (Desktop.dt s)) eqn:Hs.
  { rewrite (handle_event_asleep _ _ _ Hs). intros [= <-]. left. by destruct e. }
  intros He.
  apply (handle_event_awake _ _ _ _ Hs) in He
    as [Hr|[(s1 & Hr & Hp)|(s1 & s3 & Hr & Hp & Hf & Hk)]].
  - left. apply (route_click_quiet env e). by right.
  - left. assert (quiet s s1) as Q1 by (apply (route_click_quiet env e); by left).
    destruct (power_dialog_outcome e s1 s') as [Q2| ->]; [by right|..].
    + rewrite (quiet_dispatched _ _ Q2). apply Q1.
    + simpl. rewrite (quiet_dispatched _ _ (minimize_all_quiet _)). simpl. apply Q1.
  - assert (quiet s s1) as [] by (apply (route_click_quiet env e); by left).
    assert (quiet s3 s') as [] by (apply (global_keys_quiet env e); by left).
    pose proof (route_click_next_top _ _ _ _ Hr) as Ht.
    destruct (forward_focused_next env e s1 s3) as [->|(win & Hw & Hc)]; [by left|..].
    + left. congruence.
    + right. exists win. rewrite <- Ht. split; [done|].
      apply call_handle_event_handled in Hc as [_ Hd]. congruence.
Qed.

(** *** Invariants of the handler *)

Lemma update_minimized_keeps win i s :
  (∀ o, Desktop.heap s !! i = Some o → Window.minimized o = true) →
  ∀ o, Desktop.heap (Desktop.update_win win (Window.set_minimized true) s) !! i
         = Some o → Window.minimized o = true.
Proof.
  intros Hi o. unfold Desktop.update_win.
  destruct (Desktop.heap s !! win) as [x|] eqn:Hx; [|apply Hi]. simpl.
  destruct (decide (win = i)) as [->|Hne].
  - rewrite list_lookup_insert_eq by (by eapply lookup_lt_Some). by intros [= <-].
  - rewrite list_lookup_insert_ne by done. apply Hi.
Qed.

Lemma update_minimized_sets win s :
  ∀ o, Desktop.heap (Desktop.update_win win (Window.set_minimized true) s) !! win
         = Some o → Window.minimized o = true.
Proof.
  intros o. unfold Desktop.update_win.
  destruct (Desktop.heap s !! win) as [x|] eqn:Hx; [|congruence]. simpl.
  rewrite list_lookup_insert_eq by (by eapply lookup_lt_Some). by intros [= <-].
Qed.

Lemma foldl_minimized_keeps l i s :
  (∀ o, Desktop.heap s !! i = Some o → Window.minimized o = true) →
  ∀ o, Desktop.heap
         (foldl (λ s win, Desktop.update_win win (Window.set_minimized true) s) s l)
         !! i = Some o → Window.minimized o = true.
Proof.
  revert s. induction l as [|win l IH]; simpl; intros s Hi; [done|].
  apply IH. by apply update_minimized_keeps.
Qed.

Lemma foldl_minimized_sets l i s :
  i ∈ l →
  ∀ o, Desktop.heap
         (foldl (λ s win, Desktop.update_win win (Window.set_minimized true) s) s l)
         !! i = Some o → Window.minimized o = true.
Proof.
  revert s. induction l as [|win l IH]; simpl; intros s Hin.
  - by apply not_elem_of_nil in Hin.
  - destruct (decide (i = win)) as [->|Hne].
    + apply foldl_minimized_keeps, update_minimized_sets.
    + apply IH. apply elem_of_cons in Hin as [?|?]; done.
Qed.

Lemma foldl_update_dt f l s :
  Desktop.dt (foldl (λ s win, Desktop.update_win win f s) s l) = Desktop.dt s.
Proof.
  revert s. induction l as [|win l IH]; simpl; intros s; [done|].
  rewrite IH. unfold Desktop.update_win. by destruct (_ !! win).
Qed.

Lemma minimize_all_all s : all_minimized (Desktop.minimize_all s).
Proof.
  intros win o. unfold Desktop.minimize_all. rewrite foldl_update_dt.
  intros Hin. by apply foldl_minimized_sets.
Qed.

Lemma awake_asleep_ok s : Desktop.sleeping (Desktop.dt s) = false → asleep_ok s.
Proof. unfold asleep_ok. congruence. Qed.

Lemma handle_event_inv env e s s' :
  Desktop.handle_event env e s = Ok s' →
  well_formed s → asleep_ok s →
  well_formed s' ∧ asleep_ok s' ∧
  Desktop.screen s' = Desktop.screen s ∧ Desktop.running s' = Desktop.running s.
Proof.
  intros He Hwf Ha.
  destruct (Desktop.sleeping (Desktop.dt s)) eqn:Hs.
  { rewrite (handle_event_asleep _ _ _ Hs) in He. inversion He; subst s'; clear He.
    destruct e; simpl; split_and!; try done; by apply awake_asleep_ok. }
  assert (∀ x, quiet s x → well_formed x ∧ asleep_ok x ∧
               Desktop.screen x = Desktop.screen s ∧
               Desktop.running x = Desktop.running s) as Hq.
  { intros x []. split_and!; auto. apply awake_asleep_ok. congruence. }
  apply (handle_event_awake _ _ _ _ Hs) in He
    as [Hr|[(s1 & Hr & Hp)|(s1 & s3 & Hr & Hp & Hf & Hk)]].
  - apply Hq, (route_click_quiet env e). by right.
  - assert (quiet s s1) as Q1 by (apply (route_click_quiet env e); by left).
    destruct (power_dialog_outcome e s1 s') as [Q2| ->]; [by right|..].
    + apply Hq. by eapply quiet_trans.
    + assert (quiet s (Desktop.minimize_all (Desktop.set_power_open false s1))) as Q3.
      { eapply quiet_trans; [exact Q1|]. eapply quiet_trans; [|apply minimize_all_quiet].
        by apply quiet_flags. }
      destruct Q3. split_and!; simpl; try done.
      * by apply quiet_wf0.
      * intros _. apply minimize_all_all.
  - assert (quiet s s1) as Q1 by (apply (route_click_quiet env e); by left).
    assert (quiet s3 s') as Q3 by (apply (global_keys_quiet env e); by left).
    destruct (forward_focused_next env e s1 s3) as [->|(win & Hw & Hc)]; [by left|..].
    + apply Hq. by eapply quiet_trans.
    + apply call_handle_event_handled in Hc as [Hh _].
      destruct Q1, Q3, Hh. split_and!.
      * apply quiet_wf1. eapply handled_well_formed; [by split|]. auto.
      * apply awake_asleep_ok. congruence.
      * congruence.
      * congruence.
Qed.

(** *** Drawing *)

Lemma draw_quiet s : quiet s (Desktop.drawn s).
Proof.
  unfold Desktop.drawn. destruct (Desktop.sleeping _); [apply quiet_refl|].
  apply (quiet_trans _ (Desktop.drawn_windows s)); [apply quiet_foldl_update|].
  generalize (Desktop.drawn_windows s). clear s. intros s.
  apply (quiet_trans _ (Desktop.draw_taskbar s)).
  { unfold Desktop.draw_taskbar. destruct (Desktop.screen _). by apply quiet_flags. }
  generalize (Desktop.draw_taskbar s). clear s. intros s.
  apply (quiet_trans _ (Desktop.draw_start_menu s)).
  { unfold Desktop.draw_start_menu.
    destruct (Desktop.start_open _); [|apply quiet_refl].
    destruct (Desktop.screen s). by apply quiet_flags. }
  unfold Desktop.draw_power_dialog.
  destruct (Desktop.power_open _); [by apply quiet_flags | apply quiet_refl].
Qed.

Lemma draw_asleep s :
  Desktop.sleeping (Desktop.dt s) = true → Desktop.drawn s = s.
Proof. intros Hs. unfold Desktop.drawn. by rewrite Hs. Qed.

(** A call of [draw] that returns leaves [drawn]. *)
Lemma window_draw_drawn o o' : Window.draw o = Ok o' → o' = Window.drawn o.
Proof.
  unfold Window.draw, Window.drawn.
  destruct (Window.minimized o); [by intros [= <-]|].
  repeat case_match; by intros [= <-].
Qed.

Lemma draw_windows_drawn wins s s' :
  Desktop.draw_windows wins s = Ok s' →
  s' = foldl (λ s win, Desktop.update_win win Window.drawn s) s wins.
Proof.
  revert s. induction wins as [|win wins IH]; intros s; simpl; [by intros [= <-]|].
  unfold Desktop.update_win.
  destruct (Desktop.heap s !! win) as [o|]; [|done].
  destruct (Window.draw o) as [o'|x] eqn:Ho; simpl; [|done].
  apply window_draw_drawn in Ho as ->. apply IH.
Qed.

Lemma draw_drawn s s' : Desktop.draw s = Ok s' → s' = Desktop.drawn s.
Proof.
  unfold Desktop.draw, Desktop.drawn.
  destruct (Desktop.sleeping _); [by intros [= <-]|].
  destruct (Desktop.draw_windows _ s) as [s1|x] eqn:Hw; simpl; [|done].
  apply draw_windows_drawn in Hw as ->. by intros [= <-].
Qed.

(** *** One iteration of the event loop *)

Lemma icon_drag_quiet ev s : quiet s (icon_drag ev s).
Proof.
  unfold icon_drag. repeat case_match; by apply quiet_refl || apply quiet_flags.
Qed.

Lemma icon_drag_asleep_ok ev s : asleep_ok s → asleep_ok (icon_drag ev s).
Proof. unfold icon_drag. repeat case_match; done. Qed.

Lemma main_loop_event_unfold env ev s :
  main_loop_event env ev s =
    s1 ← before_forwarding env ev s;
    forward_all ev (Desktop.windows (Desktop.dt s1)) s1.
Proof. unfold main_loop_event, before_forwarding. by destruct ev. Qed.

Lemma before_forwarding_inv env ev s s1 :
  before_forwarding env ev s = Ok s1 →
  well_formed s → asleep_ok s → well_formed s1 ∧ asleep_ok s1.
Proof.
  intros Hb Hwf Ha.
  assert (∀ s', Desktop.handle_event env ev s = Ok s' →
                well_formed (icon_drag ev s') ∧ asleep_ok (icon_drag ev s')) as Hh.
  { intros s' He. destruct (handle_event_inv _ _ _ _ He Hwf Ha) as (H1 & H2 & _).
    split; [by apply (quiet_wf _ _ (icon_drag_quiet ev s')) | by apply icon_drag_asleep_ok]. }
  unfold before_forwarding in Hb.
  destruct ev; try (destruct (Desktop.handle_event env _ s) eqn:E; simpl in Hb;
                    [inversion Hb; subst; by apply Hh | done]).
  - inversion Hb; subst. done.
  - inversion Hb; subst. done.
Qed.

Lemma main_loop_event_inv env ev s s' :
  main_loop_event env ev s = Ok s' →
  well_formed s → asleep_ok s → well_formed s' ∧ asleep_ok s'.
Proof.
  rewrite main_loop_event_unfold. intros Hm Hwf Ha.
  destruct (before_forwarding env ev s) as [s1|x] eqn:E; simpl in Hm; [|done].
  destruct (before_forwarding_inv _ _ _ _ E Hwf Ha) as [H1 H2].
  apply forward_all_handled in Hm as [Hh _].
  split; [by eapply handled_well_formed | by eapply handled_asleep_ok].
Qed.

Lemma step_inv st s s' :
  step st s = Ok s' → well_formed s → asleep_ok s → well_formed s' ∧ asleep_ok s'.
Proof.
  destruct st as [env ev| |f]; simpl.
  - apply main_loop_event_inv.
  - intros ->%draw_drawn Hwf Ha. split; [by apply (quiet_wf _ _ (draw_quiet s))|].
    destruct (Desktop.sleeping (Desktop.dt s)) eqn:Hs.
    + by rewrite draw_asleep.
    + apply awake_asleep_ok. by rewrite (quiet_sleeping _ _ (draw_quiet s)).
  - by intros [= <-].
Qed.

Lemma steps_inv sts s s' :
  steps sts s = Ok s' → well_formed s → asleep_ok s → well_formed s' ∧ asleep_ok s'.
Proof.
  revert s. induction sts as [|st sts IH]; simpl; intros s.
  - by intros [= <-].
  - destruct (step st s) as [s1|x] eqn:E; simpl; [|done].
    intros Hs Hwf Ha. destruct (step_inv _ _ _ E Hwf Ha). by eapply IH.
Qed.

(** Every desktop the running program reaches is well formed, and shows no
    window while it sleeps. *)
Lemma boot_inv sts s :
  boot sts = Ok s → well_formed s ∧ asleep_ok s.
Proof.
  unfold boot. rewrite init_initial. simpl. intros Hs.
  eapply steps_inv; [done | |].
  - split; [apply NoDup_singleton|]. intros win ->%list_elem_of_singleton. simpl. lia.
  - by apply awake_asleep_ok.
Qed.
End stages.

(** ** What the main loop forwards *)

Lemma call_handle_event_other win e s s' i :
  Desktop.call_handle_event win e s = Ok s' → i ≠ win →
  Desktop.heap s' !! i = Desktop.heap s !! i.
Proof.
  intros (o & o' & r & Ho & He & ->)%call_handle_event_inv Hne. simpl.
  by rewrite list_lookup_insert_ne.
Qed.

Lemma forward_all_other e l s s' i :
  forward_all e l s = Ok s' → i ∉ l →
  Desktop.heap s' !! i = Desktop.heap s !! i.
Proof.
  revert s. induction l as [|win l IH]; simpl; intros s.
  - by intros [= <-].
  - destruct (Desktop.call_handle_event win e s) as [s1|x] eqn:E; simpl; [|done].
    intros Hf [Hne Hn]%not_elem_of_cons.
    rewrite (IH _ Hf Hn). by eapply call_handle_event_other.
Qed.

(** On a z-order without duplicates the main loop runs the handler of each
    window exactly once, on the object as the desktop left it. *)
Lemma forward_all_each e l s s' win o :
  forward_all e l s = Ok s' → NoDup l → win ∈ l →
  Desktop.heap s !! win = Some o →
  ∃ o' r, Window.handle_event (Desktop.screen s) e o = Ok (o', r) ∧
          Desktop.heap s' !! win = Some o'.
Proof.
  revert s. induction l as [|w l IH]; simpl; intros s Hf Hnd Hin Ho.
  - by apply not_elem_of_nil in Hin.
  - destruct (Desktop.call_handle_event w e s) as [s1|x] eqn:E; simpl in Hf; [|done].
    apply NoDup_cons in Hnd as [Hn Hnd].
    destruct (decide (win = w)) as [->|Hne].
    + apply call_handle_event_inv in E as (o0 & o' & r & Ho0 & He & ->).
      rewrite Ho in Ho0. inversion Ho0; subst o0. exists o', r. split; [done|].
      rewrite (forward_all_other _ _ _ _ w Hf Hn). simpl.
      apply list_lookup_insert_eq. by eapply lookup_lt_Some.
    + apply elem_of_cons in Hin as [?|Hin]; [done|].
      pose proof (call_handle_event_other _ _ _ _ win E Hne) as Hsame.
      apply call_handle_event_handled in E as [[_ Hscr _ _ _] _].
      rewrite <- Hscr. apply IH; [done | done | done | by rewrite Hsame].
Qed.

(** C3 as stated fails on the code: with the notes window dragged over the
    start button, a left-button press at (50, 690), inside both, opens the
    start menu, and the window handler is still run on that press (by the
    main loop), which hands it to the application. *)
Lemma start_button_counterexample :
  boot cover_start_button = Ok covered_world ∧
  Desktop.start_btn (Desktop.dt covered_world) = Some (Rect.mk 8 682 120 32) ∧
  Desktop.hit (50, 690) covered_world 0 = true ∧
  Desktop.start_open (Desktop.dt covered_world) = false ∧
  ∃ s' o o',
    main_loop_event (mkEnv (50, 690) false 2000) (MOUSEBUTTONDOWN 1 (50, 690))
      covered_world = Ok s' ∧
    Desktop.start_open (Desktop.dt s') = true ∧
    Desktop.dispatched s' = Desktop.dispatched covered_world ++ [0%nat] ∧
    Desktop.heap covered_world !! 0%nat = Some o ∧
    Desktop.heap s' !! 0%nat = Some o' ∧
    App.log (Window.app o') =
      App.log (Window.app o) ++
        [(MOUSEBUTTONDOWN 1 (50, 690), Rect.mk 0 332 540 388)].
Proof.
  split; [vm_compute; reflexivity|]. split; [reflexivity|].
  split; [reflexivity|]. split; [reflexivity|].
  eexists _, _, _. split; [vm_compute; reflexivity|].
  split; [reflexivity|]. split; [reflexivity|]. split; [reflexivity|].
  split; reflexivity.
Qed.

(** C3, as the code has it.  On a desktop that is awake and has drawn its
    task bar, a left-button press with the pointer inside the start button
    toggles the start menu and [Desktop.handle_event] does nothing else: it
    passes the press to no window.  The main loop then runs the handler of
    every window of the z-order on that press, once each, whether or not the
    pointer is inside the window. *)
Theorem start_button_precedence (env : Env) (pos : Pos) (s : Desktop.world)
  (sb : Rect.t) :
  Desktop.sleeping (Desktop.dt s) = false →
  Desktop.start_btn (Desktop.dt s) = Some sb →
  Rect.collidepoint sb (mouse env) = true →
  let e := MOUSEBUTTONDOWN 1 pos in
  let s1 := Desktop.set_start_open (negb (Desktop.start_open (Desktop.dt s))) s in
  Desktop.handle_event env e s = Ok s1 ∧
  main_loop_event env e s = forward_all e (Desktop.windows (Desktop.dt s)) s1 ∧
  ∀ s', main_loop_event env e s = Ok s' →
    Desktop.dt s' = Desktop.dt s1 ∧
    Desktop.dispatched s' = Desktop.dispatched s ++ Desktop.windows (Desktop.dt s) ∧
    (NoDup (Desktop.windows (Desktop.dt s)) →
     ∀ win o, win ∈ Desktop.windows (Desktop.dt s) →
       Desktop.heap s !! win = Some o →
       ∃ o' r, Window.handle_event (Desktop.screen s) e o = Ok (o', r) ∧
               Desktop.heap s' !! win = Some o').
Proof.
  intros Hs Hb Hc e s1.
  assert (Desktop.handle_event env e s = Ok s1) as He.
  { unfold Desktop.handle_event. rewrite Hs. simpl.
    unfold Desktop.click_start_button. by rewrite Hb, Hc. }
  assert (main_loop_event env e s =
          forward_all e (Desktop.windows (Desktop.dt s)) s1) as Hm.
  { unfold main_loop_event. subst e. simpl. by rewrite He. }
  split; [done|]. split; [done|].
  intros s' Hs'. rewrite Hm in Hs'.
  destruct (forward_all_handled _ _ _ _ Hs') as [[Hd _ _ _ _] Hdisp].
  split; [done|]. split; [done|].
  intros Hnd win o Hin Ho.
  by apply (forward_all_each _ _ _ _ win o Hs' Hnd Hin).
Qed.

Lemma start_button_precedence_witness :
  Desktop.sleeping (Desktop.dt covered_world) = false ∧
  Desktop.start_btn (Desktop.dt covered_world) = Some (Rect.mk 8 682 120 32) ∧
  Rect.collidepoint (Rect.mk 8 682 120 32) (50, 690) = true ∧
  Desktop.handle_event (mkEnv (50, 690) false 2000) (MOUSEBUTTONDOWN 1 (50, 690))
    covered_world = Ok (Desktop.set_start_open true covered_world).
Proof.
  split; [reflexivity|]. split; [reflexivity|]. split; [reflexivity|].
  exact (proj1 (start_button_precedence (mkEnv (50, 690) false 2000) (50, 690)
                  covered_world (Rect.mk 8 682 120 32) eq_refl eq_refl eq_refl)).
Defined.

(** C9 as stated fails on the code in its conclusion: with two overlapping
    windows under the pointer, a pointer motion reaches the handler of the
    upper one twice (once from the desktop, once from the main loop) but the
    handler of the lower one only once. *)
Lemma main_loop_forwarding_counterexample :
  boot open_second = Ok two_world ∧
  Desktop.windows (Desktop.dt two_world) = [0; 1]%nat ∧
  Desktop.hit (400, 300) two_world 0 = true ∧
  Desktop.hit (400, 300) two_world 1 = true ∧
  ∃ s', main_loop_event (mkEnv (400, 300) false 2000) (MOUSEMOTION (400, 300))
          two_world = Ok s' ∧
        Desktop.dispatched s' = Desktop.dispatched two_world ++ [1; 0; 1]%nat.
Proof.
  split; [vm_compute; reflexivity|]. split; [reflexivity|].
  split; [reflexivity|]. split; [reflexivity|].
  eexists. split; [vm_compute; reflexivity|]. reflexivity.
Qed.

Lemma forwarded_elem env ev s win :
  win ∈ forwarded env ev s ↔
  Desktop.sleeping (Desktop.dt s) = false ∧
  (∃ s2, and_then (Desktop.route_click env ev s) (Desktop.power_dialog ev)
           = Next s2) ∧
  Desktop.top_hit (mouse env) s = Some win.
Proof.
  unfold forwarded. destruct (Desktop.sleeping _).
  { split; [by intros ?%elem_of_nil|by intros [? _]]. }
  destruct (and_then _ _) as [s2|s2|x].
  - destruct (Desktop.top_hit _ _) as [w|].
    + rewrite list_elem_of_singleton. split.
      * intros ->. eauto.
      * by intros (_ & _ & [= ->]).
    + split; [by intros ?%elem_of_nil|by intros (_ & _ & ?)].
  - split; [by intros ?%elem_of_nil|by intros (_ & [? ?] & _)].
  - split; [by intros ?%elem_of_nil|by intros (_ & [? ?] & _)].
Qed.

Lemma forwarded_count env ev s win :
  count_occ Nat.eq_dec (forwarded env ev s) win =
    if bool_decide (win ∈ forwarded env ev s) then 1%nat else 0%nat.
Proof.
  unfold forwarded. destruct (Desktop.sleeping _); [done|].
  destruct (and_then _ _); try done.
  destruct (Desktop.top_hit _ _) as [w|]; [|done].
  simpl. destruct (Nat.eq_dec w win) as [->|Hne].
  - rewrite bool_decide_eq_true_2; [done|]. by apply list_elem_of_singleton.
  - rewrite bool_decide_eq_false_2; [done|].
    intros ?%list_elem_of_singleton. congruence.
Qed.

(** The part played by [Desktop.handle_event]: the handlers it calls are
    those of [forwarded]. *)
Lemma handle_event_forwarded env e s s' :
  Desktop.handle_event env e s = Ok s' →
  Desktop.dispatched s' = Desktop.dispatched s ++ forwarded env e s.
Proof.
  unfold forwarded.
  destruct (Desktop.sleeping (Desktop.dt s)) eqn:Hs.
  { rewrite (handle_event_asleep _ _ _ Hs). intros [= <-].
    rewrite app_nil_r. by destruct e. }
  intros He.
  apply (handle_event_awake _ _ _ _ Hs) in He
    as [Hr|[(s1 & Hr & Hp)|(s1 & s3 & Hr & Hp & Hf & Hk)]].
  - rewrite Hr. simpl. rewrite app_nil_r.
    apply (route_click_quiet env e). by right.
  - rewrite Hr. simpl. rewrite Hp, app_nil_r.
    assert (quiet s s1) as Q1 by (apply (route_click_quiet env e); by left).
    destruct (power_dialog_outcome e s1 s') as [Q2| ->]; [by right|..].
    + rewrite (quiet_dispatched _ _ Q2). apply Q1.
    + simpl. rewrite (quiet_dispatched _ _ (minimize_all_quiet _)). simpl. apply Q1.
  - rewrite Hr. simpl. rewrite Hp.
    assert (quiet s s1) as [] by (apply (route_click_quiet env e); by left).
    assert (quiet s3 s') as [] by (apply (global_keys_quiet env e); by left).
    rewrite <- (route_click_next_top _ _ _ _ Hr).
    unfold Desktop.forward_focused in Hf.
    destruct (Desktop.top_hit (mouse env) s1) as [win|].
    + assert (Desktop.call_handle_event win e s1 = Ok s3) as Hc.
      { apply outcome_continuing. by left. }
      apply call_handle_event_handled in Hc as [_ Hd]. congruence.
    + inversion Hf; subst s3. rewrite app_nil_r. congruence.
Qed.

(** C9, as the code has it.  For every event other than QUIT and
    VIDEORESIZE on which an iteration of the main loop completes, the
    handlers of windows are called as follows.  First by
    [Desktop.handle_event], on the windows of [forwarded]: that is one
    window, the topmost non-minimized window under the pointer, exactly
    when the desktop is awake, no earlier stage (click routing, power
    dialog) returned and such a window exists, and no window otherwise.
    Then by the main loop, on every window of the z-order as
    [Desktop.handle_event] left it, in order, whether or not the desktop
    claimed the event.  So, in a z-order without duplicates, the window of
    [forwarded] handles the event twice and every other window once. *)
Theorem main_loop_forwarding (env : Env) (ev : Event) (s s' : Desktop.world) :
  ev ≠ QUIT → (∀ w h, ev ≠ VIDEORESIZE w h) →
  main_loop_event env ev s = Ok s' →
  ∃ s1, Desktop.handle_event env ev s = Ok s1 ∧
    Desktop.dispatched s1 = Desktop.dispatched s ++ forwarded env ev s ∧
    (∀ win, win ∈ forwarded env ev s ↔
       Desktop.sleeping (Desktop.dt s) = false ∧
       (∃ s2, and_then (Desktop.route_click env ev s) (Desktop.power_dialog ev)
                = Next s2) ∧
       Desktop.top_hit (mouse env) s = Some win) ∧
    Desktop.windows (Desktop.dt s') = Desktop.windows (Desktop.dt s1) ∧
    Desktop.dispatched s' = Desktop.dispatched s1 ++ Desktop.windows (Desktop.dt s1) ∧
    (NoDup (Desktop.windows (Desktop.dt s1)) →
     ∀ win, win ∈ Desktop.windows (Desktop.dt s1) →
       count_occ Nat.eq_dec
         (forwarded env ev s ++ Desktop.windows (Desktop.dt s1)) win =
       if bool_decide (win ∈ forwarded env ev s) then 2%nat else 1%nat).
Proof.
  intros Hq Hv. rewrite main_loop_event_unfold.
  destruct (before_forwarding env ev s) as [s2|x] eqn:E; simpl; [|done].
  intros Hf. apply forward_all_handled in Hf as [[Hd _ _ _ _] Hdisp].
  assert (∃ s1, Desktop.handle_event env ev s = Ok s1 ∧ s2 = icon_drag ev s1)
    as (s1 & He & ->).
  { unfold before_forwarding in E.
    destruct ev; try done; try (by destruct (Hv w h));
      (destruct (Desktop.handle_event env _ s) as [s1|] eqn:E1; simpl in E;
       [inversion E; eauto | done]). }
  assert (Desktop.windows (Desktop.dt (icon_drag ev s1)) = Desktop.windows (Desktop.dt s1)
          ∧ Desktop.dispatched (icon_drag ev s1) = Desktop.dispatched s1) as [Hw Hdi].
  { unfold icon_drag. by repeat case_match. }
  exists s1. split; [done|]. split; [by apply handle_event_forwarded|].
  split; [intros win; apply forwarded_elem|].
  split; [by rewrite Hd, Hw|]. split; [by rewrite Hdisp, Hw, Hdi|].
  intros Hnd win Hin. rewrite count_occ_app, forwarded_count.
  assert (count_occ Nat.eq_dec (Desktop.windows (Desktop.dt s1)) win = 1%nat) as ->.
  { apply NoDup_count_occ'; [|by apply list_elem_of_In].
    by apply NoDup_ListNoDup. }
  by destruct (bool_decide _).
Qed.

Lemma main_loop_forwarding_witness :
  MOUSEMOTION (400, 300) ≠ QUIT ∧
  (∀ w h, MOUSEMOTION (400, 300) ≠ VIDEORESIZE w h) ∧
  forwarded (mkEnv (400, 300) false 2000) (MOUSEMOTION (400, 300)) two_world
    = [1%nat] ∧
  ∃ s' s1,
    main_loop_event (mkEnv (400, 300) false 2000) (MOUSEMOTION (400, 300))
      two_world = Ok s' ∧
    Desktop.handle_event (mkEnv (400, 300) false 2000) (MOUSEMOTION (400, 300))
      two_world = Ok s1 ∧
    Desktop.dispatched s1 = Desktop.dispatched two_world ++ [1%nat] ∧
    Desktop.windows (Desktop.dt s') = Desktop.windows (Desktop.dt s1) ∧
    Desktop.dispatched s' = Desktop.dispatched s1 ++ Desktop.windows (Desktop.dt s1).
Proof.
  assert (MOUSEMOTION (400, 300) ≠ QUIT) as H1 by discriminate.
  assert (∀ w h, MOUSEMOTION (400, 300) ≠ VIDEORESIZE w h) as H2 by discriminate.
  split; [exact H1|]. split; [exact H2|]. split; [reflexivity|].
  eexists.
  assert (main_loop_event (mkEnv (400, 300) false 2000) (MOUSEMOTION (400, 300))
            two_world = Ok _) as H3 by (vm_compute; reflexivity).
  destruct (main_loop_forwarding _ _ _ _ H1 H2 H3) as (s1 & Ha & Hb & _ & Hc & Hd & _).
  exists s1. exact (conj H3 (conj Ha (conj Hb (conj Hc Hd)))).
Defined.

(** ** Sleep *)

Lemma set_heap_same s : Desktop.set_heap (Desktop.heap s) s = s.
Proof. by destruct s. Qed.

Lemma set_icons_same s :
  Desktop.set_icons (Desktop.icons (Desktop.dt s)) s = s.
Proof. by destruct s as [? ? [] ? ?]. Qed.

Lemma icons_idle_release (l : list Icon.t) :
  (∀ ico, ico ∈ l → Icon.dragging ico = false) → map icon_release l = l.
Proof.
  induction l as [|ico l IH]; simpl; intros Hd; [done|].
  rewrite IH by (intros i Hi; apply Hd; by right).
  f_equal. unfold icon_release. rewrite <- (Hd ico) by left. by destruct ico.
Qed.

Lemma icons_idle_move pos (l : list Icon.t) :
  (∀ ico, ico ∈ l → Icon.dragging ico = false) → map (icon_move pos) l = l.
Proof.
  induction l as [|ico l IH]; simpl; intros Hd; [done|].
  rewrite IH by (intros i Hi; apply Hd; by right).
  f_equal. unfold icon_move. by rewrite (Hd ico) by left.
Qed.

Lemma icon_drag_idle ev s :
  (∀ ico, ico ∈ Desktop.icons (Desktop.dt s) → Icon.dragging ico = false) →
  icon_drag ev s = s.
Proof.
  intros Hd. unfold icon_drag.
  destruct ev as [button pos|button pos|pos|key|key| |w h|ty]; try done.
  - destruct button as [|[p|p|]|p]; try done.
    rewrite icons_idle_release by done. apply set_icons_same.
  - rewrite icons_idle_move by done. apply set_icons_same.
Qed.

(** The handlers of minimized windows return at once: forwarding an event
    to them only adds to the record of calls. *)
Lemma forward_all_minimized e l s :
  (∀ win, win ∈ l →
     ∃ o, Desktop.heap s !! win = Some o ∧ Window.minimized o = true) →
  forward_all e l s =
    Ok (Desktop.set_dispatched (Desktop.dispatched s ++ l) s).
Proof.
  revert s. induction l as [|win l IH]; simpl; intros s Hm.
  - rewrite app_nil_r. by destruct s.
  - destruct (Hm win) as (o & Ho & Hmin); [left|].
    unfold Desktop.call_handle_event. rewrite Ho.
    rewrite (window_handle_event_minimized _ _ _ Hmin). simpl.
    rewrite list_insert_id by done. rewrite set_heap_same.
    rewrite IH.
    + simpl. by rewrite <- app_assoc.
    + intros w Hw. simpl. apply Hm. by right.
Qed.

Lemma asleep_only_wakes env ev s :
  well_formed s → all_minimized s →
  Desktop.sleeping (Desktop.dt s) = true →
  (∀ ico, ico ∈ Desktop.icons (Desktop.dt s) → Icon.dragging ico = false) →
  main_loop_event env ev s =
    Ok (Desktop.set_dispatched
          (Desktop.dispatched s ++ Desktop.windows (Desktop.dt s))
          (match ev with
           | QUIT => Desktop.set_running false s
           | VIDEORESIZE w h => Desktop.set_screen (w, h) s
           | MOUSEBUTTONDOWN _ _ | KEYDOWN _ => Desktop.set_sleeping false s
           | _ => s
           end)).
Proof.
  intros [Hnd Hb] Hmin Hs Hd. rewrite main_loop_event_unfold.
  assert (∀ s1, Desktop.heap s1 = Desktop.heap s →
                Desktop.windows (Desktop.dt s1) = Desktop.windows (Desktop.dt s) →
    forward_all ev (Desktop.windows (Desktop.dt s1)) s1 =
      Ok (Desktop.set_dispatched
            (Desktop.dispatched s1 ++ Desktop.windows (Desktop.dt s)) s1)) as Hf.
  { intros s1 Hh Hw. rewrite <- Hw. apply forward_all_minimized.
    intros win Hin. rewrite Hw in Hin. rewrite Hh.
    destruct (lookup_lt_is_Some_2 (Desktop.heap s) win (Hb _ Hin)) as [o Ho].
    exists o. split; [done|]. by eapply Hmin. }
  unfold before_forwarding.
  destruct ev as [button pos|button pos|pos|key|key| |w h|ty];
    rewrite ?(handle_event_asleep _ _ _ Hs); unfold mbind, result_bind;
    rewrite ?icon_drag_idle by done; by rewrite Hf.
Qed.

(** C6 as stated fails on the code.  The main loop moves dragged icons
    itself, whether the desktop sleeps or not: on a desktop put to sleep
    while an icon was mid-drag, a pointer motion moves that icon (here from
    (24, 24) to (294, 294)) and the desktop stays asleep. *)
Lemma sleeping_counterexample :
  boot doze_mid_drag = Ok dozing_world ∧
  Desktop.sleeping (Desktop.dt dozing_world) = true ∧
  Icon.rect <$> Desktop.icons (Desktop.dt dozing_world) !! 0%nat
    = Some (Rect.mk 24 24 64 64) ∧
  ∃ s', main_loop_event (mkEnv (300, 300) false 5000) (MOUSEMOTION (300, 300))
          dozing_world = Ok s' ∧
        Desktop.sleeping (Desktop.dt s') = true ∧
        Icon.rect <$> Desktop.icons (Desktop.dt s') !! 0%nat
          = Some (Rect.mk 294 294 64 64).
Proof.
  split; [vm_compute; reflexivity|]. split; [reflexivity|]. split; [reflexivity|].
  eexists. split; [vm_compute; reflexivity|]. split; reflexivity.
Qed.

(** C6, as the code has it.  On every sleeping desktop the program reaches
    on which no icon is mid-drag, an iteration of the main loop completes
    and changes nothing but this: a mouse-button-down or a key-down clears
    [sleeping]; QUIT clears [running]; VIDEORESIZE sets the display size.
    Windows, applications, icons, menus and the power dialog stay as they
    are: the handlers of the windows are still called by the main loop, and
    return at once, every window of a sleeping desktop being minimized. *)
Theorem sleeping_blocks_input (sts : list Step) (env : Env) (ev : Event)
  (s : Desktop.world) :
  boot sts = Ok s →
  Desktop.sleeping (Desktop.dt s) = true →
  (∀ ico, ico ∈ Desktop.icons (Desktop.dt s) → Icon.dragging ico = false) →
  main_loop_event env ev s =
    Ok (Desktop.set_dispatched
          (Desktop.dispatched s ++ Desktop.windows (Desktop.dt s))
          (match ev with
           | QUIT => Desktop.set_running false s
           | VIDEORESIZE w h => Desktop.set_screen (w, h) s
           | MOUSEBUTTONDOWN _ _ | KEYDOWN _ => Desktop.set_sleeping false s
           | _ => s
           end)).
Proof.
  intros Hb Hs Hd. destruct (boot_inv _ _ Hb) as [Hwf Ha].
  apply asleep_only_wakes; auto.
Qed.

Lemma sleeping_blocks_input_witness :
  boot doze = Ok asleep_world ∧
  Desktop.sleeping (Desktop.dt asleep_world) = true ∧
  (∀ ico, ico ∈ Desktop.icons (Desktop.dt asleep_world) →
          Icon.dragging ico = false) ∧
  main_loop_event (mkEnv (300, 300) false 5000) (KEYDOWN 32) asleep_world =
    Ok (Desktop.set_dispatched (Desktop.dispatched asleep_world ++ [0%nat])
          (Desktop.set_sleeping false asleep_world)).
Proof.
  assert (boot doze = Ok asleep_world) as H1 by (vm_compute; reflexivity).
  assert (∀ ico, ico ∈ Desktop.icons (Desktop.dt asleep_world) →
                 Icon.dragging ico = false) as H3.
  { apply Forall_forall. apply (bool_decide_unpack _). vm_compute. exact I. }
  exact (conj H1 (conj eq_refl (conj H3
    (sleeping_blocks_input doze (mkEnv (300, 300) false 5000) (KEYDOWN 32)
       asleep_world H1 eq_refl H3)))).
Defined.

(** ** The power dialog *)

Lemma action_rects_disjoint pr pos (i j : nat) :
  i ≠ j →
  Rect.collidepoint (Desktop.power_action_rect pr i) pos = true →
  Rect.collidepoint (Desktop.power_action_rect pr j) pos = false.
Proof.
  intros Hne. unfold Rect.collidepoint, Desktop.power_action_rect. simpl.
  rewrite !andb_true_iff, !Z.leb_le, !Z.ltb_lt. intros [[[H1 H2] H3] H4].
  destruct (Rect.x pr + 24 + Z.of_nat j * (92 + 12) <=? pos.1) eqn:E1;
    [|done].
  destruct (pos.1 <? Rect.x pr + 24 + Z.of_nat j * (92 + 12) + 92) eqn:E2;
    [|done].
  apply Z.leb_le in E1. apply Z.ltb_lt in E2. lia.
Qed.

Lemma power_dialog_hit pos s pr (i : nat) :
  Desktop.power_open (Desktop.dt s) = true →
  Desktop.power_rect (Desktop.dt s) = Some pr →
  (i < 4)%nat →
  Rect.collidepoint (Desktop.power_action_rect pr i) pos = true →
  Desktop.power_dialog (MOUSEBUTTONDOWN 1 pos) s =
    match i with
    | 0%nat => Throw SystemExit
    | 1%nat => returning (Desktop.spawn_window "Notes" (540, 420)
                            (Desktop.set_windows [] (Desktop.set_power_open false s)))
    | 2%nat => Return (Desktop.set_sleeping true
                         (Desktop.minimize_all (Desktop.set_power_open false s)))
    | _ => Return (Desktop.set_power_open false s)
    end.
Proof.
  intros Ho Hr Hi Hc. unfold Desktop.power_dialog, Desktop.power_cmds.
  rewrite Ho, Hr. simpl.
  destruct i as [|[|[|[|i]]]]; [| | | |lia].
  - by rewrite Hc.
  - rewrite (action_rects_disjoint pr pos 1 0), Hc; done.
  - rewrite (action_rects_disjoint pr pos 2 0), (action_rects_disjoint pr pos 2 1), Hc;
      done.
  - rewrite (action_rects_disjoint pr pos 3 0), (action_rects_disjoint pr pos 3 1),
      (action_rects_disjoint pr pos 3 2), Hc; done.
Qed.

Lemma focus_windows_only win s s' :
  Desktop.focus win s = Ok s' → ∃ l, s' = Desktop.set_windows l s.
Proof.
  unfold Desktop.focus.
  repeat case_match; intros [= <-]; eauto.
  all: exists (Desktop.windows (Desktop.dt s)); by rewrite set_windows_same.
Qed.

(** C7 as stated fails on the code in two ways, because the power dialog
    is consulted after the ordinary click routing, not before it.  A click
    on Cancel first brings to the front the window lying under the pointer:
    the z-order changes from [0; 1] to [1; 0].  And a click on Shutdown with
    an icon lying under the pointer starts a drag of that icon and returns:
    the dialog stays open and the process goes on. *)
Lemma power_dialog_counterexample :
  (boot dialog_over_windows = Ok dialog_world ∧
   Desktop.power_open (Desktop.dt dialog_world) = true ∧
   Desktop.power_rect (Desktop.dt dialog_world) = Some (Rect.mk 430 270 420 180) ∧
   Rect.collidepoint (Desktop.power_action_rect (Rect.mk 430 270 420 180) 3)
     (800, 350) = true ∧
   Desktop.windows (Desktop.dt dialog_world) = [0; 1]%nat ∧
   ∃ s', Desktop.handle_event (mkEnv (800, 350) false 6000)
           (MOUSEBUTTONDOWN 1 (800, 350)) dialog_world = Ok s' ∧
         Desktop.power_open (Desktop.dt s') = false ∧
         Desktop.windows (Desktop.dt s') = [1; 0]%nat) ∧
  (boot dialog_over_icon = Ok icon_dialog_world ∧
   Desktop.power_open (Desktop.dt icon_dialog_world) = true ∧
   Desktop.power_rect (Desktop.dt icon_dialog_world)
     = Some (Rect.mk 430 270 420 180) ∧
   Rect.collidepoint (Desktop.power_action_rect (Rect.mk 430 270 420 180) 0)
     (470, 350) = true ∧
   ∃ s', Desktop.handle_event (mkEnv (470, 350) false 6000)
           (MOUSEBUTTONDOWN 1 (470, 350)) icon_dialog_world = Ok s' ∧
         Desktop.power_open (Desktop.dt s') = true ∧
         Icon.dragging <$> Desktop.icons (Desktop.dt s') !! 0%nat = Some true).
Proof.
  split.
  - split; [vm_compute; reflexivity|]. split; [reflexivity|].
    split; [reflexivity|]. split; [reflexivity|]. split; [reflexivity|].
    eexists. split; [vm_compute; reflexivity|]. split; reflexivity.
  - split; [vm_compute; reflexivity|]. split; [reflexivity|].
    split; [reflexivity|]. split; [reflexivity|].
    eexists. split; [vm_compute; reflexivity|]. split; reflexivity.
Qed.

(** C7, as the code has it.  The desktop is awake, the power dialog is open
    and has been drawn, and a left-button press lands on the action
    rectangle number [i] (Shutdown, Restart, Sleep, Cancel).  If no earlier
    stage of the click routing returns on that press (start button, entry or
    power button of the open start menu, icon, task-bar button, title button
    of the window under the pointer), these stages leave a state [s1] that
    differs from the initial one in this only: the start menu may have been
    closed, and the topmost window under the pointer, if any, has been
    focused.  The dialog is then closed and, on [s1]: Shutdown exits;
    Restart empties the z-order and spawns one Notes window of size
    (540, 420) at (180, 120); Sleep minimizes every window of the z-order
    and sets [sleeping]; Cancel does nothing more. *)
Theorem power_dialog_actions (env : Env) (pos : Pos) (s s1 : Desktop.world)
  (pr : Rect.t) (i : nat) :
  Desktop.sleeping (Desktop.dt s) = false →
  Desktop.power_open (Desktop.dt s) = true →
  Desktop.power_rect (Desktop.dt s) = Some pr →
  (i < 4)%nat →
  Rect.collidepoint (Desktop.power_action_rect pr i) pos = true →
  Desktop.route_click env (MOUSEBUTTONDOWN 1 pos) s = Next s1 →
  (∃ s0, (s0 = s ∨ s0 = Desktop.set_start_open false s) ∧
         ((Desktop.top_hit (mouse env) s = None ∧ s1 = s0) ∨
          (∃ win, Desktop.top_hit (mouse env) s = Some win ∧
                  Desktop.focus win s0 = Ok s1))) ∧
  Desktop.handle_event env (MOUSEBUTTONDOWN 1 pos) s =
    match i with
    | 0%nat => Raise SystemExit
    | 1%nat =>
        Ok (Desktop.set_windows [length (Desktop.heap s)]
              (Desktop.set_heap
                 (Desktop.heap s ++
                    [Window.make (App.make NotesApp) "Notes"
                       (Rect.mk 180 120 540 420) (length (Desktop.heap s))])
                 (Desktop.set_power_open false s1)))
    | 2%nat =>
        Ok (Desktop.set_sleeping true
              (Desktop.minimize_all (Desktop.set_power_open false s1)))
    | _ => Ok (Desktop.set_power_open false s1)
    end ∧
  all_minimized (Desktop.minimize_all (Desktop.set_power_open false s1)).
Proof.
  intros Hs Ho Hr Hi Hc Hn.
  pose proof (route_click_next _ _ _ _ Hn) as Hs1.
  split; [exact Hs1|]. split; [|apply minimize_all_all].
  assert (∃ l b, s1 = Desktop.set_windows l (Desktop.set_start_open b s))
    as (l & b & E).
  { destruct Hs1 as (s0 & Hs0 & Hs1).
    assert (∃ b, s0 = Desktop.set_start_open b s) as [b ->].
    { destruct Hs0 as [->| ->]; [|eauto].
      exists (Desktop.start_open (Desktop.dt s)). by destruct s as [? ? [] ? ?]. }
    destruct Hs1 as [[_ ->]|(win & _ & Hf)].
    - exists (Desktop.windows (Desktop.dt s)), b. by destruct s as [? ? [] ? ?].
    - apply focus_windows_only in Hf as [l ->]. eauto. }
  pose proof (power_dialog_hit pos s1 pr i) as Hp.
  rewrite E in Hp at 1 2. specialize (Hp Ho Hr Hi Hc).
  unfold Desktop.handle_event. rewrite Hs, Hn. simpl. rewrite Hp.
  destruct i as [|[|[|i]]]; simpl; try done.
  rewrite (spawn_window_known "Notes" (540, 420) NotesApp (App.make NotesApp)
             (Window.make (App.make NotesApp) "Notes" (Rect.mk 180 120 540 420)
                (length (Desktop.heap s))));
    [|reflexivity|reflexivity|subst s1; reflexivity].
  simpl. subst s1. done.
Qed.

Lemma power_dialog_actions_witness :
  Desktop.sleeping (Desktop.dt plain_dialog_world) = false ∧
  Desktop.power_open (Desktop.dt plain_dialog_world) = true ∧
  Desktop.power_rect (Desktop.dt plain_dialog_world)
    = Some (Rect.mk 430 270 420 180) ∧
  (3 < 4)%nat ∧
  Rect.collidepoint (Desktop.power_action_rect (Rect.mk 430 270 420 180) 3)
    (800, 350) = true ∧
  Desktop.route_click (mkEnv (800, 350) false 6000) (MOUSEBUTTONDOWN 1 (800, 350))
    plain_dialog_world = Next plain_dialog_world ∧
  Desktop.handle_event (mkEnv (800, 350) false 6000) (MOUSEBUTTONDOWN 1 (800, 350))
    plain_dialog_world = Ok (Desktop.set_power_open false plain_dialog_world).
Proof.
  assert (Desktop.route_click (mkEnv (800, 350) false 6000)
            (MOUSEBUTTONDOWN 1 (800, 350)) plain_dialog_world
          = Next plain_dialog_world) as Hn by (vm_compute; reflexivity).
  assert (3 < 4)%nat as Hi by lia.
  split; [reflexivity|]. split; [reflexivity|]. split; [reflexivity|].
  split; [exact Hi|]. split; [reflexivity|]. split; [exact Hn|].
  exact (proj1 (proj2 (power_dialog_actions (mkEnv (800, 350) false 6000) (800, 350)
    plain_dialog_world plain_dialog_world (Rect.mk 430 270 420 180) 3
    eq_refl eq_refl eq_refl Hi eq_refl Hn))).
Defined.

(** ** Consequences for the running program *)

(** On every desktop the program reaches, closing a window twice is closing
    it once. *)
Corollary close_twice_reached sts s win :
  boot sts = Ok s →
  Desktop.close win (Desktop.close win s) = Desktop.close win s.
Proof.
  intros [[Hnd _] _]%boot_inv.
  destruct (decide (win ∈ Desktop.windows (Desktop.dt s))) as [Hin|Hin].
  - destruct (close_present _ _ Hin) as (l1 & l2 & Hw & Hn1 & ->).
    apply close_absent. simpl. rewrite Hw in Hnd.
    apply NoDup_app in Hnd as (_ & _ & [Hn2 _]%NoDup_cons).
    rewrite elem_of_app. tauto.
  - rewrite (close_absent _ _ Hin). by apply close_absent.
Qed.

(** A left-button press on the title button [□] of the topmost window under
    the pointer runs the maximize toggle on that window and focuses it. *)
Lemma click_windows_maximize m s win o btns :
  Desktop.top_hit m s = Some win →
  Desktop.heap s !! win = Some o →
  Rect.collidepoint (Window.titlebar_rect o) m = true →
  Window._btns o = Some btns →
  Window.hit_buttons btns m = Some "□"%string →
  Desktop.click_windows m s =
    returning (Desktop.focus win
                 (Desktop.update_win win (Desktop.toggle_maximize (Desktop.screen s)) s)).
Proof.
  intros Ht Ho Hc Hb Hh. unfold Desktop.click_windows, Window._hit_title_buttons.
  by rewrite Ht, Ho, Hc, Hb, Hh.
Qed.

(** The maximize button pressed twice on the initial desktop, through the
    main loop: the notes window gets its frame back. *)
Example maximize_twice_by_clicks :
  (s ← boot [ StepDraw; press 1000 (670, 130); release 1050 (670, 130); StepDraw;
              press 2000 (1220, 20); release 2050 (1220, 20); StepDraw ];
   Ok (Window.rect <$> Desktop.heap s !! 0%nat))
  = Ok (Some (Rect.mk 180 120 540 420)).
Proof. vm_compute. reflexivity. Qed.

(** The scenarios of the specification, through the main loop: a click inside
    the lower of two windows brings it to the front; a click on the close
    button removes the window from the z-order. *)
Example click_brings_to_front :
  (s ← boot (open_second ++ [press 2000 (185, 300)]);
   Ok (Desktop.windows (Desktop.dt s))) = Ok [1; 0]%nat.
Proof. vm_compute. reflexivity. Qed.

Example click_close_button :
  (s ← boot [StepDraw; press 1000 (700, 130)];
   Ok (Desktop.windows (Desktop.dt s))) = Ok [].
Proof. vm_compute. reflexivity. Qed.


(** * Further properties of the window manager *)

(** ** focus and close as list operations *)

Lemma without_absent win l : win ∉ l → without win l = l.
Proof.
  unfold without. induction l as [|x l IH]; [done|].
  intros [Hne Hn]%not_elem_of_cons. rewrite filter_cons_True by done.
  by rewrite IH.
Qed.

Lemma without_middle win l1 l2 :
  win ∉ l1 → win ∉ l2 → without win (l1 ++ win :: l2) = l1 ++ l2.
Proof.
  intros H1 H2. unfold without. rewrite filter_app, filter_cons_False by (by intros ?).
  fold (without win l1) (without win l2). by rewrite !without_absent.
Qed.

(** X1.  On a z-order without duplicates, focusing a window of the z-order
    moves it to the end and keeps the other windows in their order; nothing
    else on the desktop changes, and focusing it again changes nothing. *)
Theorem focus_moves_to_top (win : nat) (s : Desktop.world) :
  NoDup (Desktop.windows (Desktop.dt s)) →
  win ∈ Desktop.windows (Desktop.dt s) →
  let s' := Desktop.set_windows
              (without win (Desktop.windows (Desktop.dt s)) ++ [win]) s in
  Desktop.focus win s = Ok s' ∧ Desktop.focus win s' = Ok s'.
Proof.
  intros Hnd Hin s'.
  assert (Desktop.focus win s' = Ok s') as Hidem.
  { apply focus_top. subst s'. simpl. apply last_snoc. }
  split; [|done].
  destruct (last (Desktop.windows (Desktop.dt s))) as [top|] eqn:Hl.
  2:{ apply last_None in Hl. rewrite Hl in Hin. by apply not_elem_of_nil in Hin. }
  destruct (decide (top = win)) as [->|Hne].
  - rewrite (focus_top _ _ Hl). f_equal. subst s'.
    apply last_Some in Hl as [l' Hl]. rewrite Hl in *.
    apply NoDup_app in Hnd as (_ & Hd & _).
    assert (win ∉ l') as Hn by (intros Hx; apply (Hd _ Hx); left).
    rewrite <- (app_nil_r (l' ++ [win])) at 1.
    rewrite <- app_assoc. simpl. rewrite (without_middle win l' []) by (done || apply not_elem_of_nil).
    rewrite app_nil_r, <- Hl. symmetry. apply set_windows_same.
  - destruct (focus_below _ _ _ Hl Hne Hin) as (l1 & l2 & Hw & Hn1 & ->).
    f_equal. subst s'. rewrite Hw in *.
    apply NoDup_app in Hnd as (_ & _ & [Hn2 _]%NoDup_cons).
    by rewrite without_middle, <- app_assoc.
Qed.

Lemma focus_moves_to_top_witness :
  NoDup (Desktop.windows (Desktop.dt two_world)) ∧
  0%nat ∈ Desktop.windows (Desktop.dt two_world) ∧
  Desktop.focus 0 two_world = Ok (Desktop.set_windows [1; 0]%nat two_world).
Proof.
  assert (NoDup (Desktop.windows (Desktop.dt two_world))) as Hd.
  { apply (bool_decide_unpack _). vm_compute. exact I. }
  assert (0%nat ∈ Desktop.windows (Desktop.dt two_world)) as Hi.
  { apply (bool_decide_unpack _). vm_compute. exact I. }
  exact (conj Hd (conj Hi (proj1 (focus_moves_to_top 0 two_world Hd Hi)))).
Defined.

(** X2.  Focusing a window that is not in the z-order does nothing when the
    z-order is empty and raises [ValueError] (from [list.remove]) when it is
    not; the desktop is never changed. *)
Theorem focus_absent_window (win : nat) (s : Desktop.world) :
  win ∉ Desktop.windows (Desktop.dt s) →
  Desktop.focus win s =
    match Desktop.windows (Desktop.dt s) with
    | [] => Ok s
    | _ :: _ => Raise ValueError
    end.
Proof.
  intros Hn. destruct (Desktop.windows (Desktop.dt s)) as [|x l] eqn:Hw.
  - by apply focus_empty.
  - destruct (last (x :: l)) as [top|] eqn:Hl; [|by apply last_None in Hl].
    rewrite <- Hw in Hl, Hn. apply (focus_absent win top); [done | | done].
    intros ->. apply Hn. by apply last_Some_elem_of.
Qed.

Lemma focus_absent_window_witness :
  (5%nat ∉ Desktop.windows (Desktop.dt two_world)) ∧
  Desktop.focus 5 two_world = Raise ValueError.
Proof.
  assert (5%nat ∉ Desktop.windows (Desktop.dt two_world)) as Hn.
  { apply (bool_decide_unpack _). vm_compute. exact I. }
  exact (conj Hn (focus_absent_window 5 two_world Hn)).
Defined.

(** X3.  On a z-order without duplicates, [close] removes the window from
    the z-order, keeps the other windows in their order and changes nothing
    else: the window object itself and its application stay as they were,
    only unreachable from the desktop. *)
Theorem close_removes (win : nat) (s : Desktop.world) :
  NoDup (Desktop.windows (Desktop.dt s)) →
  Desktop.close win s =
    Desktop.set_windows (without win (Desktop.windows (Desktop.dt s))) s ∧
  (win ∉ Desktop.windows (Desktop.dt (Desktop.close win s))) ∧
  Desktop.heap (Desktop.close win s) = Desktop.heap s.
Proof.
  intros Hnd.
  assert (Desktop.close win s =
          Desktop.set_windows (without win (Desktop.windows (Desktop.dt s))) s) as E.
  { destruct (decide (win ∈ Desktop.windows (Desktop.dt s))) as [Hin|Hin].
    - destruct (close_present _ _ Hin) as (l1 & l2 & Hw & Hn1 & ->).
      rewrite Hw in *. apply NoDup_app in Hnd as (_ & _ & [Hn2 _]%NoDup_cons).
      by rewrite without_middle.
    - rewrite (close_absent _ _ Hin), without_absent by done.
      symmetry. apply set_windows_same. }
  rewrite E. split; [done|]. split; [|done]. simpl.
  unfold without. rewrite list_elem_of_filter. tauto.
Qed.

Lemma close_removes_witness :
  NoDup (Desktop.windows (Desktop.dt two_world)) ∧
  Desktop.close 0 two_world = Desktop.set_windows [1%nat] two_world.
Proof.
  assert (NoDup (Desktop.windows (Desktop.dt two_world))) as Hd.
  { apply (bool_decide_unpack _). vm_compute. exact I. }
  exact (conj Hd (proj1 (close_removes 0 two_world Hd))).
Defined.

(** ** Creation of windows *)

Lemma registry_key_is_name app_name cls :
  assoc app_name APP_MAP = Some cls → class_name cls = app_name.
Proof.
  unfold APP_MAP. simpl.
  repeat (case_match;
          [match goal with
           | E : (_ =? _)%string = true |- _ => apply String.eqb_eq in E; subst
           end; by intros [= <-] |]).
  done.
Qed.

(** [pygame.Rect] keeps a value that fits in 32 bits. *)
Lemma c_int_small (v : Z) : - 2 ^ 31 <= v < 2 ^ 31 → Rect.c_int v = Some v.
Proof.
  intros Hv. unfold Rect.c_int.
  assert ((- 2 ^ 63 <=? v) && (v <? 2 ^ 63) = true) as ->.
  { apply andb_true_iff. split; [apply Z.leb_le|apply Z.ltb_lt]; lia. }
  f_equal. rewrite Z.mod_small by lia. lia.
Qed.

Lemma from_tuple_fields (vx vy vw vh : Z) (r : Rect.t) :
  Rect.from_tuple (vx, vy, vw, vh) = Some r →
  Rect.c_int vx = Some (Rect.x r) ∧ Rect.c_int vy = Some (Rect.y r) ∧
  Rect.c_int vw = Some (Rect.w r) ∧ Rect.c_int vh = Some (Rect.h r).
Proof.
  unfold Rect.from_tuple.
  destruct (Rect.c_int vx), (Rect.c_int vy), (Rect.c_int vw), (Rect.c_int vh);
    try done.
  by intros [= <-].
Qed.

Lemma c_int_accepts (v : Z) :
  - 2 ^ 63 <= v < 2 ^ 63 → ∃ v', Rect.c_int v = Some v'.
Proof.
  intros Hv. unfold Rect.c_int.
  assert ((- 2 ^ 63 <=? v) && (v <? 2 ^ 63) = true) as ->; [|eauto].
  apply andb_true_iff. split; [apply Z.leb_le|apply Z.ltb_lt]; lia.
Qed.

(** [spawn_window] returns when the constructor does and the cascade
    position and the size fit in 64 bits. *)
Lemma spawn_window_returns app_name size cls a s :
  assoc app_name APP_MAP = Some cls →
  App.new cls (Desktop.memory_json s) = Ok a →
  180 + Z.of_nat (length (Desktop.windows (Desktop.dt s))) * 16 < 2 ^ 63 →
  fst size < 2 ^ 63 → snd size < 2 ^ 63 →
  ∃ r, Desktop.spawn_window app_name size s =
         Ok (Desktop.set_windows
               (Desktop.windows (Desktop.dt s) ++ [length (Desktop.heap s)])
               (Desktop.set_heap
                  (Desktop.heap s ++
                     [Window.make a (App.name a) r (length (Desktop.heap s))]) s)).
Proof.
  intros Hc Ha Hn Hw Hh.
  set (n := Z.of_nat (length (Desktop.windows (Desktop.dt s)))) in *.
  assert (0 <= n) as H0 by (subst n; lia).
  destruct (c_int_accepts (180 + n * 16)) as [x Hx]; [lia|].
  destruct (c_int_accepts (120 + n * 12)) as [y Hy]; [lia|].
  destruct (c_int_accepts (Z.max MIN_W (fst size))) as [w Hw']; [unfold MIN_W; lia|].
  destruct (c_int_accepts (Z.max MIN_H (snd size))) as [h Hh']; [unfold MIN_H; lia|].
  exists (Rect.mk x y w h). eapply spawn_window_known; [done | done |].
  unfold Window.new, Rect.from_tuple. fold n. by rewrite Hx, Hy, Hw', Hh'.
Qed.

(** X4.  For a registered name whose constructor returns, [spawn_window]
    asks [pygame.Rect] for the frame at the cascade position
    (180 + 16 n, 120 + 12 n), for a z-order of [n] windows, with the asked
    size raised to at least MIN_W by MIN_H.  [pygame.Rect] keeps C ints: it
    refuses a value outside 64 bits, and [spawn_window] then raises
    [TypeError]; it wraps any other value to 32 bits.  The new window is on
    top of the z-order, titled with the name, with that frame; each
    coordinate below 2^31 is kept as it is, and the width (height) is then
    at least MIN_W (MIN_H).  The window starts neither minimized nor
    maximized, and the windows that existed are untouched. *)
Theorem spawn_window_frame (app_name : string) (size : Z * Z) (cls : AppClass)
  (a : App.t) (s : Desktop.world) :
  assoc app_name APP_MAP = Some cls →
  App.new cls (Desktop.memory_json s) = Ok a →
  let n := Z.of_nat (length (Desktop.windows (Desktop.dt s))) in
  match Rect.from_tuple (180 + n * 16, 120 + n * 12,
                         Z.max MIN_W (fst size), Z.max MIN_H (snd size)) with
  | None => Desktop.spawn_window app_name size s = Raise TypeError
  | Some r =>
      ∃ s' o,
        Desktop.spawn_window app_name size s = Ok s' ∧
        last (Desktop.windows (Desktop.dt s')) = Some (length (Desktop.heap s)) ∧
        Desktop.heap s' !! length (Desktop.heap s) = Some o ∧
        Window.title o = app_name ∧
        Window.app o = a ∧
        Window.rect o = r ∧
        Rect.c_int (180 + n * 16) = Some (Rect.x r) ∧
        Rect.c_int (120 + n * 12) = Some (Rect.y r) ∧
        Rect.c_int (Z.max MIN_W (fst size)) = Some (Rect.w r) ∧
        Rect.c_int (Z.max MIN_H (snd size)) = Some (Rect.h r) ∧
        (180 + n * 16 < 2 ^ 31 → Rect.x r = 180 + n * 16) ∧
        (120 + n * 12 < 2 ^ 31 → Rect.y r = 120 + n * 12) ∧
        (fst size < 2 ^ 31 →
         Rect.w r = Z.max MIN_W (fst size) ∧ MIN_W <= Rect.w r) ∧
        (snd size < 2 ^ 31 →
         Rect.h r = Z.max MIN_H (snd size) ∧ MIN_H <= Rect.h r) ∧
        Window.minimized o = false ∧ Window.maximized o = false ∧
        (∀ i, (i < length (Desktop.heap s))%nat →
              Desktop.heap s' !! i = Desktop.heap s !! i)
  end.
Proof.
  intros Hc Ha n.
  destruct (Rect.from_tuple _) as [r|] eqn:Er.
  2:{ unfold Desktop.spawn_window, APP_MAP_getitem. rewrite Hc. simpl.
      rewrite Ha. simpl. unfold Window.new. fold n. by rewrite Er. }
  pose proof (app_new_inv _ _ _ Ha) as ->.
  eexists _, (Window.make (App.make cls) (class_name cls) r (length (Desktop.heap s))).
  split.
  { eapply spawn_window_known; [done | done |].
    unfold Window.new. fold n. by rewrite Er. }
  simpl. split; [apply last_snoc|].
  split; [by rewrite lookup_app_r, Nat.sub_diag by lia|].
  split; [by apply registry_key_is_name|].
  split; [done|]. split; [done|].
  destruct (from_tuple_fields _ _ _ _ _ Er) as (Hx & Hy & Hw & Hh).
  split; [done|]. split; [done|]. split; [done|]. split; [done|].
  assert (∀ v v', 0 <= v → Rect.c_int v = Some v' → v < 2 ^ 31 → v' = v) as Hk.
  { intros v v' H0 Hv Hlt. rewrite c_int_small in Hv by lia. congruence. }
  assert (0 <= n) as Hn by (subst n; lia).
  unfold MIN_W, MIN_H in *.
  split; [intros Hlt; apply Hk; [lia | done | done]|].
  split; [intros Hlt; apply Hk; [lia | done | done]|].
  split.
  { intros Hlt. rewrite (Hk _ _ (Z.le_trans _ _ _ (Z.le_0_1) (Z.le_trans 1 220 _ ltac:(lia) (Z.le_max_l _ _))) Hw) by lia. lia. }
  split.
  { intros Hlt. rewrite (Hk _ _ (Z.le_trans _ _ _ (Z.le_0_1) (Z.le_trans 1 140 _ ltac:(lia) (Z.le_max_l _ _))) Hh) by lia. lia. }
  split; [done|]. split; [done|].
  intros i Hi. by rewrite lookup_app_l.
Qed.

Lemma spawn_window_frame_witness :
  assoc "Snake" APP_MAP = Some SnakeApp ∧
  App.new SnakeApp (Desktop.memory_json two_world) = Ok (App.make SnakeApp) ∧
  (∃ s' o,
     Desktop.spawn_window "Snake" (100, 50) two_world = Ok s' ∧
     Desktop.heap s' !! 2%nat = Some o ∧
     Window.title o = "Snake"%string ∧
     Window.rect o = Rect.mk 212 144 220 140) ∧
  (∃ s' o,
     Desktop.spawn_window "Snake" (2 ^ 31, 100) two_world = Ok s' ∧
     Desktop.heap s' !! 2%nat = Some o ∧
     Window.rect o = Rect.mk 212 144 (- 2147483648) 140).
Proof.
  split; [reflexivity|]. split; [reflexivity|]. split.
  - destruct (spawn_window_frame "Snake" (100, 50) SnakeApp _ two_world
                eq_refl eq_refl)
      as (s' & o & H1 & _ & H3 & H4 & _ & H6 & _).
    exists s', o. split; [exact H1|]. split; [exact H3|]. split; [exact H4|].
    exact H6.
  - destruct (spawn_window_frame "Snake" (2 ^ 31, 100) SnakeApp _ two_world
                eq_refl eq_refl)
      as (s' & o & H1 & _ & H3 & _ & _ & H6 & _).
    exists s', o. split; [exact H1|]. split; [exact H3|]. exact H6.
Defined.

(** ** Alt+Tab *)

Lemma iter_cycle (n : nat) (l : list nat) :
  (n <= length l)%nat → Nat.iter n cycle l = drop n l ++ take n l.
Proof.
  induction n as [|n IH]; simpl; intros Hn.
  - by rewrite drop_0, app_nil_r.
  - rewrite IH by lia.
    destruct (lookup_lt_is_Some_2 l n) as [x Hx]; [lia|].
    rewrite (drop_S _ _ _ Hx), (take_S_r _ _ _ Hx). simpl.
    by rewrite <- app_assoc.
Qed.

Lemma iter_cycle_length (l : list nat) : Nat.iter (length l) cycle l = l.
Proof.
  rewrite iter_cycle by lia. by rewrite drop_all, firstn_all.
Qed.

(** A key-down on a desktop that is awake: the window under the pointer, if
    any, gets the event, then the global keys act. *)
Lemma handle_event_keydown env key s s' :
  Desktop.sleeping (Desktop.dt s) = false →
  Desktop.handle_event env (KEYDOWN key) s = Ok s' →
  ∃ s3, handled s s3 ∧ Desktop.global_keys env (KEYDOWN key) s3 = Next s'.
Proof.
  intros Hs He.
  apply (handle_event_awake _ _ _ _ Hs) in He
    as [Hr|[(s1 & Hr & Hp)|(s1 & s3 & Hr & Hp & Hf & Hk)]].
  - done.
  - simpl in Hr. inversion Hr; subst s1. unfold Desktop.power_dialog in Hp.
    by destruct (Desktop.power_open _).
  - simpl in Hr. inversion Hr; subst s1. exists s3. split; [|done].
    destruct (forward_focused_next env (KEYDOWN key) s s3) as [->|(win & _ & Hc)];
      [by left | apply handled_refl |].
    by apply call_handle_event_handled in Hc as [Hh _].
Qed.

Lemma handle_event_alt_tab env s s' :
  Desktop.sleeping (Desktop.dt s) = false →
  alt_held env = true →
  Desktop.handle_event env (KEYDOWN K_TAB) s = Ok s' →
  Desktop.windows (Desktop.dt s') = cycle (Desktop.windows (Desktop.dt s)) ∧
  Desktop.sleeping (Desktop.dt s') = false.
Proof.
  intros Hs Ha He.
  destruct (handle_event_keydown _ _ _ _ Hs He) as (s3 & [Hd _ _ _ _] & Hk).
  unfold Desktop.global_keys in Hk. rewrite Ha in Hk. simpl in Hk.
  inversion Hk; subst s'; clear Hk. rewrite Hd.
  destruct (Desktop.windows (Desktop.dt s)) as [|w rest] eqn:Hw; simpl;
    rewrite ?Hd, ?Hw; done.
Qed.

(** X5.  On a desktop that is awake, Alt+Tab sends the bottom window of the
    z-order to the top; pressed as many times as there are windows, it
    brings the z-order back to what it was. *)
Theorem alt_tab_cycles (envs : list Env) (s s' : Desktop.world) :
  Desktop.sleeping (Desktop.dt s) = false →
  Forall (fun env => alt_held env = true) envs →
  handle_events envs (KEYDOWN K_TAB) s = Ok s' →
  Desktop.windows (Desktop.dt s') =
    Nat.iter (length envs) cycle (Desktop.windows (Desktop.dt s)) ∧
  (length envs = length (Desktop.windows (Desktop.dt s)) →
   Desktop.windows (Desktop.dt s') = Desktop.windows (Desktop.dt s)).
Proof.
  intros Hs Ha He.
  assert (Desktop.windows (Desktop.dt s') =
          Nat.iter (length envs) cycle (Desktop.windows (Desktop.dt s))) as E.
  { revert s Hs He. induction Ha as [|env envs Henv Ha IH]; simpl; intros s Hs He.
    - by inversion He.
    - destruct (Desktop.handle_event env (KEYDOWN K_TAB) s) as [s1|x] eqn:E1;
        simpl in He; [|done].
      destruct (handle_event_alt_tab _ _ _ Hs Henv E1) as [Hw Hs1].
      rewrite (IH _ Hs1 He), Hw. clear.
      generalize (Desktop.windows (Desktop.dt s)). intros l.
      induction (length envs) as [|n IHn]; simpl; [done|]. by rewrite IHn. }
  split; [done|]. intros Hlen. rewrite E, Hlen. apply iter_cycle_length.
Qed.

Lemma alt_tab_cycles_witness :
  Desktop.sleeping (Desktop.dt two_world) = false ∧
  (∃ s', handle_events [mkEnv (0, 0) true 0; mkEnv (0, 0) true 0] (KEYDOWN K_TAB)
           two_world = Ok s' ∧
         Desktop.windows (Desktop.dt s') = Desktop.windows (Desktop.dt two_world)).
Proof.
  split; [reflexivity|]. eexists.
  assert (handle_events [mkEnv (0, 0) true 0; mkEnv (0, 0) true 0] (KEYDOWN K_TAB)
            two_world = Ok _) as He by (vm_compute; reflexivity).
  split; [exact He|].
  refine (proj2 (alt_tab_cycles _ two_world _ eq_refl _ He) eq_refl).
  repeat constructor.
Defined.

(** ** Geometry of a window *)

(** X6.  The title bar and the content rectangle tile the frame: on a frame
    at least as high as the title bar, a point is in the frame exactly when
    it is in one of the two, and never in both.  The resize grip lies inside
    the frame as soon as the frame is at least RESIZE_GRIP wide and high. *)
Theorem frame_tiling (o : Window.t) (p : Pos) :
  TITLEBAR_H <= Rect.h (Window.rect o) →
  Rect.collidepoint (Window.rect o) p =
    Rect.collidepoint (Window.titlebar_rect o) p
    || Rect.collidepoint (Window.content_rect o) p ∧
  Rect.collidepoint (Window.titlebar_rect o) p
    && Rect.collidepoint (Window.content_rect o) p = false ∧
  (RESIZE_GRIP <= Rect.w (Window.rect o) → RESIZE_GRIP <= Rect.h (Window.rect o) →
   Rect.collidepoint (Window.grip_rect o) p = true →
   Rect.collidepoint (Window.rect o) p = true).
Proof.
  intros Hh. destruct o as [? ? [x y w h] ? ? ? ? ? ? ? ?], p as [px py].
  unfold Rect.collidepoint, Window.titlebar_rect, Window.content_rect,
    Window.grip_rect, Rect.right, Rect.bottom, TITLEBAR_H, RESIZE_GRIP in *.
  simpl in *. split_and!.
  - destruct (x <=? px) eqn:E1, (px <? x + w) eqn:E2, (y <=? py) eqn:E3,
      (py <? y + h) eqn:E4, (py <? y + 32) eqn:E5, (y + 32 <=? py) eqn:E6,
      (py <? y + 32 + (h - 32)) eqn:E7; simpl; try done;
      rewrite ?Z.leb_le, ?Z.ltb_lt, ?Z.leb_gt, ?Z.ltb_ge in *; lia.
  - destruct (x <=? px), (px <? x + w), (y <=? py), (py <? y + 32) eqn:E5,
      (y + 32 <=? py) eqn:E6; simpl; try done.
    rewrite ?Z.leb_le, ?Z.ltb_lt in *; lia.
  - intros Hw Hg. rewrite !andb_true_iff, !Z.leb_le, !Z.ltb_lt. lia.
Qed.

Lemma frame_tiling_witness :
  TITLEBAR_H <= Rect.h (Window.rect drawn_window) ∧
  Rect.collidepoint (Window.rect drawn_window) (200, 300) =
    Rect.collidepoint (Window.titlebar_rect drawn_window) (200, 300)
    || Rect.collidepoint (Window.content_rect drawn_window) (200, 300).
Proof.
  assert (TITLEBAR_H <= Rect.h (Window.rect drawn_window)) as Hh
    by (vm_compute; discriminate).
  exact (conj Hh (proj1 (frame_tiling drawn_window (200, 300) Hh))).
Defined.

(** ** What a window handler can change *)

Lemma forward_to_app_fields e o :
  let o' := Window.forward_to_app e o in
  Window.title o' = Window.title o ∧ Window.rect o' = Window.rect o ∧
  Window.minimized o' = Window.minimized o ∧
  Window.maximized o' = Window.maximized o ∧
  Window.dragging o' = Window.dragging o ∧
  Window.resizing o' = Window.resizing o ∧
  Window.drag_offset o' = Window.drag_offset o ∧
  Window._pre_max_rect o' = Window._pre_max_rect o ∧
  Window.z o' = Window.z o ∧ Window._btns o' = Window._btns o ∧
  App.class (Window.app o') = App.class (Window.app o).
Proof. unfold Window.forward_to_app. by destruct (negb _). Qed.

Ltac scope_side :=
  first [ done
        | let Hx := fresh in
          intros Hx;
          first [ by destruct Hx
                | by (destruct Hx as [Hx|Hx]; destruct Hx)
                | by eauto 6 ] ].

(** X7.  [Window.handle_event] never minimizes, maximizes, renames or
    renumbers the window, never touches its title buttons, keeps the class
    of its application and keeps what [_pre_max_rect] refers to.  So a saved
    frame that is an object of its own is unchanged; but once the window
    has been un-maximized, [_pre_max_rect] is the frame object itself
    (line 1022), and the saved frame is whatever the handler makes of the
    frame.  The handler changes the frame only on a pointer motion while
    the window is being dragged or resized, and the drag and resize flags
    only on a press or release of the left button. *)
Theorem window_handler_scope (scr : Z * Z) (e : Event) (o o' : Window.t)
  (ret : option string) :
  Window.handle_event scr e o = Ok (o', ret) →
  Window.title o' = Window.title o ∧
  Window.minimized o' = Window.minimized o ∧
  Window.maximized o' = Window.maximized o ∧
  Window._pre_max_rect o' = Window._pre_max_rect o ∧
  (∀ r, Window._pre_max_rect o = PreOwn r →
        Window.pre_max_rect o = r ∧ Window.pre_max_rect o' = r) ∧
  (Window._pre_max_rect o = PreAlias →
   Window.pre_max_rect o = Window.rect o ∧
   Window.pre_max_rect o' = Window.rect o') ∧
  Window.z o' = Window.z o ∧ Window._btns o' = Window._btns o ∧
  App.class (Window.app o') = App.class (Window.app o) ∧
  (Window.rect o' ≠ Window.rect o →
   ∃ pos, e = MOUSEMOTION pos ∧
          (Window.dragging o = true ∨ Window.resizing o = true)) ∧
  ((Window.dragging o' ≠ Window.dragging o ∨
    Window.resizing o' ≠ Window.resizing o) →
   ∃ pos, e = MOUSEBUTTONDOWN 1 pos ∨ e = MOUSEBUTTONUP 1 pos).
Proof.
  intros He.
  assert (Window._pre_max_rect o' = Window._pre_max_rect o) as Hpre.
  { revert He.
    unfold Window.handle_event, Window._hit_title_buttons, Window.forward_to_app,
      Window.drag_to, Window.resize_to.
    destruct scr as [sw sh].
    destruct (Window.minimized o) eqn:Hm; [by intros [= <- _]|].
    destruct e as [button pos|button pos|pos|key|key| |w h|ty]; simpl;
      repeat case_match; simpl; rewrite ?Hm; simpl;
      repeat case_match; simpl; rewrite ?Hm; simpl;
      intros Heq; by simplify_eq. }
  assert (∀ r, Window._pre_max_rect o = PreOwn r →
               Window.pre_max_rect o = r ∧ Window.pre_max_rect o' = r) as Hown.
  { intros r Hr. unfold Window.pre_max_rect. by rewrite Hpre, Hr. }
  assert (Window._pre_max_rect o = PreAlias →
          Window.pre_max_rect o = Window.rect o ∧
          Window.pre_max_rect o' = Window.rect o') as Halias.
  { intros Hr. unfold Window.pre_max_rect. by rewrite Hpre, Hr. }
  revert He. clear Hpre.
  unfold Window.handle_event, Window._hit_title_buttons, Window.forward_to_app,
    Window.drag_to, Window.resize_to.
  destruct scr as [sw sh].
  destruct (Window.minimized o) eqn:Hm.
  { intros Heq. simplify_eq. split_and!; scope_side. }
  destruct e as [button pos|button pos|pos|key|key| |w h|ty]; simpl;
    repeat case_match; simpl; rewrite ?Hm; simpl;
    repeat case_match; simpl; rewrite ?Hm; simpl;
    intros Heq; simplify_eq; simpl;
    split_and!; first [exact Hown | exact Halias | scope_side].
Qed.

Lemma window_handler_scope_witness :
  (∃ o', Window.handle_event (W, H) (MOUSEBUTTONDOWN 1 (200, 130)) drawn_window
           = Ok (o', None) ∧
         Window.minimized o' = Window.minimized drawn_window ∧
         Window.maximized o' = Window.maximized drawn_window ∧
         Window.pre_max_rect o' = Rect.mk 180 120 540 420) ∧
  (∃ o', Window.handle_event (W, H) (MOUSEMOTION (300, 200))
           (Window.set_pre_max_rect PreAlias grabbed_window) = Ok (o', None) ∧
         Window.pre_max_rect (Window.set_pre_max_rect PreAlias grabbed_window)
           = Rect.mk 180 120 540 420 ∧
         Window.rect o' = Rect.mk 280 190 540 420 ∧
         Window.pre_max_rect o' = Window.rect o').
Proof.
  split.
  - eexists.
    assert (Window.handle_event (W, H) (MOUSEBUTTONDOWN 1 (200, 130)) drawn_window
            = Ok (_, None)) as He by (vm_compute; reflexivity).
    split; [exact He|].
    destruct (window_handler_scope _ _ _ _ _ He) as (_ & H2 & H3 & _ & H5 & _).
    exact (conj H2 (conj H3 (proj2 (H5 _ eq_refl)))).
  - eexists.
    assert (Window.handle_event (W, H) (MOUSEMOTION (300, 200))
              (Window.set_pre_max_rect PreAlias grabbed_window)
            = Ok (_, None)) as He by (vm_compute; reflexivity).
    split; [exact He|]. split; [reflexivity|]. split; [reflexivity|].
    destruct (window_handler_scope _ _ _ _ _ He) as (_ & _ & _ & _ & _ & H6 & _).
    exact (proj2 (H6 eq_refl)).
Defined.

(** ** A drag from press to release *)

(** X8.  A left-button press in the title bar, off the title buttons, then a
    pointer motion, move the window by the displacement of the pointer, up
    to the clamps of the drag, and keep its size (the window not being
    resized); after the release of the button a further motion leaves the
    frame where it is. *)
Theorem drag_follows_pointer (sw sh : Z) (p q q' : Pos) (o : Window.t)
  (btns : list (string * Rect.t)) :
  Window.minimized o = false →
  Window.resizing o = false →
  Window._btns o = Some btns →
  Rect.collidepoint (Window.titlebar_rect o) p = true →
  Window.hit_buttons btns p = None →
  ∃ o1 o2 o3 o4,
    Window.handle_event (sw, sh) (MOUSEBUTTONDOWN 1 p) o = Ok (o1, None) ∧
    Window.handle_event (sw, sh) (MOUSEMOTION q) o1 = Ok (o2, None) ∧
    Window.handle_event (sw, sh) (MOUSEBUTTONUP 1 q) o2 = Ok (o3, None) ∧
    Window.handle_event (sw, sh) (MOUSEMOTION q') o3 = Ok (o4, None) ∧
    Window.rect o1 = Window.rect o ∧
    Window.rect o2 =
      Rect.mk (Z.max (60 - Rect.w (Window.rect o))
                 (Z.min (Rect.x (Window.rect o) + (fst q - fst p)) (sw - 60)))
              (Z.max 0
                 (Z.min (Rect.y (Window.rect o) + (snd q - snd p))
                    (sh - TASKBAR_H - TITLEBAR_H)))
              (Rect.w (Window.rect o)) (Rect.h (Window.rect o)) ∧
    Window.rect o4 = Window.rect o2 ∧
    Window.dragging o4 = false.
Proof.
  intros Hm Hr Hb Ht Hh.
  set (o1 := Window.forward_to_app (MOUSEBUTTONDOWN 1 p)
               (Window.set_drag_offset
                  (fst p - Rect.x (Window.rect o), snd p - Rect.y (Window.rect o))
                  (Window.set_dragging true o))).
  set (o2 := Window.forward_to_app (MOUSEMOTION q) (Window.drag_to (sw, sh) q o1)).
  set (o3 := Window.forward_to_app (MOUSEBUTTONUP 1 q)
               (Window.set_resizing false (Window.set_dragging false o2))).
  set (o4 := Window.forward_to_app (MOUSEMOTION q') o3).
  assert (Window.minimized o1 = false ∧ Window.dragging o1 = true ∧
          Window.resizing o1 = false ∧ Window.rect o1 = Window.rect o ∧
          Window.drag_offset o1 =
            (fst p - Rect.x (Window.rect o), snd p - Rect.y (Window.rect o)))
    as (Hm1 & Hd1 & Hr1 & Hrect1 & Hoff1).
  { subst o1. unfold Window.forward_to_app. simpl. by rewrite Hm. }
  assert (Window.minimized o2 = false ∧
          Window.rect o2 = Window.rect (Window.drag_to (sw, sh) q o1)) as [Hm2 Hrect2].
  { subst o2. unfold Window.forward_to_app. simpl. by rewrite Hm1. }
  assert (Window.minimized o3 = false ∧ Window.dragging o3 = false ∧
          Window.resizing o3 = false ∧ Window.rect o3 = Window.rect o2)
    as (Hm3 & Hd3 & Hr3 & Hrect3).
  { subst o3. unfold Window.forward_to_app. simpl. by rewrite Hm2. }
  exists o1, o2, o3, o4. split_and!.
  - unfold Window.handle_event, Window._hit_title_buttons.
    rewrite Hm, Ht, Hb. simpl. by rewrite Hh.
  - rewrite (handle_event_motion _ _ _ Hm1). cbv zeta.
    by rewrite Hd1, drag_to_resizing, Hr1.
  - unfold Window.handle_event. by rewrite Hm2.
  - rewrite (handle_event_motion _ _ _ Hm3). cbv zeta. by rewrite Hd3, Hr3.
  - done.
  - rewrite Hrect2. unfold Window.drag_to. simpl. rewrite Hoff1, Hrect1.
    destruct (Window.rect o) as [x y w h]. unfold Rect.set_y, Rect.set_x. simpl.
    f_equal; lia.
  - subst o4. by rewrite forward_to_app_rect.
  - subst o4. unfold Window.forward_to_app. by destruct (negb _).
Qed.

Lemma drag_follows_pointer_witness :
  ∃ btns o2,
    Window.minimized drawn_window = false ∧
    Window.resizing drawn_window = false ∧
    Window._btns drawn_window = Some btns ∧
    Rect.collidepoint (Window.titlebar_rect drawn_window) (200, 130) = true ∧
    Window.hit_buttons btns (200, 130) = None ∧
    (o1 ← Window.handle_event (W, H) (MOUSEBUTTONDOWN 1 (200, 130)) drawn_window;
     Window.handle_event (W, H) (MOUSEMOTION (260, 170)) o1.1) = Ok (o2, None) ∧
    Window.rect o2 = Rect.mk 240 160 540 420.
Proof.
  destruct (drag_follows_pointer W H (200, 130) (260, 170) (0, 0) drawn_window _
              eq_refl eq_refl eq_refl eq_refl eq_refl)
    as (o1 & o2 & o3 & o4 & H1 & H2 & _ & _ & _ & H6 & _).
  eexists _, o2. split; [reflexivity|]. split; [reflexivity|].
  split; [reflexivity|]. split; [reflexivity|]. split; [reflexivity|].
  split; [by rewrite H1|]. exact H6.
Defined.

(** ** The title buttons as drawn *)

(** The buttons that [draw] lays out in the title bar of [o]. *)
Lemma title_buttons_hit (o : Window.t) (p : Pos) (label : string) (r : Rect.t) :
  80 <= Rect.w (Window.rect o) →
  let t := Window.titlebar_rect o in
  let btns := [ ("x"%string, Rect.mk (Rect.right t - 28) (Rect.y t + 6) 22 18);
                ("□"%string, Rect.mk (Rect.right t - 28 - 26) (Rect.y t + 6) 22 18);
                ("–"%string, Rect.mk (Rect.right t - 28 - 52) (Rect.y t + 6) 22 18) ] in
  (label, r) ∈ btns →
  Rect.collidepoint r p = true →
  Rect.collidepoint t p = true ∧ Window.hit_buttons btns p = Some label.
Proof.
  intros Hw t btns Hin Hc. subst t btns.
  destruct o as [? ? [x y w h] ? ? ? ? ? ? ? ?], p as [px py]. simpl in *.
  unfold Rect.collidepoint, Window.titlebar_rect, Rect.right, TITLEBAR_H in *.
  simpl in *.
  repeat (apply elem_of_cons in Hin as [Hin|Hin]);
    [| | |by apply not_elem_of_nil in Hin];
    inversion Hin; subst label r; clear Hin; simpl in *;
    rewrite !andb_true_iff, !Z.leb_le, !Z.ltb_lt in Hc;
    (split; [rewrite !andb_true_iff, !Z.leb_le, !Z.ltb_lt; lia|]);
    repeat match goal with
           | |- context [(?a <=? ?b) && (?c <? ?d) && _ && _] =>
               first [ rewrite (proj2 (Z.leb_le a b)) by lia
                     | rewrite (proj2 (Z.leb_gt a b)) by lia ];
               first [ rewrite (proj2 (Z.ltb_lt c d)) by lia
                     | rewrite (proj2 (Z.ltb_ge c d)) by lia ];
               simpl
           | |- context [(?a <=? ?b) && (?c <? ?d)] =>
               first [ rewrite (proj2 (Z.leb_le a b)) by lia
                     | rewrite (proj2 (Z.leb_gt a b)) by lia ];
               first [ rewrite (proj2 (Z.ltb_lt c d)) by lia
                     | rewrite (proj2 (Z.ltb_ge c d)) by lia ];
               simpl
           end; done.
Qed.

(** X9.  Once drawn, a non-minimized window at least 80 wide has its three
    title buttons inside its title bar and clear of one another: a point
    inside the rectangle drawn for a button is in the title bar, and
    [_hit_title_buttons] answers with the label of that button. *)
Theorem drawn_title_buttons (o : Window.t) (p : Pos) (label : string)
  (r : Rect.t) (btns : list (string * Rect.t)) :
  Window.minimized o = false →
  80 <= Rect.w (Window.rect o) →
  Window._btns (Window.drawn o) = Some btns →
  (label, r) ∈ btns →
  Rect.collidepoint r p = true →
  Rect.collidepoint (Window.titlebar_rect (Window.drawn o)) p = true ∧
  Window._hit_title_buttons p (Window.drawn o) = Ok (Some label).
Proof.
  intros Hm Hw Hb Hin Hc. unfold Window._hit_title_buttons. rewrite Hb.
  revert Hb. unfold Window.drawn. rewrite Hm.
  cbn [Window._btns Window.set_btns]. intros [= <-].
  destruct (title_buttons_hit o p label r Hw Hin Hc) as [Ht Hh].
  split; [exact Ht | exact (f_equal Ok Hh)].
Qed.

Lemma drawn_title_buttons_witness :
  ∃ btns,
    Window.minimized drawn_window = false ∧
    80 <= Rect.w (Window.rect drawn_window) ∧
    Window._btns (Window.drawn drawn_window) = Some btns ∧
    ("□"%string, Rect.mk 666 126 22 18) ∈ btns ∧
    Rect.collidepoint (Rect.mk 666 126 22 18) (670, 130) = true ∧
    Window._hit_title_buttons (670, 130) (Window.drawn drawn_window)
      = Ok (Some "□"%string).
Proof.
  eexists.
  assert (80 <= Rect.w (Window.rect drawn_window)) as Hw by (vm_compute; discriminate).
  assert (Window._btns (Window.drawn drawn_window) = Some _) as Hb by reflexivity.
  assert (("□"%string, Rect.mk 666 126 22 18) ∈
          [("x"%string, Rect.mk 692 126 22 18); ("□"%string, Rect.mk 666 126 22 18);
           ("–"%string, Rect.mk 640 126 22 18)]) as Hin.
  { right. left. }
  split; [reflexivity|]. split; [exact Hw|]. split; [exact Hb|].
  split; [exact Hin|]. split; [reflexivity|].
  exact (proj2 (drawn_title_buttons drawn_window (670, 130) _ _ _
                  eq_refl Hw Hb Hin eq_refl)).
Defined.

(** ** Clicks that reach the windows *)

Lemma reaches_windows_route env pos s :
  reaches_windows (mouse env) s →
  Desktop.route_click env (MOUSEBUTTONDOWN 1 pos) s =
    Desktop.click_windows (mouse env) s.
Proof.
  intros (_ & Ho & Hb & Hi & Ht). unfold Desktop.route_click.
  assert (Desktop.click_start_button (mouse env) s = Next s) as ->.
  { unfold Desktop.click_start_button, on_start_button in *.
    destruct (Desktop.start_btn _); [by rewrite Hb | done]. }
  simpl.
  assert (Desktop.click_start_menu (mouse env) s = Next s) as ->.
  { unfold Desktop.click_start_menu. by rewrite Ho. }
  simpl.
  assert (Desktop.click_icons env s = Next s) as ->.
  { unfold Desktop.click_icons, on_icon in *. by destruct (Desktop.find_icon _ _ _). }
  simpl.
  assert (Desktop.click_task_buttons (mouse env) s = Next s) as ->.
  { unfold Desktop.click_task_buttons, on_task_button in *. by destruct (find _ _). }
  done.
Qed.

Lemma top_hit_lookup m s win :
  Desktop.top_hit m s = Some win →
  ∃ o, Desktop.heap s !! win = Some o ∧ Window.minimized o = false ∧
       Rect.collidepoint (Window.rect o) m = true.
Proof.
  intros [_ Hh]%top_hit_elem. unfold Desktop.hit in Hh.
  destruct (Desktop.heap s !! win) as [o|]; [|done].
  apply andb_true_iff in Hh as [Hm Hc]. apply negb_true_iff in Hm. eauto.
Qed.

(** X10.  A left-button press that reaches the windows, with the pointer on
    a title button of the topmost window under it (the buttons being where
    they were last drawn, on a window at least 80 wide), acts on that window
    and returns: [x] closes it, [–] minimizes it, [□] toggles its maximized
    state and focuses it; no window handler is called. *)
Theorem title_button_actions (env : Env) (pos : Pos) (s : Desktop.world)
  (win : nat) (o : Window.t) (btns : list (string * Rect.t)) (label : string)
  (r : Rect.t) :
  reaches_windows (mouse env) s →
  Desktop.top_hit (mouse env) s = Some win →
  Desktop.heap s !! win = Some o →
  80 <= Rect.w (Window.rect o) →
  buttons_fresh o →
  Window._btns o = Some btns →
  (label, r) ∈ btns →
  Rect.collidepoint r (mouse env) = true →
  let e := MOUSEBUTTONDOWN 1 pos in
  (label = "x"%string ∧ Desktop.handle_event env e s = Ok (Desktop.close win s)) ∨
  (label = "–"%string ∧
   Desktop.handle_event env e s =
     Ok (Desktop.update_win win (Window.set_minimized true) s)) ∨
  (label = "□"%string ∧
   Desktop.handle_event env e s =
     Desktop.focus win
       (Desktop.update_win win (Desktop.toggle_maximize (Desktop.screen s)) s)).
Proof.
  intros Hreach Ht Ho Hw Hf Hb Hin Hc e.
  pose proof Hreach as (Hs & _).
  destruct (top_hit_lookup _ _ _ Ht) as (o0 & Ho0 & Hm & _).
  rewrite Ho in Ho0. inversion Ho0; subst o0; clear Ho0.
  assert (Window.drawn o = o) as Hd.
  { unfold buttons_fresh in Hf. unfold Window.drawn in *. rewrite Hm in *.
    simpl in Hf. destruct o; simpl in *. by rewrite <- Hf. }
  assert (Rect.collidepoint (Window.titlebar_rect o) (mouse env) = true ∧
          Window._hit_title_buttons (mouse env) o = Ok (Some label)) as [Htb Hhit].
  { unfold Window._hit_title_buttons. rewrite Hb.
    revert Hb. rewrite <- Hd at 1. unfold Window.drawn. rewrite Hm.
    cbn [Window._btns Window.set_btns]. intros [= <-].
    destruct (title_buttons_hit o (mouse env) label r Hw Hin Hc) as [H1 H2].
    split; [exact H1 | exact (f_equal Ok H2)]. }
  assert (label = "x"%string ∨ label = "–"%string ∨ label = "□"%string) as Hl.
  { revert Hb Hin. rewrite <- Hd. unfold Window.drawn. rewrite Hm. simpl.
    intros [= <-]. rewrite !elem_of_cons, elem_of_nil.
    intros [[= -> _]|[[= -> _]|[[= -> _]|[]]]]; auto. }
  assert (Desktop.click_windows (mouse env) s =
          if String.eqb label "x" then Return (Desktop.close win s)
          else if String.eqb label "–"
          then Return (Desktop.update_win win (Window.set_minimized true) s)
          else returning (Desktop.focus win
                 (Desktop.update_win win (Desktop.toggle_maximize (Desktop.screen s)) s)))
    as Hcw.
  { unfold Desktop.click_windows. rewrite Ht, Ho, Htb, Hhit. destruct Hl as [->|[->| ->]]; reflexivity. }
  unfold Desktop.handle_event. rewrite Hs. subst e.
  rewrite (reaches_windows_route _ _ _ Hreach), Hcw.
  destruct Hl as [->|[->| ->]]; simpl; auto.
  right; right. split; [done|].
  by destruct (Desktop.focus _ _).
Qed.

Lemma title_button_actions_witness :
  ∃ o btns,
    reaches_windows (700, 130) drawn_world ∧
    Desktop.top_hit (700, 130) drawn_world = Some 0%nat ∧
    Desktop.heap drawn_world !! 0%nat = Some o ∧
    80 <= Rect.w (Window.rect o) ∧
    buttons_fresh o ∧
    Window._btns o = Some btns ∧
    ("x"%string, Rect.mk 692 126 22 18) ∈ btns ∧
    Rect.collidepoint (Rect.mk 692 126 22 18) (700, 130) = true ∧
    Desktop.handle_event (mkEnv (700, 130) false 1000)
      (MOUSEBUTTONDOWN 1 (700, 130)) drawn_world
      = Ok (Desktop.close 0 drawn_world).
Proof.
  eexists _, _.
  assert (reaches_windows (700, 130) drawn_world) as H1 by (by repeat split).
  assert (Desktop.heap drawn_world !! 0%nat = Some _) as H3 by reflexivity.
  assert (80 <= Rect.w (Window.rect drawn_window)) as H4 by (vm_compute; discriminate).
  assert (("x"%string, Rect.mk 692 126 22 18) ∈
          [("x"%string, Rect.mk 692 126 22 18); ("□"%string, Rect.mk 666 126 22 18);
           ("–"%string, Rect.mk 640 126 22 18)]) as H7 by left.
  split; [exact H1|]. split; [reflexivity|]. split; [exact H3|].
  split; [exact H4|]. split; [reflexivity|]. split; [reflexivity|].
  split; [exact H7|]. split; [reflexivity|].
  destruct (title_button_actions (mkEnv (700, 130) false 1000) (700, 130)
              drawn_world 0 _ _ _ _ H1 eq_refl H3 H4 eq_refl eq_refl H7 eq_refl)
    as [[_ He]|[[Hl _]|[Hl _]]]; [exact He | discriminate Hl | discriminate Hl].
Defined.

(** ** What drawing lays out *)

Lemma window_drawn_idem o : Window.drawn (Window.drawn o) = Window.drawn o.
Proof. unfold Window.drawn. destruct (Window.minimized o) eqn:E; simpl; by rewrite ?E. Qed.

Lemma foldl_update_lookup (f : Window.t → Window.t) l s i :
  (∀ o, f (f o) = f o) →
  Desktop.heap (foldl (λ s win, Desktop.update_win win f s) s l) !! i =
    (if bool_decide (i ∈ l) then f else id) <$> Desktop.heap s !! i.
Proof.
  intros Hf. revert s. induction l as [|a l IH]; intros s; cbn [foldl].
  - rewrite bool_decide_eq_false_2 by apply not_elem_of_nil.
    by destruct (Desktop.heap s !! i).
  - rewrite IH. unfold Desktop.update_win.
    destruct (decide (i = a)) as [->|Hne].
    + rewrite (bool_decide_eq_true_2 (a ∈ a :: l)) by left.
      destruct (Desktop.heap s !! a) as [o|] eqn:Ho; simpl.
      * rewrite list_lookup_insert_eq by (by eapply lookup_lt_Some). simpl.
        case_bool_decide; simpl; by rewrite ?Hf.
      * rewrite Ho. by case_bool_decide.
    + assert (bool_decide (i ∈ a :: l) = bool_decide (i ∈ l)) as ->.
      { apply bool_decide_ext. rewrite elem_of_cons. tauto. }
      destruct (Desktop.heap s !! a) as [o|] eqn:Ho; simpl; [|done].
      by rewrite list_lookup_insert_ne.
Qed.

Lemma layout_task_buttons_lookup x y wins i win :
  wins !! i = Some win →
  Desktop.layout_task_buttons x y wins !! i =
    Some (Rect.mk (x + Z.of_nat i * 166) y 160 (TASKBAR_H - 8), win).
Proof.
  revert x i. induction wins as [|w wins IH]; intros x [|i]; simpl; try done.
  - intros [= ->]. do 3 f_equal. lia.
  - intros Hi. rewrite (IH _ _ Hi). do 3 f_equal. lia.
Qed.

Lemma layout_task_buttons_length x y wins :
  length (Desktop.layout_task_buttons x y wins) = length wins.
Proof. revert x. induction wins as [|w wins IH]; intros x; simpl; by rewrite ?IH. Qed.

(** What a frame lays out, when every window can be drawn. *)
Lemma drawn_layout (s : Desktop.world) :
  Desktop.sleeping (Desktop.dt s) = false →
  let s' := Desktop.drawn s in
  let h := snd (Desktop.screen s) in
  Desktop.windows (Desktop.dt s') = Desktop.windows (Desktop.dt s) ∧
  Desktop.start_btn (Desktop.dt s') = Some (Rect.mk 8 (h - 38) 120 32) ∧
  (∃ tb, Desktop.task_buttons (Desktop.dt s') = Some tb ∧
         length tb = length (Desktop.windows (Desktop.dt s)) ∧
         ∀ i win, Desktop.windows (Desktop.dt s) !! i = Some win →
                  tb !! i = Some (Rect.mk (136 + Z.of_nat i * 166) (h - 38) 160 36,
                                  win)) ∧
  (∀ win, Desktop.heap s' !! win =
          (if bool_decide (win ∈ Desktop.windows (Desktop.dt s))
           then Window.drawn else id) <$> Desktop.heap s !! win) ∧
  (∀ win o', win ∈ Desktop.windows (Desktop.dt s) →
             Desktop.heap s' !! win = Some o' → buttons_fresh o').
Proof.
  intros Hs s' h.
  assert (Desktop.dt (Desktop.drawn_windows s) = Desktop.dt s) as Hdt
    by apply foldl_update_dt.
  assert (Desktop.screen (Desktop.drawn_windows s) = Desktop.screen s) as Hscr
    by apply (quiet_screen _ _ (quiet_foldl_update s Window.drawn _)).
  assert (∀ win, Desktop.heap s' !! win =
            (if bool_decide (win ∈ Desktop.windows (Desktop.dt s))
             then Window.drawn else id) <$> Desktop.heap s !! win) as Hheap.
  { intros win. subst s'. unfold Desktop.drawn. rewrite Hs.
    rewrite <- (foldl_update_lookup Window.drawn _ s win window_drawn_idem).
    fold (Desktop.drawn_windows s). generalize (Desktop.drawn_windows s). intros s1.
    unfold Desktop.draw_power_dialog, Desktop.draw_start_menu, Desktop.draw_taskbar.
    destruct (Desktop.screen s1) as [sw sh] eqn:E1. simpl.
    destruct (Desktop.start_open (Desktop.dt s1)); simpl; rewrite ?E1; simpl;
      by destruct (Desktop.power_open (Desktop.dt s1)). }
  assert (Desktop.windows (Desktop.dt s') = Desktop.windows (Desktop.dt s) ∧
          Desktop.start_btn (Desktop.dt s') =
            Some (Rect.mk 8 (h - TASKBAR_H + 6) 120 (TASKBAR_H - 12)) ∧
          Desktop.task_buttons (Desktop.dt s') =
            Some (Desktop.layout_task_buttons (8 + 120 + 8) (h - TASKBAR_H + 6)
                    (Desktop.windows (Desktop.dt s)))) as (Hw & Hsb & Htb).
  { subst s' h. unfold Desktop.drawn. rewrite Hs. rewrite <- Hdt, <- Hscr.
    generalize (Desktop.drawn_windows s). intros s1.
    unfold Desktop.draw_power_dialog, Desktop.draw_start_menu, Desktop.draw_taskbar.
    destruct (Desktop.screen s1) as [sw sh] eqn:E1. simpl.
    destruct (Desktop.start_open (Desktop.dt s1)) eqn:E2; simpl; rewrite ?E1; simpl;
      rewrite ?E2;
      destruct (Desktop.power_open (Desktop.dt s1)) eqn:E3; simpl; rewrite ?E2, ?E3;
      done. }
  rewrite Hw, Hsb, Htb. split_and!; [done | | | done |].
  - unfold TASKBAR_H. do 2 f_equal; lia.
  - eexists. split; [done|]. split; [apply layout_task_buttons_length|].
    intros i win Hi. rewrite (layout_task_buttons_lookup _ _ _ _ _ Hi).
    unfold TASKBAR_H. do 3 f_equal; lia.
  - intros win o' Hin. rewrite Hheap, bool_decide_eq_true_2 by done.
    destruct (Desktop.heap s !! win) as [o|]; [|done]. simpl. intros [= <-].
    unfold buttons_fresh. by rewrite window_drawn_idem.
Qed.

Lemma window_draw_paintable o :
  Window.draw o = if paintable o then Ok (Window.drawn o) else Raise PygameError.
Proof.
  unfold Window.draw, Window.drawn, paintable.
  destruct (Window.minimized o); [done|]. cbn [orb].
  destruct (Rect.w (Window.rect o) + 12 <? 0) eqn:E1.
  { apply Z.ltb_lt in E1. by rewrite (proj2 (Z.leb_gt _ _) E1). }
  apply Z.ltb_ge in E1. rewrite (proj2 (Z.leb_le _ _) E1).
  destruct (Rect.h (Window.rect o) + 12 <? 0) eqn:E2.
  { apply Z.ltb_lt in E2. by rewrite (proj2 (Z.leb_gt _ _) E2). }
  apply Z.ltb_ge in E2. rewrite (proj2 (Z.leb_le _ _) E2).
  cbn [orb andb]. by destruct (App.draw_raises _ _).
Qed.

Lemma paintable_drawn o : paintable (Window.drawn o) = paintable o.
Proof.
  unfold paintable, Window.drawn.
  destruct (Window.minimized o) eqn:E; [by rewrite E|].
  unfold Window.content_rect. simpl. by rewrite E.
Qed.

(** The loop over the z-order returns exactly when every window it meets
    can be drawn. *)
Lemma draw_windows_outcome wins s :
  (∀ win, win ∈ wins → (win < length (Desktop.heap s))%nat) →
  match Desktop.draw_windows wins s with
  | Ok _ =>
      ∀ win o, win ∈ wins → Desktop.heap s !! win = Some o → paintable o = true
  | Raise x =>
      x = PygameError ∧
      ∃ win o, win ∈ wins ∧ Desktop.heap s !! win = Some o ∧ paintable o = false
  end.
Proof.
  revert s. induction wins as [|win wins IH]; intros s Hb; cbn [Desktop.draw_windows].
  { intros win o Hin. by apply elem_of_nil in Hin. }
  destruct (lookup_lt_is_Some_2 (Desktop.heap s) win) as [o Ho]; [apply Hb; left|].
  rewrite Ho, window_draw_paintable.
  destruct (paintable o) eqn:Hp; simpl.
  2:{ split; [done|]. exists win, o. split; [left|done]. }
  set (s1 := Desktop.set_heap (<[win:=Window.drawn o]> (Desktop.heap s)) s).
  assert (∀ i x, Desktop.heap s !! i = Some x →
                 ∃ x', Desktop.heap s1 !! i = Some x' ∧ paintable x' = paintable x)
    as Hsame.
  { intros i x Hx. subst s1. simpl. destruct (decide (i = win)) as [->|Hne].
    - rewrite list_lookup_insert_eq by (by eapply lookup_lt_Some).
      eexists. split; [done|]. rewrite paintable_drawn. congruence.
    - rewrite list_lookup_insert_ne by done. eauto. }
  specialize (IH s1).
  destruct (Desktop.draw_windows wins s1) as [s2|x].
  - intros i x [->|Hin]%elem_of_cons Hx; [congruence|].
    destruct (Hsame _ _ Hx) as (x' & Hx' & <-). apply (IH ltac:(subst s1; simpl; intros; rewrite length_insert; apply Hb; by right) i x' Hin Hx').
  - destruct IH as (-> & i & x' & Hin & Hx' & Hp').
    { subst s1. simpl. intros. rewrite length_insert. apply Hb. by right. }
    split; [done|].
    destruct (lookup_lt_is_Some_2 (Desktop.heap s) i) as [x Hx];
      [apply Hb; by right|].
    destruct (Hsame _ _ Hx) as (x'' & Hx'' & E).
    exists i, x. split; [by right|]. split; [done|]. congruence.
Qed.



(** ** The start menu *)

Lemma layout_menu_find x y w names (k : nat) name m :
  names !! k = Some name →
  Rect.collidepoint (Rect.mk x (y + 44 * Z.of_nat k) w 36) m = true →
  find (λ it, Rect.collidepoint (fst it) m) (Desktop.layout_menu_items x y w names)
    = Some (Rect.mk x (y + 44 * Z.of_nat k) w 36, name).
Proof.
  revert y k. induction names as [|n names IH]; intros y [|k]; simpl; try done.
  - intros [= ->]. replace (y + 44 * Z.of_nat 0) with y by lia. by intros ->.
  - intros Hk Hc.
    assert (Rect.collidepoint (Rect.mk x y w 36) m = false) as ->.
    { revert Hc. unfold Rect.collidepoint. simpl.
      rewrite !andb_true_iff, !Z.leb_le, !Z.ltb_lt. intros [[[H1 H2] H3] H4].
      apply andb_false_iff. right. apply Z.ltb_ge. lia. }
    replace (y + 44 * Z.of_nat (S k)) with (y + 44 + 44 * Z.of_nat k) in * by lia.
    by apply IH.
Qed.

Lemma draw_start_menu_layout s :
  Desktop.sleeping (Desktop.dt s) = false →
  Desktop.start_open (Desktop.dt s) = true →
  let s' := Desktop.drawn s in
  let h := snd (Desktop.screen s) in
  let mr := Desktop.menu_rect (Desktop.dt s) in
  Desktop.start_open (Desktop.dt s') = true ∧
  Desktop.sleeping (Desktop.dt s') = false ∧
  Desktop.menu_items (Desktop.dt s') =
    Some (Desktop.layout_menu_items 22 (h - 50 - Rect.h mr + 58) (Rect.w mr - 24)
            (map fst APP_MAP)) ∧
  Desktop.power_btn (Desktop.dt s') =
    Some (Rect.mk 22 (h - 114) (Rect.w mr - 24) 44) ∧
  Desktop.power_open (Desktop.dt s') = Desktop.power_open (Desktop.dt s).
Proof.
  intros Hs Ho s' h mr. subst s' h mr. unfold Desktop.drawn. rewrite Hs.
  rewrite <- (foldl_update_dt Window.drawn (Desktop.windows (Desktop.dt s)) s)
    in Hs, Ho |- *.
  rewrite <- (quiet_screen _ _ (quiet_foldl_update s Window.drawn
                                 (Desktop.windows (Desktop.dt s)))).
  fold (Desktop.drawn_windows s) in *. revert Hs Ho.
  generalize (Desktop.drawn_windows s). intros s1 Hs Ho.
  unfold Desktop.draw_power_dialog, Desktop.draw_start_menu, Desktop.draw_taskbar.
  destruct (Desktop.screen s1) as [sw sh] eqn:E1.
  cbn -[Desktop.layout_menu_items APP_MAP]. rewrite Ho.
  cbn -[Desktop.layout_menu_items APP_MAP]. rewrite E1.
  cbn -[Desktop.layout_menu_items APP_MAP].
  destruct (Desktop.power_open (Desktop.dt s1)) eqn:E3;
    cbn -[Desktop.layout_menu_items APP_MAP]; rewrite ?E3;
    unfold TASKBAR_H, Rect.bottom; cbn -[Desktop.layout_menu_items APP_MAP];
    split_and!; try done; do 2 f_equal; lia.
Qed.

Lemma click_start_menu_entry env pos s k name h w :
  Desktop.sleeping (Desktop.dt s) = false →
  Desktop.start_open (Desktop.dt s) = true →
  Desktop.menu_items (Desktop.dt s) =
    Some (Desktop.layout_menu_items 22 h w (map fst APP_MAP)) →
  on_start_button (mouse env) s = false →
  map fst APP_MAP !! k = Some name →
  Rect.collidepoint (Rect.mk 22 (h + 44 * Z.of_nat k) w 36) (mouse env) = true →
  Desktop.handle_event env (MOUSEBUTTONDOWN 1 pos) s =
    (s1 ← Desktop.spawn_window name Desktop.default_size s;
     Ok (Desktop.set_start_open false s1)).
Proof.
  intros Hs Ho Hitems Hb Hk Hc.
  unfold Desktop.handle_event. rewrite Hs. unfold Desktop.route_click.
  assert (Desktop.click_start_button (mouse env) s = Next s) as ->.
  { unfold Desktop.click_start_button, on_start_button in *.
    destruct (Desktop.start_btn _); [by rewrite Hb | done]. }
  simpl. unfold Desktop.click_start_menu. rewrite Ho, Hitems.
  cbn [from_option id].
  rewrite (layout_menu_find _ _ _ _ k name (mouse env) Hk Hc).
  by destruct (Desktop.spawn_window name Desktop.default_size s).
Qed.

(** X12.  After a frame drawn with the start menu open, a left-button press
    with the pointer inside the entry number [k] of the menu (and off the
    start button) calls [spawn_window] for the [k]-th application of the
    registry and, if that returns, closes the menu.  If the constructor of
    the application raises (that of Finder can, on [memory.json]), the
    press raises the same exception.  If it returns, and the cascade
    position fits in 64 bits, the press leaves a new window of the
    application on top of the z-order and the menu closed. *)
Theorem start_menu_launches (env : Env) (pos : Pos) (s0 s : Desktop.world)
  (k : nat) (name : string) :
  Desktop.sleeping (Desktop.dt s0) = false →
  Desktop.start_open (Desktop.dt s0) = true →
  Desktop.draw s0 = Ok s →
  let h := snd (Desktop.screen s0) in
  let mr := Desktop.menu_rect (Desktop.dt s0) in
  on_start_button (mouse env) s = false →
  map fst APP_MAP !! k = Some name →
  Rect.collidepoint
    (Rect.mk 22 (h - 50 - Rect.h mr + 58 + 44 * Z.of_nat k) (Rect.w mr - 24) 36)
    (mouse env) = true →
  Desktop.handle_event env (MOUSEBUTTONDOWN 1 pos) s =
    (s1 ← Desktop.spawn_window name Desktop.default_size s;
     Ok (Desktop.set_start_open false s1)) ∧
  ∃ cls,
    assoc name APP_MAP = Some cls ∧
    match App.new cls (Desktop.memory_json s) with
    | Raise x =>
        cls = Finder ∧
        Desktop.handle_event env (MOUSEBUTTONDOWN 1 pos) s = Raise x
    | Ok a =>
        180 + Z.of_nat (length (Desktop.windows (Desktop.dt s))) * 16 < 2 ^ 63 →
        ∃ s1 o,
          Desktop.spawn_window name Desktop.default_size s = Ok s1 ∧
          Desktop.handle_event env (MOUSEBUTTONDOWN 1 pos) s
            = Ok (Desktop.set_start_open false s1) ∧
          last (Desktop.windows (Desktop.dt s1)) = Some (length (Desktop.heap s)) ∧
          Desktop.heap s1 !! length (Desktop.heap s) = Some o ∧
          Window.app o = a ∧ a = App.make cls
    end.
Proof.
  intros Hs Ho Hd h mr Hb Hk Hc.
  apply draw_drawn in Hd as ->.
  destruct (draw_start_menu_layout s0 Hs Ho) as (Ho' & Hs' & Hitems & _).
  fold h mr in Hitems.
  pose proof (click_start_menu_entry env pos _ k name _ _ Hs' Ho' Hitems Hb Hk Hc)
    as He.
  split; [exact He|].
  assert (name ∈ map fst APP_MAP) as Hin by (by eapply list_elem_of_lookup_2).
  destruct (assoc name APP_MAP) as [cls|] eqn:Hcls;
    [|by apply assoc_None in Hcls].
  exists cls. split; [done|].
  destruct (App.new cls (Desktop.memory_json (Desktop.drawn s0))) as [a|x] eqn:Ea.
  - intros Hn.
    destruct (spawn_window_returns name Desktop.default_size cls a _ Hcls Ea Hn)
      as [r Hsp]; [done | done |].
    eexists _, _. split; [exact Hsp|]. rewrite He, Hsp.
    split; [done|]. simpl. split; [apply last_snoc|].
    split; [by rewrite lookup_app_r, Nat.sub_diag by lia|].
    split; [done|]. by eapply app_new_inv.
  - split.
    + revert Ea. unfold App.new. by destruct cls.
    + rewrite He. unfold Desktop.spawn_window, APP_MAP_getitem.
      rewrite Hcls. simpl. by rewrite Ea.
Qed.

Lemma start_menu_launches_witness :
  Desktop.start_open (Desktop.dt menu_open_world) = true ∧
  (∃ s, Desktop.draw menu_open_world = Ok s ∧
        ∃ s1, Desktop.spawn_window "Notes" Desktop.default_size s = Ok s1 ∧
              Desktop.handle_event (mkEnv (30, 400) false 0)
                (MOUSEBUTTONDOWN 1 (30, 400)) s
                = Ok (Desktop.set_start_open false s1)) ∧
  (∃ s, Desktop.draw (Desktop.set_memory_json Malformed menu_open_world) = Ok s ∧
        Desktop.handle_event (mkEnv (30, 660) false 0) (MOUSEBUTTONDOWN 1 (30, 660)) s
          = Raise JSONDecodeError).
Proof.
  split; [reflexivity|]. split.
  - eexists.
    assert (Desktop.draw menu_open_world = Ok _) as Hd by (vm_compute; reflexivity).
    split; [exact Hd|].
    destruct (start_menu_launches (mkEnv (30, 400) false 0) (30, 400)
                menu_open_world _ 0 "Notes" eq_refl eq_refl Hd eq_refl eq_refl
                eq_refl) as (_ & cls & Hcls & Hrest).
    assert (cls = NotesApp) as -> by (vm_compute in Hcls; congruence).
    destruct (Hrest ltac:(vm_compute; reflexivity)) as (s1 & o & H1 & H2 & _).
    exists s1. exact (conj H1 H2).
  - eexists.
    assert (Desktop.draw (Desktop.set_memory_json Malformed menu_open_world) = Ok _)
      as Hd by (vm_compute; reflexivity).
    split; [exact Hd|].
    destruct (start_menu_launches (mkEnv (30, 660) false 0) (30, 660)
                (Desktop.set_memory_json Malformed menu_open_world) _ 6 "Finder"
                eq_refl eq_refl Hd eq_refl eq_refl eq_refl)
      as (_ & cls & Hcls & Hrest).
    assert (cls = Finder) as -> by (vm_compute in Hcls; congruence).
    exact (proj2 Hrest).
Defined.


(** X13.  In the start menu as drawn (340 high), the sixth entry covers the
    rows h - 112 to h - 77 of the Power button, which spans h - 114 to
    h - 71.  The entries are tested first: a left-button press on the Power
    button in those rows spawns a TicTacToe window (it returns what
    [spawn_window] returns, which is a window unless the cascade position
    leaves 64 bits), and only a press in the two rows above or the six rows
    below opens the power dialog. *)
Theorem power_button_shadowed (env : Env) (pos : Pos) (s0 : Desktop.world) :
  Desktop.sleeping (Desktop.dt s0) = false →
  Desktop.start_open (Desktop.dt s0) = true →
  Rect.h (Desktop.menu_rect (Desktop.dt s0)) = 340 →
  let s := Desktop.drawn s0 in
  let h := snd (Desktop.screen s0) in
  let w := Rect.w (Desktop.menu_rect (Desktop.dt s0)) in
  on_start_button (mouse env) s = false →
  Rect.collidepoint (Rect.mk 22 (h - 114) (w - 24) 44) (mouse env) = true →
  Desktop.power_btn (Desktop.dt s) = Some (Rect.mk 22 (h - 114) (w - 24) 44) ∧
  (h - 112 <= snd (mouse env) < h - 76 →
   Desktop.handle_event env (MOUSEBUTTONDOWN 1 pos) s =
     (s1 ← Desktop.spawn_window "TicTacToe" Desktop.default_size s;
      Ok (Desktop.set_start_open false s1)) ∧
   (180 + Z.of_nat (length (Desktop.windows (Desktop.dt s0))) * 16 < 2 ^ 63 →
    ∃ s1, Desktop.spawn_window "TicTacToe" Desktop.default_size s = Ok s1 ∧
          Desktop.handle_event env (MOUSEBUTTONDOWN 1 pos) s
            = Ok (Desktop.set_start_open false s1))) ∧
  (¬ (h - 112 <= snd (mouse env) < h - 76) →
   Desktop.handle_event env (MOUSEBUTTONDOWN 1 pos) s
     = Ok (Desktop.set_start_open false (Desktop.set_power_open true s))).
Proof.
  intros Hs Ho Hmh s h w Hb Hc.
  destruct (draw_start_menu_layout s0 Hs Ho) as (Ho' & Hs' & Hitems & Hpb & _).
  fold s h in Ho', Hs', Hitems, Hpb. rewrite Hmh in Hitems. fold w in Hitems, Hpb.
  split; [done|].
  assert (Desktop.click_start_button (mouse env) s = Next s) as Hsb.
  { unfold Desktop.click_start_button, on_start_button in *.
    destruct (Desktop.start_btn _); [by rewrite Hb | done]. }
  revert Hc. unfold Rect.collidepoint at 1. simpl.
  rewrite !andb_true_iff, !Z.leb_le, !Z.ltb_lt. intros [[[Hx1 Hx2] Hy1] Hy2].
  split.
  - intros Hrows.
    assert (Rect.collidepoint
              (Rect.mk 22 (h - 50 - 340 + 58 + 44 * Z.of_nat 5) (w - 24) 36)
              (mouse env) = true) as Hc5.
    { unfold Rect.collidepoint. simpl.
      rewrite !andb_true_iff, !Z.leb_le, !Z.ltb_lt. lia. }
    pose proof (click_start_menu_entry env pos s 5 "TicTacToe" _ _ Hs' Ho' Hitems
                  Hb eq_refl Hc5) as He.
    split; [exact He|]. intros Hn.
    assert (Desktop.windows (Desktop.dt s) = Desktop.windows (Desktop.dt s0)) as Hw
      by apply (drawn_layout s0 Hs).
    rewrite <- Hw in Hn.
    destruct (spawn_window_returns "TicTacToe" Desktop.default_size TTTApp
                (App.make TTTApp) s eq_refl eq_refl Hn) as [r Hsp]; [done | done |].
    eexists. split; [exact Hsp|]. by rewrite He, Hsp.
  - intros Hrows.
    unfold Desktop.handle_event. rewrite Hs'. unfold Desktop.route_click.
    rewrite Hsb. simpl. unfold Desktop.click_start_menu. rewrite Ho', Hitems, Hpb.
    assert (find (λ it, Rect.collidepoint it.1 (mouse env))
              (Desktop.layout_menu_items 22 (h - 50 - 340 + 58)
                 (w - 24) (map fst APP_MAP)) = None) as Hnone.
    { simpl. unfold Rect.collidepoint. simpl.
      repeat match goal with
             | |- context [(?a <=? ?b) && (?c <? ?d) && (?y1 <=? ?py) && (?py <? ?y2)] =>
                 replace ((a <=? b) && (c <? d) && (y1 <=? py) && (py <? y2))
                   with false
                   by (symmetry; rewrite !andb_false_iff, !Z.leb_gt, !Z.ltb_ge; lia)
             end.
      done. }
    cbn [from_option id]. rewrite Hnone.
    assert (Rect.collidepoint (Rect.mk 22 (h - 114) (w - 24) 44) (mouse env) = true)
      as ->.
    { unfold Rect.collidepoint. simpl.
      rewrite !andb_true_iff, !Z.leb_le, !Z.ltb_lt. lia. }
    done.
Qed.

Lemma power_button_shadowed_witness :
  Rect.collidepoint (Rect.mk 22 606 236 44) (30, 620) = true ∧
  ∃ s1, Desktop.spawn_window "TicTacToe" Desktop.default_size
          (Desktop.drawn menu_open_world) = Ok s1 ∧
        Desktop.handle_event (mkEnv (30, 620) false 0) (MOUSEBUTTONDOWN 1 (30, 620))
          (Desktop.drawn menu_open_world) = Ok (Desktop.set_start_open false s1).
Proof.
  split; [reflexivity|].
  refine (proj2 (proj1 (proj2 (power_button_shadowed (mkEnv (30, 620) false 0)
                                 (30, 620) menu_open_world eq_refl eq_refl eq_refl
                                 eq_refl eq_refl))
                   _) _).
  - vm_compute. split; [discriminate | reflexivity].
  - vm_compute. reflexivity.
Defined.

(** ** Icons and task-bar buttons *)

Lemma click_start_stages_next env s :
  Desktop.start_open (Desktop.dt s) = false →
  on_start_button (mouse env) s = false →
  and_then (Desktop.click_start_button (mouse env) s)
           (Desktop.click_start_menu (mouse env)) = Next s.
Proof.
  intros Ho Hb.
  assert (Desktop.click_start_button (mouse env) s = Next s) as ->.
  { unfold Desktop.click_start_button, on_start_button in *.
    destruct (Desktop.start_btn _); [by rewrite Hb | done]. }
  simpl. unfold Desktop.click_start_menu. by rewrite Ho.
Qed.

Lemma handle_event_icon_stage env pos s s' :
  Desktop.sleeping (Desktop.dt s) = false →
  Desktop.start_open (Desktop.dt s) = false →
  on_start_button (mouse env) s = false →
  Desktop.click_icons env s = Return s' →
  Desktop.handle_event env (MOUSEBUTTONDOWN 1 pos) s = Ok s'.
Proof.
  intros Hs Ho Hb Hi. unfold Desktop.handle_event, Desktop.route_click.
  by rewrite Hs, (click_start_stages_next env s Ho Hb); simpl; rewrite Hi.
Qed.

Lemma handle_event_icon_throw env pos s x :
  Desktop.sleeping (Desktop.dt s) = false →
  Desktop.start_open (Desktop.dt s) = false →
  on_start_button (mouse env) s = false →
  Desktop.click_icons env s = Throw x →
  Desktop.handle_event env (MOUSEBUTTONDOWN 1 pos) s = Raise x.
Proof.
  intros Hs Ho Hb Hi. unfold Desktop.handle_event, Desktop.route_click.
  by rewrite Hs, (click_start_stages_next env s Ho Hb); simpl; rewrite Hi.
Qed.

Lemma handle_event_task_stage env pos s s' :
  Desktop.sleeping (Desktop.dt s) = false →
  Desktop.start_open (Desktop.dt s) = false →
  on_start_button (mouse env) s = false →
  on_icon (mouse env) s = false →
  Desktop.click_task_buttons (mouse env) s = Return s' →
  Desktop.handle_event env (MOUSEBUTTONDOWN 1 pos) s = Ok s'.
Proof.
  intros Hs Ho Hb Hi Ht. unfold Desktop.handle_event, Desktop.route_click.
  rewrite Hs, (click_start_stages_next env s Ho Hb). simpl.
  assert (Desktop.click_icons env s = Next s) as ->.
  { unfold Desktop.click_icons, on_icon in *. by destruct (Desktop.find_icon _ _ _). }
  simpl. by rewrite Ht.
Qed.

Lemma find_icon_insert m (n : nat) l i ico ico' :
  Desktop.find_icon m n l = Some (i, ico) →
  Icon.rect ico' = Icon.rect ico →
  (n ≤ i)%nat ∧ l !! (i - n)%nat = Some ico ∧
  Desktop.find_icon m n (<[(i - n)%nat := ico']> l) = Some (i, ico').
Proof.
  intros Hf Hr. revert n Hf. induction l as [|a l IH]; intros n; simpl; [done|].
  destruct (Rect.collidepoint (Icon.rect a) m) eqn:Hc.
  - intros [= -> ->]. rewrite Nat.sub_diag. simpl. by rewrite Hr, Hc.
  - intros Hf. destruct (IH _ Hf) as (Hle & Hl & IH').
    replace (i - n)%nat with (S (i - S n)) by lia. simpl. rewrite Hc.
    split_and!; [lia | done | done].
Qed.

(** X14.  The test of a double click on a desktop icon is
    [last_click and now - last_click < 0.35], on the floats of
    [time.time()].  A left-button press on an icon for which the test
    fails grabs the icon and stamps the time on it, without touching the
    windows.  A second press at the same place for which the test holds (the
    stamp is not zero, and the difference, rounded as a float, is below
    0.35) calls [spawn_window] for the icon's application and, if that
    returns, clears the stamp; when the constructor returns and the cascade
    position fits in 64 bits, this leaves one new window on top.  A second
    press for which the test fails only grabs the icon again. *)
Theorem icon_double_click (env1 env2 : Env) (pos1 pos2 : Pos) (s : Desktop.world)
  (i : nat) (ico : Icon.t) (cls : AppClass) :
  Desktop.sleeping (Desktop.dt s) = false →
  Desktop.start_open (Desktop.dt s) = false →
  on_start_button (mouse env1) s = false →
  mouse env2 = mouse env1 →
  Desktop.find_icon (mouse env1) 0 (Desktop.icons (Desktop.dt s)) = Some (i, ico) →
  assoc (Icon.name ico) APP_MAP = Some cls →
  negb (PrimFloat.eqb (Icon.last_click ico) 0)
  && PrimFloat.ltb (PrimFloat.sub (now env1) (Icon.last_click ico)) 0.35 = false →
  let held t :=
    Icon.mk (Icon.name ico) (Icon.rect ico) t true
      (fst (mouse env1) - Rect.x (Icon.rect ico),
       snd (mouse env1) - Rect.y (Icon.rect ico)) in
  ∃ s1,
    Desktop.handle_event env1 (MOUSEBUTTONDOWN 1 pos1) s = Ok s1 ∧
    Desktop.windows (Desktop.dt s1) = Desktop.windows (Desktop.dt s) ∧
    Desktop.heap s1 = Desktop.heap s ∧
    Desktop.icons (Desktop.dt s1) = <[i := held (now env1)]> (Desktop.icons (Desktop.dt s)) ∧
    (negb (PrimFloat.eqb (now env1) 0)
     && PrimFloat.ltb (PrimFloat.sub (now env2) (now env1)) 0.35 = true →
     Desktop.handle_event env2 (MOUSEBUTTONDOWN 1 pos2) s1 =
       (s' ← Desktop.spawn_window (Icon.name ico) Desktop.default_size s1;
        Ok (Desktop.set_icons (<[i := held 0%float]> (Desktop.icons (Desktop.dt s')))
              s')) ∧
     (∀ x, App.new cls (Desktop.memory_json s) = Raise x →
           Desktop.handle_event env2 (MOUSEBUTTONDOWN 1 pos2) s1 = Raise x) ∧
     (∀ a, App.new cls (Desktop.memory_json s) = Ok a →
        180 + Z.of_nat (length (Desktop.windows (Desktop.dt s))) * 16 < 2 ^ 63 →
        ∃ s2 o,
          Desktop.handle_event env2 (MOUSEBUTTONDOWN 1 pos2) s1 = Ok s2 ∧
          Desktop.windows (Desktop.dt s2)
            = Desktop.windows (Desktop.dt s) ++ [length (Desktop.heap s)] ∧
          Desktop.heap s2 = Desktop.heap s ++ [o] ∧
          Window.title o = Icon.name ico ∧
          Desktop.icons (Desktop.dt s2)
            = <[i := held 0%float]> (Desktop.icons (Desktop.dt s)))) ∧
    (negb (PrimFloat.eqb (now env1) 0)
     && PrimFloat.ltb (PrimFloat.sub (now env2) (now env1)) 0.35 = false →
     ∃ s2,
       Desktop.handle_event env2 (MOUSEBUTTONDOWN 1 pos2) s1 = Ok s2 ∧
       Desktop.windows (Desktop.dt s2) = Desktop.windows (Desktop.dt s) ∧
       Desktop.heap s2 = Desktop.heap s ∧
       Desktop.icons (Desktop.dt s2)
         = <[i := held (now env2)]> (Desktop.icons (Desktop.dt s))).
Proof.
  intros Hs Ho Hb Hm Hf Hcls Hfirst held.
  set (s1 := Desktop.set_drag_icon (Some i)
               (Desktop.set_icons (<[i := held (now env1)]> (Desktop.icons (Desktop.dt s)))
                  s)).
  assert (Desktop.click_icons env1 s = Return s1) as Hc1.
  { unfold Desktop.click_icons. rewrite Hf. by rewrite Hfirst. }
  destruct (find_icon_insert _ _ _ _ _ (held (now env1)) Hf eq_refl)
    as (_ & Hl & Hf1).
  rewrite Nat.sub_0_r in Hl, Hf1.
  assert (Desktop.find_icon (mouse env2) 0 (Desktop.icons (Desktop.dt s1))
          = Some (i, held (now env1))) as Hf2 by (by rewrite Hm).
  exists s1. split_and!; try done.
  - by apply handle_event_icon_stage.
  - intros Hfast.
    assert (Desktop.handle_event env2 (MOUSEBUTTONDOWN 1 pos2) s1 =
            (s' ← Desktop.spawn_window (Icon.name ico) Desktop.default_size s1;
             Ok (Desktop.set_icons
                   (<[i := held 0%float]> (Desktop.icons (Desktop.dt s'))) s')))
      as He.
    { destruct (Desktop.spawn_window (Icon.name ico) Desktop.default_size s1)
        as [s'|x] eqn:Hsp; simpl.
      - apply handle_event_icon_stage; [done | done | by rewrite Hm |].
        unfold Desktop.click_icons. rewrite Hf2.
        cbn [Icon.last_click Icon.name Icon.rect Icon.dragging Icon.off held].
        by rewrite Hfast, Hsp.
      - apply handle_event_icon_throw; [done | done | by rewrite Hm |].
        unfold Desktop.click_icons. rewrite Hf2.
        cbn [Icon.last_click Icon.name Icon.rect Icon.dragging Icon.off held].
        by rewrite Hfast, Hsp. }
    split; [exact He|]. split.
    + intros x Hx. rewrite He. unfold Desktop.spawn_window, APP_MAP_getitem.
      rewrite Hcls. simpl.
      replace (Desktop.memory_json s1) with (Desktop.memory_json s) by done.
      by rewrite Hx.
    + intros a Ha Hn.
      destruct (spawn_window_returns (Icon.name ico) Desktop.default_size cls a s1
                  Hcls Ha Hn) as [r Hsp]; [done | done |].
      eexists _, _. split; [rewrite He, Hsp; reflexivity|].
      split; [done|]. split; [done|]. split.
      * simpl. rewrite (app_new_inv _ _ _ Ha). by apply registry_key_is_name.
      * simpl. by rewrite list_insert_insert_eq.
  - intros Hslow. eexists. split_and!.
    + apply handle_event_icon_stage; [done | done | by rewrite Hm |].
      unfold Desktop.click_icons. rewrite Hf2.
      cbn [Icon.last_click Icon.name held]. by rewrite Hslow.
    + done.
    + done.
    + simpl. rewrite Hm. by rewrite list_insert_insert_eq.
Qed.

(** X15.  With the pointer on the task-bar button of the top window of the
    z-order, a left-button press minimizes that window, and a second press
    at the same place restores it: the desktop is back in the state before
    the two presses. *)
Theorem task_button_toggle (env : Env) (pos : Pos) (s : Desktop.world)
  (btn : Rect.t) (win : nat) (o : Window.t) :
  Desktop.sleeping (Desktop.dt s) = false →
  Desktop.start_open (Desktop.dt s) = false →
  on_start_button (mouse env) s = false →
  on_icon (mouse env) s = false →
  find (λ b, Rect.collidepoint (fst b) (mouse env))
       (default [] (Desktop.task_buttons (Desktop.dt s))) = Some (btn, win) →
  Desktop.heap s !! win = Some o →
  Window.minimized o = false →
  last (Desktop.windows (Desktop.dt s)) = Some win →
  let s1 := Desktop.update_win win (Window.set_minimized true) s in
  Desktop.handle_event env (MOUSEBUTTONDOWN 1 pos) s = Ok s1 ∧
  Desktop.heap s1 !! win = Some (Window.set_minimized true o) ∧
  Desktop.handle_event env (MOUSEBUTTONDOWN 1 pos) s1 = Ok s.
Proof.
  intros Hs Ho Hb Hi Hf Hw Hmin Hlast s1.
  assert (s1 = Desktop.set_heap (<[win := Window.set_minimized true o]> (Desktop.heap s)) s)
    as Hs1 by (unfold s1, Desktop.update_win; by rewrite Hw).
  assert (Desktop.heap s1 !! win = Some (Window.set_minimized true o)) as Hw1.
  { rewrite Hs1. simpl. apply list_lookup_insert_eq. by eapply lookup_lt_Some. }
  split_and!; [|done|].
  - apply handle_event_task_stage; try done.
    unfold Desktop.click_task_buttons. rewrite Hf, Hw, Hmin, Hlast.
    by rewrite bool_decide_eq_true_2.
  - assert (Desktop.update_win win (Window.set_minimized false) s1 = s) as Hback.
    { unfold Desktop.update_win. rewrite Hw1, Hs1. simpl.
      rewrite list_insert_insert_eq.
      replace (Window.set_minimized false (Window.set_minimized true o)) with o
        by (destruct o; simpl in *; by subst).
      rewrite list_insert_id by done. by destruct s. }
    apply handle_event_task_stage; try by rewrite Hs1.
    unfold Desktop.click_task_buttons.
    replace (Desktop.task_buttons (Desktop.dt s1))
      with (Desktop.task_buttons (Desktop.dt s)) by (by rewrite Hs1).
    rewrite Hf, Hw1. cbn [Window.minimized Window.set_minimized].
    rewrite Hback. by rewrite (focus_top win s Hlast).
Qed.

Lemma icon_double_click_witness :
  PrimFloat.sub (seconds 813) (seconds 463) = 0.3499999999999999%float ∧
  ∃ ico s1 s2 o,
    Desktop.find_icon (40, 40) 0 (Desktop.icons (Desktop.dt drawn_world))
      = Some (0%nat, ico) ∧
    Desktop.handle_event (mkEnv (40, 40) false (seconds 463))
      (MOUSEBUTTONDOWN 1 (40, 40)) drawn_world = Ok s1 ∧
    Desktop.handle_event (mkEnv (40, 40) false (seconds 813))
      (MOUSEBUTTONDOWN 1 (40, 40)) s1 = Ok s2 ∧
    Desktop.heap s2 = Desktop.heap drawn_world ++ [o] ∧
    Window.title o = Icon.name ico.
Proof.
  split; [vm_compute; reflexivity|].
  destruct (Desktop.find_icon (40, 40) 0 (Desktop.icons (Desktop.dt drawn_world)))
    as [[i ico]|] eqn:Hf; [|by vm_compute in Hf].
  assert (i = 0%nat) as -> by (vm_compute in Hf; congruence).
  assert (assoc (Icon.name ico) APP_MAP = Some NotesApp) as Hcls
    by (vm_compute in Hf; by simplify_eq).
  assert (Icon.last_click ico = 0%float) as Hlast
    by (vm_compute in Hf; by simplify_eq).
  destruct (icon_double_click (mkEnv (40, 40) false (seconds 463))
              (mkEnv (40, 40) false (seconds 813))
              (40, 40) (40, 40) drawn_world 0 ico NotesApp
              eq_refl eq_refl eq_refl eq_refl Hf Hcls
              ltac:(rewrite Hlast; vm_compute; reflexivity))
    as (s1 & H1 & _ & _ & _ & Hfast & _).
  destruct (Hfast ltac:(vm_compute; reflexivity)) as (_ & _ & Hwin).
  destruct (Hwin (App.make NotesApp) eq_refl ltac:(vm_compute; reflexivity))
    as (s2 & o & H2 & _ & Hh & Ht & _).
  by exists ico, s1, s2, o.
Defined.

Lemma task_button_toggle_witness :
  ∃ s1,
    Desktop.handle_event (mkEnv (140, 690) false 0) (MOUSEBUTTONDOWN 1 (140, 690))
      drawn_world = Ok s1 ∧
    Desktop.handle_event (mkEnv (140, 690) false 0) (MOUSEBUTTONDOWN 1 (140, 690))
      s1 = Ok drawn_world.
Proof.
  destruct (Desktop.heap drawn_world !! 0%nat) as [o|] eqn:Hw;
    [|by vm_compute in Hw].
  assert (Window.minimized o = false) as Hmin by (vm_compute in Hw; by simplify_eq).
  destruct (task_button_toggle (mkEnv (140, 690) false 0) (140, 690) drawn_world
              (Rect.mk 136 682 160 36) 0 o
              eq_refl eq_refl eq_refl eq_refl eq_refl Hw Hmin eq_refl)
    as (H1 & _ & H2).
  eauto.
Defined.

(** X16.  The task-bar buttons are those of the last frame drawn.  A
    left-button press on the button of a window that has left the z-order
    since (closed within the same frame) raises ValueError from
    [list.remove] as long as another window is open; on an empty z-order it
    raises nothing, and un-minimizes the closed window if it was
    minimized. *)
Theorem stale_task_button (env : Env) (pos : Pos) (s : Desktop.world)
  (btn : Rect.t) (win : nat) (o : Window.t) :
  Desktop.sleeping (Desktop.dt s) = false →
  Desktop.start_open (Desktop.dt s) = false →
  on_start_button (mouse env) s = false →
  on_icon (mouse env) s = false →
  find (λ b, Rect.collidepoint (fst b) (mouse env))
       (default [] (Desktop.task_buttons (Desktop.dt s))) = Some (btn, win) →
  Desktop.heap s !! win = Some o →
  win ∉ Desktop.windows (Desktop.dt s) →
  Desktop.handle_event env (MOUSEBUTTONDOWN 1 pos) s =
    match Desktop.windows (Desktop.dt s) with
    | [] => Ok (if Window.minimized o
                then Desktop.update_win win (Window.set_minimized false) s
                else s)
    | _ :: _ => Raise ValueError
    end.
Proof.
  intros Hs Ho Hb Hi Hf Hw Hout.
  unfold Desktop.handle_event, Desktop.route_click.
  rewrite Hs, (click_start_stages_next env s Ho Hb). simpl.
  assert (Desktop.click_icons env s = Next s) as ->.
  { unfold Desktop.click_icons, on_icon in *. by destruct (Desktop.find_icon _ _ _). }
  simpl. unfold Desktop.click_task_buttons. rewrite Hf, Hw.
  assert (∀ s', Desktop.windows (Desktop.dt s') = Desktop.windows (Desktop.dt s) →
                Desktop.focus win s' =
                  match Desktop.windows (Desktop.dt s) with
                  | [] => Ok s'
                  | _ :: _ => Raise ValueError
                  end) as Hfocus.
  { intros s' Hsame. destruct (Desktop.windows (Desktop.dt s)) as [|a l] eqn:Hl.
    - by apply focus_empty.
    - destruct (last (a :: l)) as [top|] eqn:Hlast; [|by apply last_None in Hlast].
      assert (top ≠ win) as Hne.
      { intros ->. apply Hout. by eapply last_Some_elem_of. }
      apply (focus_absent win top); [by rewrite Hsame | done | by rewrite Hsame]. }
  destruct (Window.minimized o).
  - rewrite Hfocus by (unfold Desktop.update_win; by rewrite Hw).
    by destruct (Desktop.windows (Desktop.dt s)).
  - rewrite bool_decide_eq_false_2.
    + rewrite (Hfocus s eq_refl). by destruct (Desktop.windows (Desktop.dt s)).
    + intros Hlast. apply Hout. by eapply last_Some_elem_of.
Qed.

Lemma stale_task_button_witness :
  (1%nat ∉ Desktop.windows (Desktop.dt stale_world)) ∧
  Desktop.handle_event (mkEnv (310, 690) false 3000) (MOUSEBUTTONDOWN 1 (310, 690))
    stale_world = Raise ValueError.
Proof.
  assert (1%nat ∉ Desktop.windows (Desktop.dt stale_world)) as Hout.
  { apply (bool_decide_unpack _). vm_compute. exact I. }
  destruct (Desktop.heap stale_world !! 1%nat) as [o|] eqn:Hw;
    [|by vm_compute in Hw].
  exact (conj Hout
           (stale_task_button (mkEnv (310, 690) false 3000) (310, 690) stale_world
              (Rect.mk 302 682 160 36) 1 o
              eq_refl eq_refl eq_refl eq_refl eq_refl Hw Hout)).
Defined.

(** ** What a run can raise *)










































(** A frame ends with [pygame.error] or not at all. *)
Lemma draw_raises s x :
  well_formed s → Desktop.draw s = Raise x → x = PygameError.
Proof.
  intros [_ Hb]. unfold Desktop.draw. destruct (Desktop.sleeping _); [done|].
  pose proof (draw_windows_outcome _ s Hb) as Ho.
  destruct (Desktop.draw_windows _ s); simpl; [done|].
  intros [= <-]. apply Ho.
Qed.





(** ** The applications *)

(** *** InputManager *)

Lemma input_manager_held (k : Z) (es : list Typed) (held : InputManager.t) :
  k ∈ held → (∀ e, e ∈ es → typed_event e ≠ KEYUP k) →
  k ∈ (InputManager.run es held).1 ∧
  ∀ i e, es !! i = Some e → typed_event e = KEYDOWN k →
         (InputManager.run es held).2 !! i = Some [].
Proof.
  revert held. induction es as [|e es IH]; intros held Hin Hup; simpl; [done|].
  destruct (InputManager.handle_event e held) as [k1 out] eqn:He.
  assert (k ∈ k1 ∧ (typed_event e = KEYDOWN k → out = [])) as [Hk1 Hout].
  { revert He. unfold InputManager.handle_event.
    destruct (typed_event e) as [| | |key|key| | |] eqn:Hev;
      try (intros [= <- <-]; by split).
    - case_bool_decide as Hheld; intros [= <- <-].
      + split; [by apply elem_of_union_r|]. intros [= ->]. done.
      + by split.
    - assert (key ≠ k) as Hne.
      { intros ->. apply (Hup e); [by left | done]. }
      case_bool_decide; intros [= <- <-]; (split; [|done]); [|done].
      apply elem_of_difference. split; [done|].
      intros ?%elem_of_singleton. by apply Hne. }
  destruct (IH k1 Hk1) as [IH1 IH2]; [intros e' He'; apply Hup; by right|].
  destruct (InputManager.run es k1) as [k2 outs]. simpl in *. split; [done|].
  intros [|i] e'; simpl.
  - intros [= <-] Hkd. by rewrite Hout.
  - apply IH2.
Qed.

(** X18.  The input manager returns the character of a key once per
    press: a KEYDOWN of a key that is not held returns the event's
    [unicode], and from then on, until a KEYUP of that key, every further
    KEYDOWN of it returns the empty string, whatever other events come in
    between. *)
Theorem input_manager_once (k : Z) (u : str) (es : list Typed)
  (held : InputManager.t) :
  k ∉ held → (∀ e, e ∈ es → typed_event e ≠ KEYUP k) →
  let first := InputManager.handle_event (mkTyped (KEYDOWN k) u) held in
  first.2 = u ∧
  k ∈ (InputManager.run es first.1).1 ∧
  ∀ i e, es !! i = Some e → typed_event e = KEYDOWN k →
         (InputManager.run es first.1).2 !! i = Some [].
Proof.
  intros Hout Hup first. subst first. unfold InputManager.handle_event at 1 2 3.
  simpl. rewrite bool_decide_eq_true_2 by done. simpl. split; [done|].
  apply input_manager_held; [|done].
  apply elem_of_union_l. by apply elem_of_singleton.
Qed.

Lemma input_manager_once_witness :
  (InputManager.run [mkTyped (KEYDOWN 97) []; mkTyped (KEYDOWN 98) []]
     (InputManager.handle_event (mkTyped (KEYDOWN 97) []) ∅).1).2 !! 0%nat
  = Some [].
Proof.
  refine (proj2 (proj2 (input_manager_once 97 []
            [mkTyped (KEYDOWN 97) []; mkTyped (KEYDOWN 98) []] ∅ _ _))
            0%nat (mkTyped (KEYDOWN 97) []) eq_refl eq_refl).
  - apply not_elem_of_empty.
  - intros e [->|[->|?%not_elem_of_nil]%elem_of_cons]%elem_of_cons; done.
Defined.

(** *** NotesApp *)

Lemma slice_to_take {A} (l : list A) c :
  0 <= c <= len l → slice_to c l = take (Z.to_nat c) l.
Proof.
  unfold len, slice_to, slice_index. intros Hc.
  destruct (Z.ltb_spec c 0); [lia|]. by rewrite Z.min_l by lia.
Qed.

Lemma slice_from_drop {A} (l : list A) c :
  0 <= c <= len l → slice_from c l = drop (Z.to_nat c) l.
Proof.
  unfold len, slice_from, slice_index. intros Hc.
  destruct (Z.ltb_spec c 0); [lia|]. by rewrite Z.min_l by lia.
Qed.

(** What one event does to the text and the cursor, the file and the clock
    left aside. *)
Lemma notes_handle_event_edit h e w :
  cursor_in_text (NotesApp.app w) →
  let a := NotesApp.app w in
  let a' := NotesApp.app (NotesApp.handle_event h e w) in
  let c := Z.to_nat (NotesApp.cursor a) in
  let char := (InputManager.handle_event e (NotesApp.input_manager w)).2 in
  NotesApp.input_manager (NotesApp.handle_event h e w)
    = (InputManager.handle_event e (NotesApp.input_manager w)).1 ∧
  match typed_event e with
  | KEYDOWN key =>
      if (key =? K_s) && mods_ctrl h then
        NotesApp.text a' = NotesApp.text a ∧ NotesApp.cursor a' = NotesApp.cursor a
      else if key =? K_BACKSPACE then
        if 0 <? NotesApp.cursor a then
          NotesApp.text a' = take (c - 1) (NotesApp.text a) ++ drop c (NotesApp.text a) ∧
          NotesApp.cursor a' = NotesApp.cursor a - 1
        else NotesApp.text a' = NotesApp.text a ∧ NotesApp.cursor a' = NotesApp.cursor a
      else if key =? K_RETURN then
        NotesApp.text a' = take c (NotesApp.text a) ++ [NotesApp.newline]
                             ++ drop c (NotesApp.text a) ∧
        NotesApp.cursor a' = NotesApp.cursor a + 1
      else if key =? K_LEFT then
        NotesApp.text a' = NotesApp.text a ∧
        NotesApp.cursor a' = Z.max 0 (NotesApp.cursor a - 1)
      else if key =? K_RIGHT then
        NotesApp.text a' = NotesApp.text a ∧
        NotesApp.cursor a' = Z.min (len (NotesApp.text a)) (NotesApp.cursor a + 1)
      else
        match char with
        | [] => NotesApp.text a' = NotesApp.text a ∧
                NotesApp.cursor a' = NotesApp.cursor a
        | _ :: _ =>
            NotesApp.text a' = take c (NotesApp.text a) ++ char
                                 ++ drop c (NotesApp.text a) ∧
            NotesApp.cursor a' = NotesApp.cursor a + 1
        end
  | _ => NotesApp.text a' = NotesApp.text a ∧ NotesApp.cursor a' = NotesApp.cursor a
  end.
Proof.
  intros Hc a a' c char. subst a a' c char. unfold cursor_in_text in Hc.
  unfold NotesApp.handle_event.
  destruct (InputManager.handle_event e (NotesApp.input_manager w)) as [im char].
  cbn [fst snd].
  destruct (typed_event e) as [| | |key|key| | |];
    try (split; [|split]; by case_match).
  destruct ((key =? K_s) && mods_ctrl h); [split; [|split]; by case_match|].
  destruct (key =? K_BACKSPACE).
  { destruct (Z.ltb_spec 0 (NotesApp.cursor (NotesApp.app w))).
    - rewrite slice_to_take, slice_from_drop by lia.
      replace (Z.to_nat (NotesApp.cursor (NotesApp.app w) - 1))
        with (Z.to_nat (NotesApp.cursor (NotesApp.app w)) - 1)%nat by lia.
      split; [|split]; by case_match.
    - split; [|split]; by case_match. }
  destruct (key =? K_RETURN).
  { rewrite slice_to_take, slice_from_drop by lia.
    split; [|split]; by case_match. }
  destruct (key =? K_LEFT); [split; [|split]; by case_match|].
  destruct (key =? K_RIGHT); [split; [|split]; by case_match|].
  destruct char as [|ch char]; [split; [|split]; by case_match|].
  rewrite slice_to_take, slice_from_drop by lia.
  split; [|split]; by case_match.
Qed.

Lemma notes_handle_event_cursor h e w :
  cursor_in_text (NotesApp.app w) →
  cursor_in_text (NotesApp.app (NotesApp.handle_event h e w)).
Proof.
  intros Hc. destruct (notes_handle_event_edit h e w Hc) as [_ He].
  unfold cursor_in_text, len in *. revert He.
  repeat case_match; intros [-> ->];
    rewrite ?length_app, ?length_take, ?length_drop; simpl;
    rewrite ?length_app, ?length_drop; simpl; lia.
Qed.

(** X19.  In a session of the notes application, from its creation on, the
    cursor always lies within the text: 0 <= cursor <= len(text), so the
    slices of [handle_event] never see a negative or overlong index. *)
Theorem notes_cursor_in_text (h0 : Host) (file : option str)
  (held : InputManager.t) (es : list (Host * Typed)) :
  cursor_in_text
    (NotesApp.app
       (NotesApp.run es (NotesApp.mkWorld (NotesApp.new h0 file) held file))).
Proof.
  unfold NotesApp.run.
  assert (cursor_in_text
            (NotesApp.app (NotesApp.mkWorld (NotesApp.new h0 file) held file)))
    as Hc by (unfold cursor_in_text; simpl; unfold len; lia).
  revert Hc. generalize (NotesApp.mkWorld (NotesApp.new h0 file) held file).
  induction es as [|[h e] es IH]; intros w Hc; simpl; [done|].
  by apply IH, notes_handle_event_cursor.
Qed.

Lemma take_past_one {A} (l1 : list A) x l2 n :
  n = (length l1 + 1)%nat → take n (l1 ++ x :: l2) = l1 ++ [x].
Proof.
  intros ->. rewrite (cons_middle x), app_assoc.
  apply take_app_length'. rewrite length_app. simpl. lia.
Qed.

Lemma drop_past_one {A} (l1 : list A) x l2 n :
  n = (length l1 + 1)%nat → drop n (l1 ++ x :: l2) = l2.
Proof.
  intros ->. rewrite (cons_middle x), app_assoc.
  apply drop_app_length'. rewrite length_app. simpl. lia.
Qed.

Lemma notes_command_false h key :
  notes_command h key = false →
  (key =? K_s) && mods_ctrl h = false ∧ (key =? K_BACKSPACE) = false ∧
  (key =? K_RETURN) = false ∧ (key =? K_LEFT) = false ∧ (key =? K_RIGHT) = false.
Proof.
  unfold notes_command. rewrite !orb_false_iff. tauto.
Qed.

(** X20.  The same KEYDOWN event handled twice by the notes (the main loop
    hands every event to the window under the pointer twice): a character
    key that was not held inserts its character once, the second delivery
    being absorbed by the input manager, but Return, which is not guarded by
    it, inserts two line breaks. *)
Theorem notes_double_delivery (h1 h2 : Host) (key : Z) (u : str)
  (w : NotesApp.world) :
  cursor_in_text (NotesApp.app w) →
  key ∉ NotesApp.input_manager w →
  let e := mkTyped (KEYDOWN key) u in
  let a := NotesApp.app w in
  let a2 := NotesApp.app (NotesApp.handle_event h2 e (NotesApp.handle_event h1 e w)) in
  let c := Z.to_nat (NotesApp.cursor a) in
  (key = K_RETURN →
   NotesApp.text a2 = take c (NotesApp.text a)
                        ++ [NotesApp.newline; NotesApp.newline]
                        ++ drop c (NotesApp.text a) ∧
   NotesApp.cursor a2 = NotesApp.cursor a + 2) ∧
  (notes_command h1 key = false → notes_command h2 key = false → u ≠ [] →
   NotesApp.text a2 = take c (NotesApp.text a) ++ u ++ drop c (NotesApp.text a) ∧
   NotesApp.cursor a2 = NotesApp.cursor a + 1).
Proof.
  intros Hc Hheld e a a2 c. subst a a2 c.
  pose proof (notes_handle_event_cursor h1 e w Hc) as Hc1.
  destruct (notes_handle_event_edit h1 e w Hc) as [Him1 He1].
  destruct (notes_handle_event_edit h2 e _ Hc1) as [_ He2].
  set (w1 := NotesApp.handle_event h1 e w) in *.
  assert ((InputManager.handle_event e (NotesApp.input_manager w)).2 = u ∧
          (InputManager.handle_event e (NotesApp.input_manager w1)).2 = []) as [Hu1 Hu2].
  { rewrite Him1. unfold InputManager.handle_event. simpl.
    rewrite bool_decide_eq_true_2 by done. simpl.
    rewrite bool_decide_eq_false_2; [done|].
    intros Hn. apply Hn. apply elem_of_union_l. by apply elem_of_singleton. }
  rewrite Hu1 in He1. rewrite Hu2 in He2. simpl in He1, He2.
  unfold cursor_in_text, len in Hc. split.
  - intros ->. simpl in He1, He2. destruct He1 as [Ht1 Hk1], He2 as [Ht2 Hk2].
    rewrite Hk2, Hk1, Ht2, Ht1, Hk1. split; [|lia].
    rewrite (take_past_one _ _ _ _) by (rewrite length_take; lia).
    rewrite (drop_past_one _ _ _ _) by (rewrite length_take; lia).
    by rewrite <- app_assoc.
  - intros (E1 & E2 & E3 & E4 & E5)%notes_command_false
           (F1 & F2 & F3 & F4 & F5)%notes_command_false Hne.
    rewrite E1, E2, E3, E4, E5 in He1. rewrite F1, F2, F3, F4, F5 in He2.
    destruct u as [|ch u]; [done|].
    destruct He1 as [Ht1 Hk1], He2 as [Ht2 Hk2]. by rewrite Ht2, Hk2, Ht1, Hk1.
Qed.

Lemma notes_double_delivery_witness :
  let w := NotesApp.mkWorld (NotesApp.new (mkHost false 0 true) None) ∅ None in
  let e := mkTyped (KEYDOWN K_RETURN) [NotesApp.newline] in
  NotesApp.text
    (NotesApp.app
       (NotesApp.handle_event (mkHost false 20 true) e
          (NotesApp.handle_event (mkHost false 10 true) e w)))
  = [NotesApp.newline; NotesApp.newline].
Proof.
  refine (proj1 (proj1 (notes_double_delivery (mkHost false 10 true)
                          (mkHost false 20 true) K_RETURN [NotesApp.newline]
                          (NotesApp.mkWorld (NotesApp.new (mkHost false 0 true) None)
                             ∅ None) _ _) eq_refl)).
  - unfold cursor_in_text. simpl. unfold len. simpl. lia.
  - apply not_elem_of_empty.
Defined.

(** X21.  Typing one character and pressing Backspace gives back the text
    and the cursor as they were.  (With a [unicode] of several characters
    the cursor advances by one only, and Backspace removes the first of
    them.) *)
Theorem notes_type_then_backspace (h1 h2 : Host) (key : Z) (ch : Ascii.ascii)
  (w : NotesApp.world) :
  cursor_in_text (NotesApp.app w) →
  key ∉ NotesApp.input_manager w →
  notes_command h1 key = false →
  let a := NotesApp.app w in
  let a2 := NotesApp.app
              (NotesApp.handle_event h2 (mkTyped (KEYDOWN K_BACKSPACE) [])
                 (NotesApp.handle_event h1 (mkTyped (KEYDOWN key) [ch]) w)) in
  NotesApp.text a2 = NotesApp.text a ∧ NotesApp.cursor a2 = NotesApp.cursor a.
Proof.
  intros Hc Hheld (E1 & E2 & E3 & E4 & E5)%notes_command_false a a2. subst a a2.
  pose proof (notes_handle_event_cursor h1 (mkTyped (KEYDOWN key) [ch]) w Hc) as Hc1.
  destruct (notes_handle_event_edit h1 (mkTyped (KEYDOWN key) [ch]) w Hc) as [_ He1].
  destruct (notes_handle_event_edit h2 (mkTyped (KEYDOWN K_BACKSPACE) []) _ Hc1)
    as [_ He2].
  set (w1 := NotesApp.handle_event h1 (mkTyped (KEYDOWN key) [ch]) w) in *.
  assert ((InputManager.handle_event (mkTyped (KEYDOWN key) [ch])
             (NotesApp.input_manager w)).2 = [ch]) as Hu1.
  { unfold InputManager.handle_event. simpl. by rewrite bool_decide_eq_true_2. }
  rewrite Hu1 in He1. simpl in He1. rewrite E1, E2, E3, E4, E5 in He1.
  destruct He1 as [Ht1 Hk1]. unfold cursor_in_text, len in Hc.
  simpl in He2.
  destruct (Z.ltb_spec 0 (NotesApp.cursor (NotesApp.app w1))); [|lia].
  destruct He2 as [Ht2 Hk2]. rewrite Ht2, Hk2, Hk1, Ht1. split; [|lia].
  rewrite (drop_past_one _ _ _ _) by (rewrite length_take; lia).
  replace (Z.to_nat (NotesApp.cursor (NotesApp.app w) + 1) - 1)%nat
    with (Z.to_nat (NotesApp.cursor (NotesApp.app w))) by lia.
  rewrite take_app_length' by (rewrite length_take; lia). apply take_drop.
Qed.

Lemma notes_type_then_backspace_witness :
  let w := NotesApp.mkWorld (NotesApp.new (mkHost false 0 true) None) ∅ None in
  NotesApp.text
    (NotesApp.app
       (NotesApp.handle_event (mkHost false 20 true) (mkTyped (KEYDOWN K_BACKSPACE) [])
          (NotesApp.handle_event (mkHost false 10 true)
             (mkTyped (KEYDOWN 97) [NotesApp.newline]) w)))
  = [].
Proof.
  refine (proj1 (notes_type_then_backspace (mkHost false 10 true)
                   (mkHost false 20 true) 97 NotesApp.newline
                   (NotesApp.mkWorld (NotesApp.new (mkHost false 0 true) None)
                      ∅ None) _ _ eq_refl)).
  - unfold cursor_in_text. simpl. unfold len. simpl. lia.
  - apply not_elem_of_empty.
Defined.

(** *** SettingsApp *)

Lemma settings_handle_event_ok e a g :
  settings_ok (SettingsApp.theme a) (SettingsApp.wall a) →
  settings_ok (SETTINGS.theme g) (SETTINGS.wallpaper_index g) →
  settings_ok (SettingsApp.theme (SettingsApp.handle_event e a g).1)
              (SettingsApp.wall (SettingsApp.handle_event e a g).1) ∧
  settings_ok (SETTINGS.theme (SettingsApp.handle_event e a g).2)
              (SETTINGS.wallpaper_index (SettingsApp.handle_event e a g).2).
Proof.
  unfold settings_ok, WALLPAPERS_len. intros [Ht Hw] [Hgt Hgw].
  unfold SettingsApp.handle_event, WALLPAPERS_len.
  repeat case_match; simpl; split_and!; try done; try lia; auto;
    apply Z.mod_pos_bound; lia.
Qed.

(** X22.  Whatever keys the settings application receives, its theme and
    the applied theme stay one of the two keys of [THEMES], and its
    wallpaper index and the applied one stay valid indices of
    [WALLPAPERS]. *)
Theorem settings_stay_valid (es : list Event) (a : SettingsApp.t) (g : SETTINGS.t) :
  settings_ok (SettingsApp.theme a) (SettingsApp.wall a) →
  settings_ok (SETTINGS.theme g) (SETTINGS.wallpaper_index g) →
  settings_ok (SettingsApp.theme (SettingsApp.run es a g).1)
              (SettingsApp.wall (SettingsApp.run es a g).1) ∧
  settings_ok (SETTINGS.theme (SettingsApp.run es a g).2)
              (SETTINGS.wallpaper_index (SettingsApp.run es a g).2).
Proof.
  unfold SettingsApp.run. revert a g.
  induction es as [|e es IH]; intros a g Ha Hg; simpl; [done|].
  destruct (settings_handle_event_ok e a g Ha Hg) as [Ha' Hg'].
  destruct (SettingsApp.handle_event e a g) as [a' g'] eqn:E. simpl in *.
  exact (IH a' g' Ha' Hg').
Qed.

Lemma settings_stay_valid_witness :
  settings_ok
    (SETTINGS.theme
       (SettingsApp.run [KEYDOWN K_LEFT; KEYDOWN K_t; KEYDOWN K_RETURN]
          (SettingsApp.new SETTINGS.initial) SETTINGS.initial).2)
    (SETTINGS.wallpaper_index
       (SettingsApp.run [KEYDOWN K_LEFT; KEYDOWN K_t; KEYDOWN K_RETURN]
          (SettingsApp.new SETTINGS.initial) SETTINGS.initial).2).
Proof.
  refine (proj2 (settings_stay_valid [KEYDOWN K_LEFT; KEYDOWN K_t; KEYDOWN K_RETURN]
                   (SettingsApp.new SETTINGS.initial) SETTINGS.initial _ _));
    (split; [by left | done]).
Defined.

(** X23.  In the settings application the Left and Right keys undo each
    other on a valid wallpaper index, going round the ends of [WALLPAPERS],
    and T pressed twice gives back the theme. *)
Theorem settings_round_trips (a : SettingsApp.t) (g : SETTINGS.t) :
  settings_ok (SettingsApp.theme a) (SettingsApp.wall a) →
  SettingsApp.run [KEYDOWN K_LEFT; KEYDOWN K_RIGHT] a g = (a, g) ∧
  SettingsApp.run [KEYDOWN K_RIGHT; KEYDOWN K_LEFT] a g = (a, g) ∧
  SettingsApp.run [KEYDOWN K_t; KEYDOWN K_t] a g = (a, g) ∧
  (SettingsApp.run [KEYDOWN K_LEFT] a g).1
    = SettingsApp.mk (SettingsApp.theme a)
        (if SettingsApp.wall a =? 0 then 4 else SettingsApp.wall a - 1).
Proof.
  unfold settings_ok, WALLPAPERS_len. intros [Ht Hw].
  destruct a as [th wl]. simpl in *. unfold SettingsApp.run. simpl.
  unfold WALLPAPERS_len.
  assert (wl = 0 ∨ wl = 1 ∨ wl = 2 ∨ wl = 3 ∨ wl = 4) as Hcases by lia.
  split_and!.
  - by destruct Hcases as [->|[->|[->|[->| ->]]]].
  - by destruct Hcases as [->|[->|[->|[->| ->]]]].
  - by destruct Ht as [-> | ->].
  - by destruct Hcases as [->|[->|[->|[->| ->]]]].
Qed.

Lemma settings_round_trips_witness :
  (SettingsApp.run [KEYDOWN K_LEFT] (SettingsApp.new SETTINGS.initial)
     SETTINGS.initial).1 = SettingsApp.mk "Dark" 4.
Proof.
  refine (proj2 (proj2 (proj2 (settings_round_trips (SettingsApp.new SETTINGS.initial)
                                 SETTINGS.initial _)))).
  split; [by left | done].
Defined.

(** *** TTTApp *)

Lemma ttt_reset_at_rest a : ttt_at_rest (TTTApp._reset a).
Proof. by split. Qed.

Lemma ttt_holds_insert b idx p q i :
  TTTApp.holds (<[idx := Some p]> b) q i = true → q ≠ p →
  TTTApp.holds b q i = true.
Proof.
  unfold TTTApp.holds. intros Hh Hne.
  destruct (decide (i = idx)) as [->|Hi].
  - destruct (decide (idx < length b)%nat).
    + rewrite list_lookup_insert_eq in Hh by done. by destruct p, q.
    + by rewrite list_insert_ge in Hh by lia.
  - by rewrite list_lookup_insert_ne in Hh.
Qed.

Lemma ttt_check_insert b idx p q :
  TTTApp._check q (<[idx := Some p]> b) = true → q ≠ p →
  TTTApp._check q b = true.
Proof.
  unfold TTTApp._check. intros Hc Hne.
  apply existsb_exists in Hc as ([[i j] k] & Hin & Hh).
  apply existsb_exists. exists (i, j, k). split; [done|].
  apply andb_true_iff in Hh as [[Hi Hj]%andb_true_iff Hk].
  by rewrite (ttt_holds_insert _ _ _ _ _ Hi), (ttt_holds_insert _ _ _ _ _ Hj),
    (ttt_holds_insert _ _ _ _ _ Hk).
Qed.

Lemma ttt_count_insert b idx p q :
  b !! idx = Some None →
  TTTApp.count q (<[idx := Some p]> b)
    = ((if TTTApp.Mark_eqb p q then 1 else 0) + TTTApp.count q b)%nat.
Proof.
  revert idx. induction b as [|c b IH]; intros [|idx]; simpl; try done.
  - by intros [= ->].
  - intros Hl. rewrite (IH _ Hl). destruct c as [r|]; [|done].
    destruct (TTTApp.Mark_eqb r q), (TTTApp.Mark_eqb p q); lia.
Qed.

Lemma ttt_place_at_rest idx a :
  ttt_at_rest a → TTTApp.board a !! idx = Some None →
  ttt_at_rest (TTTApp.place idx a).
Proof.
  intros [Hlen HX HO Hfree Hturn] Hidx. unfold TTTApp.place.
  destruct (TTTApp._check (TTTApp.turn a) (<[idx:=Some (TTTApp.turn a)]> (TTTApp.board a)))
    eqn:Hwin; [apply ttt_reset_at_rest|].
  destruct (TTTApp.full (<[idx:=Some (TTTApp.turn a)]> (TTTApp.board a)))
    eqn:Hfull; [apply ttt_reset_at_rest|].
  split; simpl.
  - by rewrite length_insert.
  - destruct (TTTApp.turn a) eqn:Ht; [done|].
    apply not_true_is_false. intros E.
    by rewrite (ttt_check_insert _ _ _ _ E) in HX.
  - destruct (TTTApp.turn a) eqn:Ht; [|done].
    apply not_true_is_false. intros E.
    by rewrite (ttt_check_insert _ _ _ _ E) in HO.
  - done.
  - rewrite !(ttt_count_insert _ _ _ _ Hidx).
    destruct (TTTApp.turn a); simpl in *; lia.
Qed.

Lemma ttt_handle_event_at_rest e rect a a' :
  ttt_at_rest a → TTTApp.handle_event e rect a = inr a' → ttt_at_rest a'.
Proof.
  intros Ha. unfold TTTApp.handle_event, TTTApp.click.
  repeat case_match; intros [= <-]; try done;
    by apply ttt_reset_at_rest || apply ttt_place_at_rest.
Qed.

Lemma ttt_cell_at_raises rect pos x :
  TTTApp.cell_at rect pos = inl x → x = ZeroDivisionError.
Proof. unfold TTTApp.cell_at. repeat case_match; congruence. Qed.

Lemma ttt_cell_at_index rect pos idx :
  TTTApp.cell_at rect pos = inr (Some idx) → (idx < 9)%nat.
Proof.
  unfold TTTApp.cell_at. repeat case_match; try congruence. intros [= <-].
  repeat match goal with
         | H : _ && _ = true |- _ => apply andb_true_iff in H as [? ?]
         end.
  lia.
Qed.

Lemma ttt_handle_event_no_index_error e rect a :
  ttt_at_rest a → TTTApp.handle_event e rect a ≠ inl IndexError.
Proof.
  intros Ha. unfold TTTApp.handle_event.
  destruct e as [button pos|button pos|pos|key|key| |w h|ty];
    try done; [|by case_match].
  destruct button as [|[p|p|]|p]; try done.
  destruct (Rect.collidepoint rect pos); [|done]. unfold TTTApp.click.
  destruct (TTTApp.cell_at rect pos) as [x|[idx|]] eqn:Hc; [| |done].
  - by apply ttt_cell_at_raises in Hc as ->.
  - apply ttt_cell_at_index in Hc.
    destruct (lookup_lt_is_Some_2 (TTTApp.board a) idx) as [c Hl];
      [rewrite (rest_cells _ Ha); lia|].
    rewrite Hl. by destruct c.
Qed.

(** X24.  Whatever presses and keys the tic-tac-toe application receives,
    in whatever content rectangles, as long as none raises: between two
    events the board has nine cells, shows no completed line and is not
    full (a win or a draw clears it at once), X has as many marks as O when
    it is X's turn and one more when it is O's.  No event raises
    IndexError. *)
Theorem ttt_between_events (es : list (Event * Rect.t)) :
  match TTTApp.run es TTTApp.new with
  | inr a => ttt_at_rest a
  | inl x => x = ZeroDivisionError
  end.
Proof.
  assert (ttt_at_rest TTTApp.new) as Ha by (by split).
  revert Ha. generalize TTTApp.new.
  induction es as [|[e rect] es IH]; intros a Ha; simpl; [done|].
  pose proof (ttt_handle_event_no_index_error e rect a Ha) as Hne.
  destruct (TTTApp.handle_event e rect a) as [x|a'] eqn:He.
  - by destruct x.
  - apply IH. by eapply ttt_handle_event_at_rest.
Qed.

Lemma ttt_fresh_mark idx :
  (idx < 9)%nat →
  TTTApp.empty_board !! idx = Some None ∧
  TTTApp._check TTTApp.X (<[idx := Some TTTApp.X]> TTTApp.empty_board) = false ∧
  TTTApp.full (<[idx := Some TTTApp.X]> TTTApp.empty_board) = false.
Proof.
  intros Hlt. do 9 (destruct idx as [|idx]; [by vm_compute|]). lia.
Qed.

(** X25.  The same left-button press handled twice by the tic-tac-toe
    application (the main loop hands every event to the window under the
    pointer twice) on a free cell: if the mark neither completes a line nor
    fills the board, the second delivery changes nothing; if it does, the
    first delivery clears the board and the second one puts an X on the
    cleared board in the same cell and passes the turn to O. *)
Theorem ttt_click_twice (rect : Rect.t) (pos : Pos) (a : TTTApp.t) (idx : nat) :
  ttt_at_rest a →
  Rect.collidepoint rect pos = true →
  TTTApp.cell_at rect pos = inr (Some idx) →
  TTTApp.board a !! idx = Some None →
  let e := MOUSEBUTTONDOWN 1 pos in
  let b := <[idx := Some (TTTApp.turn a)]> (TTTApp.board a) in
  ∃ a1,
    TTTApp.handle_event e rect a = inr a1 ∧
    TTTApp.handle_event e rect a1 =
      inr (if TTTApp._check (TTTApp.turn a) b || TTTApp.full b
           then TTTApp.mk (<[idx := Some TTTApp.X]> TTTApp.empty_board) TTTApp.O
                  (TTTApp.stats a1)
           else a1).
Proof.
  intros Ha Hc Hcell Hfree e b. subst e b.
  pose proof (ttt_cell_at_index _ _ _ Hcell) as Hlt.
  destruct (ttt_fresh_mark idx Hlt) as (He & Hx & Hf).
  assert (∀ st, TTTApp.handle_event (MOUSEBUTTONDOWN 1 pos) rect
                  (TTTApp.mk TTTApp.empty_board TTTApp.X st)
                = inr (TTTApp.mk (<[idx := Some TTTApp.X]> TTTApp.empty_board)
                         TTTApp.O st)) as Hsecond.
  { intros st. unfold TTTApp.handle_event, TTTApp.click. rewrite Hc, Hcell.
    cbn [TTTApp.board]. rewrite He. unfold TTTApp.place.
    cbn [TTTApp.board TTTApp.turn TTTApp.stats]. by rewrite Hx, Hf. }
  exists (TTTApp.place idx a). split.
  { unfold TTTApp.handle_event, TTTApp.click. by rewrite Hc, Hcell, Hfree. }
  unfold TTTApp.place.
  destruct (TTTApp._check (TTTApp.turn a)
              (<[idx := Some (TTTApp.turn a)]> (TTTApp.board a)))
    eqn:Hwin; [apply Hsecond|].
  destruct (TTTApp.full (<[idx := Some (TTTApp.turn a)]> (TTTApp.board a)))
    eqn:Hfull; [apply Hsecond|].
  unfold TTTApp.handle_event, TTTApp.click. rewrite Hc, Hcell.
  cbn [TTTApp.board orb].
  rewrite list_lookup_insert_eq; [done|]. rewrite (rest_cells _ Ha). lia.
Qed.

Lemma ttt_click_twice_witness :
  let rect := Rect.mk 0 0 336 336 in
  let a := TTTApp.mk [Some TTTApp.X; Some TTTApp.X; None;
                      Some TTTApp.O; Some TTTApp.O; None;
                      None; None; None] TTTApp.X (TTTApp.mkStats 0 0 0) in
  ∃ a1,
    TTTApp.handle_event (MOUSEBUTTONDOWN 1 (250, 50)) rect a = inr a1 ∧
    TTTApp.handle_event (MOUSEBUTTONDOWN 1 (250, 50)) rect a1 =
      inr (TTTApp.mk [None; None; Some TTTApp.X; None; None; None; None; None; None]
             TTTApp.O (TTTApp.stats a1)).
Proof.
  refine (ttt_click_twice (Rect.mk 0 0 336 336) (250, 50)
            (TTTApp.mk [Some TTTApp.X; Some TTTApp.X; None;
                        Some TTTApp.O; Some TTTApp.O; None;
                        None; None; None] TTTApp.X (TTTApp.mkStats 0 0 0))
            2 _ eq_refl eq_refl eq_refl).
  by split.
Defined.

(** X26.  A left-button press inside the content rectangle raises
    ZeroDivisionError in the tic-tac-toe application exactly when the
    smaller side of the rectangle is 36, 37 or 38 pixels: the grid is then
    0 to 2 pixels wide and its cell size [size // 3] is zero. *)
Theorem ttt_zero_division (rect : Rect.t) (pos : Pos) (a : TTTApp.t) :
  ttt_at_rest a →
  Rect.collidepoint rect pos = true →
  TTTApp.handle_event (MOUSEBUTTONDOWN 1 pos) rect a = inl ZeroDivisionError
  ↔ 36 <= Z.min (Rect.w rect) (Rect.h rect) <= 38.
Proof.
  intros Ha Hc. unfold TTTApp.handle_event. rewrite Hc.
  pose proof (ttt_handle_event_no_index_error (MOUSEBUTTONDOWN 1 pos) rect a Ha) as Hni.
  unfold TTTApp.handle_event in Hni. rewrite Hc in Hni. revert Hni.
  unfold TTTApp.click, TTTApp.cell_at.
  set (size := Z.min (Rect.w rect) (Rect.h rect) - 36).
  assert (size / 3 = 0 ↔ 0 <= size < 3) as Hdiv.
  { rewrite Z.div_small_iff by lia. lia. }
  destruct (Z.eqb_spec (size / 3) 0) as [Hz|Hz].
  - intros _. split; [intros _; lia | done].
  - intros Hni. split; [|lia]. repeat case_match; congruence.
Qed.

Lemma ttt_zero_division_witness :
  TTTApp.handle_event (MOUSEBUTTONDOWN 1 (5, 5)) (Rect.mk 0 0 300 37) TTTApp.new
    = inl ZeroDivisionError.
Proof.
  refine (proj2 (ttt_zero_division (Rect.mk 0 0 300 37) (5, 5) TTTApp.new _ eq_refl)
            _).
  - by split.
  - simpl. lia.
Defined.

(** *** SnakeApp *)

Lemma snake_contains_false p l : SnakeApp.contains p l = false → p ∉ l.
Proof.
  unfold SnakeApp.contains. intros Hc Hin.
  assert (existsb (SnakeApp.pair_eqb p) l = true) as Ht; [|congruence].
  apply existsb_exists. exists p. split; [by apply list_elem_of_In|].
  unfold SnakeApp.pair_eqb. by rewrite !Z.eqb_refl.
Qed.

Lemma snake_reset_ok h a : SnakeApp.cell a = 18 → snake_ok (SnakeApp.reset h a).
Proof.
  intros Hc. split; simpl; try done.
  - apply (bool_decide_unpack _). by vm_compute.
  - by left.
Qed.

Lemma snake_handle_event_ok h e a :
  snake_ok a → snake_ok (SnakeApp.handle_event h e a).
Proof.
  intros Ha. unfold SnakeApp.handle_event.
  destruct e as [button pos|button pos|pos|key|key| |w hh|ty]; try done.
  assert (∀ b d x, snake_ok x → SnakeApp.unit_dir d →
                   snake_ok (if b : bool then SnakeApp.set_dir d x else x)) as Hset.
  { intros [] d x [] Hd; by split. }
  destruct (key =? K_r).
  - apply snake_reset_ok.
    repeat match goal with
           | |- context [if ?b then SnakeApp.set_dir ?d ?x else ?x] =>
               destruct b; cbn [SnakeApp.set_dir SnakeApp.cell]
           end; apply Ha.
  - repeat (apply Hset; [|unfold SnakeApp.unit_dir; by auto]). done.
Qed.

Lemma snake_update_ok h choice rect a :
  snake_ok a → ∃ a', SnakeApp.update h choice rect a = inr a' ∧ snake_ok a'.
Proof.
  intros [Hhead Hnd Hlen Hdir Hcell]. unfold SnakeApp.update.
  destruct (negb (SnakeApp.alive a)); [by eexists|].
  destruct (_ <? SnakeApp.speed a); [by eexists|].
  destruct (SnakeApp.snake a) as [|first rest] eqn:Hs; [done|].
  set (head := (first.1 + (SnakeApp.dir a).1, first.2 + (SnakeApp.dir a).2)).
  destruct (_ || SnakeApp.contains head (first :: rest)) eqn:Hdead.
  { eexists. split; [done|]. split; simpl; by rewrite ?Hs. }
  apply orb_false_iff in Hdead as [_ Hin%snake_contains_false].
  unfold len in *.
  destruct (SnakeApp.pair_eqb head (SnakeApp.food a)).
  - eexists. split; [done|]. split; cbn [SnakeApp.snake SnakeApp.score
                                         SnakeApp.dir SnakeApp.cell]; try done.
    + by apply NoDup_cons.
    + unfold len. rewrite !length_cons in *. lia.
  - eexists. split; [done|]. split; cbn [SnakeApp.snake SnakeApp.score
                                         SnakeApp.dir SnakeApp.cell]; try done.
    + rewrite removelast_firstn_len.
      eapply sublist_NoDup; first [apply sublist_take | by apply NoDup_cons].
    + unfold len. rewrite removelast_firstn_len, length_take, !length_cons in *. lia.
Qed.

(** X27.  Whatever keys the snake game receives and whatever frames are
    drawn, in whatever rectangles, at whatever times and with whatever
    [random.choice] returns: no step raises (the snake always has a head to
    read), the snake never holds a cell twice, its length is the score plus
    three, and its direction is one of the four unit steps. *)
Theorem snake_invariant (h : Host) (xs : list SnakeApp.Action) :
  ∃ a, SnakeApp.run xs (SnakeApp.new h) = inr a ∧ snake_ok a.
Proof.
  assert (snake_ok (SnakeApp.new h)) as Ha by (by apply snake_reset_ok).
  revert Ha. generalize (SnakeApp.new h).
  induction xs as [|x xs IH]; intros a Ha; simpl; [by eexists|].
  destruct x as [h' e|h' choice rect]; simpl.
  - by apply IH, snake_handle_event_ok.
  - destruct (snake_update_ok h' choice
                (Rect.mk (Rect.x rect + 3) (Rect.y rect + 3)
                   (Rect.w rect - 6) (Rect.h rect - 6)) a Ha) as (a' & Hu & Ha').
    unfold SnakeApp.draw. rewrite Hu. by apply IH.
Qed.

(** X28.  The snake game refuses a key that would reverse the snake only
    against the direction set last, not against the direction of the last
    move.  Moving right, the Left key alone is ignored; but Up followed by
    Left before the next move turns the snake round on the spot, and the
    next move runs the head into the cell behind it: the game is over. *)
Theorem snake_quick_reverse (h1 h2 h3 : Host) (choice : list (Z * Z) → Z * Z)
  (rect : Rect.t) (a : SnakeApp.t) (first : Z * Z) (rest : list (Z * Z)) :
  SnakeApp.alive a = true →
  SnakeApp.dir a = (1, 0) →
  SnakeApp.snake a = first :: (fst first - 1, snd first) :: rest →
  SnakeApp.speed a <= time_ms h3 - SnakeApp.last a →
  SnakeApp.dir (SnakeApp.handle_event h1 (KEYDOWN K_LEFT) a) = (1, 0) ∧
  ∃ a',
    SnakeApp.update h3 choice rect
      (SnakeApp.handle_event h2 (KEYDOWN K_LEFT)
         (SnakeApp.handle_event h1 (KEYDOWN K_UP) a)) = inr a' ∧
    SnakeApp.alive a' = false ∧
    SnakeApp.snake a' = SnakeApp.snake a.
Proof.
  intros Halive Hdir Hsnake Htime.
  unfold SnakeApp.handle_event. cbn [Z.eqb K_LEFT K_UP K_DOWN K_RIGHT K_r].
  simpl. rewrite Hdir. simpl. split; [done|].
  unfold SnakeApp.update. simpl. rewrite Halive, Hsnake. simpl.
  destruct (Z.ltb_spec (time_ms h3 - SnakeApp.last a) (SnakeApp.speed a)); [lia|].
  assert (SnakeApp.pair_eqb (first.1 + -1, first.2 + 0) (first.1 - 1, first.2) = true)
    as Hneck.
  { unfold SnakeApp.pair_eqb. simpl. apply andb_true_iff. split; apply Z.eqb_eq; lia. }
  rewrite Hneck. rewrite !orb_true_r. eexists. by split_and!.
Qed.

Lemma snake_quick_reverse_witness :
  ∃ a',
    SnakeApp.update (mkHost false 200 true) (fun _ => (0, 0)) (Rect.mk 0 0 360 360)
      (SnakeApp.handle_event (mkHost false 20 true) (KEYDOWN K_LEFT)
         (SnakeApp.handle_event (mkHost false 10 true) (KEYDOWN K_UP)
            (SnakeApp.new (mkHost false 0 true)))) = inr a' ∧
    SnakeApp.alive a' = false.
Proof.
  destruct (snake_quick_reverse (mkHost false 10 true) (mkHost false 20 true)
              (mkHost false 200 true) (fun _ => (0, 0)) (Rect.mk 0 0 360 360)
              (SnakeApp.new (mkHost false 0 true)) (5, 5) [(3, 5)]
              eq_refl eq_refl eq_refl ltac:(simpl; lia))
    as (_ & a' & Hu & Hd & _).
  by exists a'.
Defined.

(** *** ChatApp *)


